(** * SportsSignal: rating replay, rolling statistics, feature assembly and
    score derivation, embedded from the Python sources under [backend/app].

    Numbers.  Python [int] is [Z].  A Python [float] is modelled by the exact
    number it stands for: a rational ([Q]) wherever the code only adds,
    multiplies, divides, floors and rounds, and a real ([R]) in the two places
    that call a transcendental function ([**] with a fractional exponent in
    the Elo formulas, [math.log] in the spread).  Binary rounding error of
    the hardware floats is not part of these definitions; where a statement
    is about the floats themselves, the values are taken to binary64 with
    [py.binary64], and statements that hold of exact numbers only say so.

    Containers.  A [dict] is a stdpp [gmap]; a [defaultdict] read is a lookup
    with default (the Elo replay also stores the default, as the read does);
    a [list] is a [list]; a table is the list of its rows. *)

From Stdlib Require Import ZArith QArith Qabs Qround Qpower Reals Psatz List Ascii String Permutation Sorted.
From stdpp Require Import gmap strings.

(* ===================================================================== *)
(** * Part I: the embedding                                               *)
(* ===================================================================== *)

(** ** Python builtins used by the services *)

Module py.

(** [round(x)] on a number: nearest integer, a tie going to the even one. *)
Definition round_half_even (x : Q) : Z :=
  let f := Qfloor x in
  match (x - inject_Z f ?= 1 # 2)%Q with
  | Lt => f
  | Gt => (f + 1)%Z
  | Eq => if Z.even f then f else (f + 1)%Z
  end.

(** [round(x, n)]: round half even at the n-th decimal place. *)
Definition round_ndigits (x : Q) (n : nat) : Q :=
  (inject_Z (round_half_even (x * inject_Z (10 ^ Z.of_nat n))) / inject_Z (10 ^ Z.of_nat n))%Q.

(** [sum] of a list of numbers, and of a list of integers. *)
Definition sum (l : list Q) : Q := fold_right Qplus 0%Q l.
Definition sumZ (l : list Z) : Z := fold_right Z.add 0%Z l.



(** [max(a, b)] and [min(a, b)] on numbers. *)
Definition max (a b : Q) : Q := if Qle_bool a b then b else a.
Definition min (a b : Q) : Q := if Qle_bool a b then a else b.

(** [sorted(l, key=key, reverse=True)].  Python's sort is stable, also with
    [reverse=True]: elements with equal keys keep their original order.  The
    result of a stable sort does not depend on the algorithm; this is the
    insertion sort that produces it. *)
Fixpoint insert_desc {A} (key : A -> Q) (x : A) (l : list A) : list A :=
  match l with
  | [] => [x]
  | y :: l' => if Qle_bool (key y) (key x) then x :: l else y :: insert_desc key x l'
  end.

Definition sorted_reverse {A} (key : A -> Q) (l : list A) : list A :=
  fold_right (insert_desc key) [] l.

(** [l[-n:]]: the last [n] elements (the whole list when it is shorter). *)
Definition last_n {A} (n : nat) (l : list A) : list A :=
  skipn (length l - n) l.

End py.

(** ** utils/sport_config.py *)

Module sport_config.

Record SportConfig := {
  name : string;
  api_source : string;
  elo_k_base : Q;
  elo_home_advantage : Q;
  elo_season_regression : Q;
  default_ppg : Q;
  period_type : string;
  num_periods : nat;
  spread_calibration : Q;
  seasons : list Z;
  season_label_format : string;
  espn_groups : option string
}.

Definition SPORT_CONFIGS : gmap string SportConfig :=
  list_to_map [
    ("NBA"%string,
     {| name := "NBA"; api_source := "balldontlie"; elo_k_base := 20;
        elo_home_advantage := 75; elo_season_regression := 75 # 100;
        default_ppg := 100; period_type := "quarter"; num_periods := 4;
        spread_calibration := 12; seasons := [2022; 2023; 2024; 2025]%Z;
        season_label_format := "range"; espn_groups := None |});
    ("NHL"%string,
     {| name := "NHL"; api_source := "nhl_api"; elo_k_base := 16;
        elo_home_advantage := 30; elo_season_regression := 75 # 100;
        default_ppg := 3; period_type := "period"; num_periods := 3;
        spread_calibration := 25 # 10; seasons := [2022; 2023; 2024; 2025]%Z;
        season_label_format := "range"; espn_groups := None |});
    ("MLB"%string,
     {| name := "MLB"; api_source := "mlb_api"; elo_k_base := 10;
        elo_home_advantage := 24; elo_season_regression := 75 # 100;
        default_ppg := 45 # 10; period_type := "inning"; num_periods := 9;
        spread_calibration := 5; seasons := [2022; 2023; 2024; 2025]%Z;
        season_label_format := "single"; espn_groups := None |});
    ("NCAAB"%string,
     {| name := "NCAAB"; api_source := "espn"; elo_k_base := 20;
        elo_home_advantage := 125; elo_season_regression := 75 # 100;
        default_ppg := 70; period_type := "half"; num_periods := 2;
        spread_calibration := 10; seasons := [2022; 2023; 2024; 2025]%Z;
        season_label_format := "range"; espn_groups := Some "50"%string |});
    ("NFL"%string,
     {| name := "NFL"; api_source := "espn"; elo_k_base := 20;
        elo_home_advantage := 48; elo_season_regression := 75 # 100;
        default_ppg := 22; period_type := "quarter"; num_periods := 4;
        spread_calibration := 10; seasons := [2022; 2023; 2024; 2025]%Z;
        season_label_format := "single"; espn_groups := None |});
    ("NCAAF"%string,
     {| name := "NCAAF"; api_source := "espn"; elo_k_base := 20;
        elo_home_advantage := 75; elo_season_regression := 75 # 100;
        default_ppg := 28; period_type := "quarter"; num_periods := 4;
        spread_calibration := 10; seasons := [2022; 2023; 2024; 2025]%Z;
        season_label_format := "single"; espn_groups := Some "80"%string |})
  ].

(** A [str] is held as its UTF-8 bytes.

    [str.upper()], exact wherever the result can be compared with ASCII
    text.  Besides the ASCII letters, ten characters have an uppercase form
    made of ASCII letters only, and they are mapped as Python maps them:
    U+00DF to SS, U+0131 to I, U+017F to S, and the ligatures U+FB00..U+FB06
    to FF, FI, FL, FFI, FFL, ST, ST.  The uppercase form of every other
    character contains a character outside ASCII; such a character is kept
    as it is.  So [upper s] is an ASCII string [k] exactly when
    [s.upper() == k], which is all that a lookup among the ASCII keys of
    [SPORT_CONFIGS] reads. *)
Definition upper_ascii (c : Ascii.ascii) : Ascii.ascii :=
  let n := Ascii.nat_of_ascii c in
  if ((97 <=? n) && (n <=? 122))%nat then Ascii.ascii_of_nat (n - 32) else c.

(** The uppercase form of the ligature U+FB00 + k, by the last byte of its
    encoding EF AC (80 + k). *)
Definition ligature (b : Ascii.ascii) : option string :=
  if Ascii.eqb b "128"%char then Some "FF"%string
  else if Ascii.eqb b "129"%char then Some "FI"%string
  else if Ascii.eqb b "130"%char then Some "FL"%string
  else if Ascii.eqb b "131"%char then Some "FFI"%string
  else if Ascii.eqb b "132"%char then Some "FFL"%string
  else if Ascii.eqb b "133"%char then Some "ST"%string
  else if Ascii.eqb b "134"%char then Some "ST"%string
  else None.

Fixpoint upper (s : string) : string :=
  match s with
  | EmptyString => EmptyString
  | String c s1 =>
      let plain := String (upper_ascii c) (upper s1) in
      match s1 with
      | EmptyString => plain
      | String d s2 =>
          if Ascii.eqb c "195"%char && Ascii.eqb d "159"%char      (* U+00DF *)
          then String.append "SS" (upper s2)
          else if Ascii.eqb c "196"%char && Ascii.eqb d "177"%char (* U+0131 *)
          then String.append "I" (upper s2)
          else if Ascii.eqb c "197"%char && Ascii.eqb d "191"%char (* U+017F *)
          then String.append "S" (upper s2)
          else if Ascii.eqb c "239"%char && Ascii.eqb d "172"%char (* U+FB00.. *)
          then
            match s2 with
            | EmptyString => plain
            | String b s3 =>
                match ligature b with
                | Some l => String.append l (upper s3)
                | None => plain
                end
            end
          else plain
      end
  end.

(** [get_sport_config(sport)]; [None] is the KeyError. *)
Definition get_sport_config (sport : string) : option SportConfig :=
  SPORT_CONFIGS !! upper sport.

End sport_config.

(** ** models: the rows the services read and write.  A [datetime] is a
    count of seconds on the time line. *)

Module Game.
Record t := {
  id : Z;
  external_id : string;
  sport : string;
  season : Z;
  game_date : Z;
  status : string;
  is_postseason : bool;
  home_team_id : Z;
  away_team_id : Z;
  home_score : option Z;
  away_score : option Z;
  home_period_scores : option (list Q);
  away_period_scores : option (list Q)
}.
End Game.

Module Team.
Record t := {
  id : Z;
  sport : string;
  current_elo : Q
}.
End Team.

(** A value of a stats dict: Python keeps [int] and [float] apart
    ([isinstance(v, float)] decides what is rounded). *)
Inductive num := Int (z : Z) | Float (q : Q).

Definition num_value (v : num) : Q :=
  match v with Int z => inject_Z z | Float q => q end.

Module TeamRollingStats.
Record t := {
  team_id : Z;
  game_id : Z;
  sport : string;
  as_of_date : Z;
  games_played : Z;
  stats : gmap string num
}.
End TeamRollingStats.

(** ** services/elo_calculator.py *)

Module TeamEloHistory.
Record t := {
  team_id : Z;
  game_id : Z;
  game_date : Z;
  elo_before : R;
  elo_after : R
}.
End TeamEloHistory.

Module elo_calculator.
Local Open Scope R_scope.

(** The attributes [__init__] reads from the sport's configuration. *)
Record EloCalculator := {
  K_BASE : R;
  HOME_ADVANTAGE : R;
  _season_regression : R
}.

Definition INITIAL_ELO : R := 1500.

Definition __init__ (sport : string) : option EloCalculator :=
  match sport_config.get_sport_config sport with
  | None => None
  | Some config =>
      Some {| K_BASE := Q2R (sport_config.elo_k_base config);
              HOME_ADVANTAGE := Q2R (sport_config.elo_home_advantage config);
              _season_regression := Q2R (sport_config.elo_season_regression config) |}
  end.

Definition k_factor (self : EloCalculator) (mov : Z) (elo_diff : R) : R :=
  K_BASE self * Rpower (IZR (Z.abs mov + 3)) 0.8 / (7.5 + 0.006 * Rabs elo_diff).

Definition calculate_expected (elo_a elo_b : R) : R :=
  1 / (1 + Rpower 10 ((elo_b - elo_a) / 400)).

Definition update_elo (self : EloCalculator) (home_elo away_elo : R)
    (home_score away_score : Z) : R * R :=
  let expected_home := calculate_expected (home_elo + HOME_ADVANTAGE self) away_elo in
  let expected_away := calculate_expected away_elo (home_elo + HOME_ADVANTAGE self) in
  let home_won := if (away_score <? home_score)%Z then 1 else 0 in
  let mov := (home_score - away_score)%Z in
  let elo_diff := home_elo - away_elo in
  let k := k_factor self mov elo_diff in
  let new_home := home_elo + k * (home_won - expected_home) in
  let new_away := away_elo + k * ((1 - home_won) - expected_away) in
  (new_home, new_away).

Definition season_reset (self : EloCalculator) (elo : R) : R :=
  _season_regression self * elo + (1 - _season_regression self) * INITIAL_ELO.

(** The state of the loop of [calculate_all_elos]. *)
Record replay := {
  elos : gmap Z R;
  current_season : option Z;
  history_records : list TeamEloHistory.t
}.

Definition start : replay :=
  {| elos := ∅; current_season := None; history_records := [] |}.

(** [elos[tid]] on the [defaultdict]: a missing team is stored at
    [INITIAL_ELO] by the read. *)
Definition elos_getitem (elos : gmap Z R) (tid : Z) : R * gmap Z R :=
  match elos !! tid with
  | Some r => (r, elos)
  | None => (INITIAL_ELO, <[tid := INITIAL_ELO]> elos)
  end.

(** A team's rating as the replay holds it: a team that is not tracked yet
    stands at [INITIAL_ELO] (every team is reset to it before the replay). *)
Definition rating (elos : gmap Z R) (tid : Z) : R :=
  default INITIAL_ELO (elos !! tid).

(** Lines 116-123: the season boundary check at the top of the loop body. *)
Definition season_boundary (self : EloCalculator) (st : replay) (game : Game.t)
    : gmap Z R :=
  match current_season st with
  | Some s =>
      if decide (Game.season game = s) then elos st
      else season_reset self <$> elos st
  | None => elos st
  end.

(** Lines 125-161: the rest of the loop body, on the ratings [elos1] left by
    the boundary check. *)
Definition play_game (self : EloCalculator) (elos1 : gmap Z R) (st : replay)
    (game : Game.t) : replay :=
  let current_season' := Some (Game.season game) in
  let '(home_elo_before, elos2) := elos_getitem elos1 (Game.home_team_id game) in
  let '(away_elo_before, elos3) := elos_getitem elos2 (Game.away_team_id game) in
  match Game.home_score game, Game.away_score game with
  | Some home_score, Some away_score =>
      let '(new_home_elo, new_away_elo) :=
        update_elo self home_elo_before away_elo_before home_score away_score in
      {| elos := <[Game.away_team_id game := new_away_elo]>
                   (<[Game.home_team_id game := new_home_elo]> elos3);
         current_season := current_season';
         history_records :=
           history_records st ++
           [ {| TeamEloHistory.team_id := Game.home_team_id game;
                TeamEloHistory.game_id := Game.id game;
                TeamEloHistory.game_date := Game.game_date game;
                TeamEloHistory.elo_before := home_elo_before;
                TeamEloHistory.elo_after := new_home_elo |};
             {| TeamEloHistory.team_id := Game.away_team_id game;
                TeamEloHistory.game_id := Game.id game;
                TeamEloHistory.game_date := Game.game_date game;
                TeamEloHistory.elo_before := away_elo_before;
                TeamEloHistory.elo_after := new_away_elo |} ] |}
  | _, _ =>
      (* [continue] *)
      {| elos := elos3; current_season := current_season';
         history_records := history_records st |}
  end.

(** One iteration of [for game in games]. *)
Definition replay_game (self : EloCalculator) (st : replay) (game : Game.t) : replay :=
  play_game self (season_boundary self st game) st game.

(** [calculate_all_elos]: the replay over the sport's final games in date
    order ([games] is the result of the query).  The final [elos] are written
    to the teams and [history_records] are inserted. *)
Definition calculate_all_elos (self : EloCalculator) (games : list Game.t) : replay :=
  fold_left (replay_game self) games start.


End elo_calculator.

(** ** services/rolling_stats_computer.py *)

Module rolling_stats_computer.
Import py.
Local Open Scope Q_scope.

(** [b.get(key, d)] on a boxscore map, [x or y] on numbers, [x > 0] and the
    recurring [a / b if b > 0 else 0.0]. *)
Definition get (b : gmap string Q) (key : string) (d : Q) : Q := default d (b !! key).
Definition or_ (x y : Q) : Q := if Qeq_bool x 0 then y else x.
Definition positive (x : Q) : bool := negb (Qle_bool x 0).
Definition ratio_if_positive (a b : Q) : Q := if positive b then a / b else 0.

Definition EWMA_DECAY : Q := 95 # 100.

(** The loop of [_ewma] over [reversed(values)]: newest first. *)
Fixpoint ewma_loop (decay : Q) (vs : list Q) (weight total weight_sum : Q) : Q * Q :=
  match vs with
  | [] => (total, weight_sum)
  | v :: vs' =>
      ewma_loop decay vs' (weight * decay) (total + weight * v) (weight_sum + weight)
  end.

Definition _ewma_decay (values : list Q) (decay : Q) : Q :=
  match values with
  | [] => 0
  | _ =>
      let '(total, weight_sum) := ewma_loop decay (rev values) 1 0 0 in
      if positive weight_sum then total / weight_sum else 0
  end.

Definition _ewma (values : list Q) : Q := _ewma_decay values EWMA_DECAY.

(** An entry of a team's history (the dict appended per game). *)
Record entry := {
  game_id : Z;
  game_date : Z;
  is_home : bool;
  score_for : Z;
  score_against : Z;
  won : bool;
  boxscore : gmap string Q;
  margin : Z
}.

(** Truth value of a dict: non-empty. *)
Definition truthy (b : gmap string Q) : bool := negb (Nat.eqb (size b) 0).

Definition stats_of (l : list (string * Q)) : gmap string num :=
  list_to_map (map (fun kv => (fst kv, Float (snd kv))) l).

Definition _compute_nba_stats (boxes : list (gmap string Q)) (last_10 : list entry)
    : gmap string num :=
  match boxes with
  | [] =>
      stats_of [("efg_pct_10", 0); ("tov_pct_10", 0); ("ftr_10", 0); ("oreb_pct_10", 0);
                ("net_rating_10", 0); ("ast_tov_ratio_10", 0); ("pace_10", 0)]%string
  | _ =>
      let fga_of b := or_ (get b "fga" 1) 1 in
      let efg_vals :=
        map (fun b =>
               let fg3m := or_ (get b "fg3m" 0) (get b "3ptm" 0) in
               ratio_if_positive (get b "fgm" 0 + (1 # 2) * fg3m) (fga_of b)) boxes in
      let tov_vals :=
        map (fun b =>
               let possessions_est := fga_of b + (44 # 100) * get b "fta" 0 + get b "tov" 0 in
               ratio_if_positive (get b "tov" 0) possessions_est) boxes in
      let ftr_vals := map (fun b => ratio_if_positive (get b "fta" 0) (fga_of b)) boxes in
      let oreb_vals :=
        map (fun b =>
               let total_reb := get b "oreb" 0 + get b "dreb" 0 in
               ratio_if_positive (get b "oreb" 0) total_reb) boxes in
      let net_rating_vals :=
        map (fun g => inject_Z (score_for g - score_against g)) last_10 in
      let total_ast := sum (map (fun b => get b "ast" 0) boxes) in
      let total_tov := sum (map (fun b => get b "tov" 0) boxes) in
      let pace_vals :=
        map (fun b => get b "fga" 0 + (44 # 100) * get b "fta" 0 - get b "oreb" 0
                      + get b "tov" 0) boxes in
      stats_of [("efg_pct_10", _ewma efg_vals); ("tov_pct_10", _ewma tov_vals);
                ("ftr_10", _ewma ftr_vals); ("oreb_pct_10", _ewma oreb_vals);
                ("net_rating_10",
                 match net_rating_vals with [] => 0 | _ => _ewma net_rating_vals end);
                ("ast_tov_ratio_10", total_ast / max total_tov 1);
                ("pace_10", match pace_vals with [] => 0 | _ => _ewma pace_vals end)]%string
  end.

Definition _compute_nhl_stats (boxes : list (gmap string Q)) (last_10 : list entry)
    : gmap string num :=
  match boxes with
  | [] =>
      stats_of [("shots_per_game_10", 0); ("save_pct_10", 0); ("pp_pct_10", 0);
                ("pk_pct_10", 0); ("goals_per_game_10", 0); ("goals_against_10", 0);
                ("shot_diff_10", 0)]%string
  | _ =>
      let with_box := List.filter (fun g => truthy (boxscore g)) last_10 in
      let shots_vals := map (fun g => get (boxscore g) "shots" 0) with_box in
      let save_pct_vals := map (fun g => get (boxscore g) "save_pct" 0) with_box in
      let goals_vals := map (fun g => get (boxscore g) "goals" 0) with_box in
      let total_pp_goals := sum (map (fun g => get (boxscore g) "pp_goals" 0) with_box) in
      let total_pp_opp := sum (map (fun g => get (boxscore g) "pp_opportunities" 0) with_box) in
      let total_pk_ga := sum (map (fun g => get (boxscore g) "pk_goals_against" 0) with_box) in
      let total_pk_opp := sum (map (fun g => get (boxscore g) "pk_opportunities" 0) with_box) in
      let shots_against_vals :=
        map (fun g => get (boxscore g) "saves" 0 + inject_Z (score_against g)) with_box in
      let goals_against_vals := map (fun g => inject_Z (score_against g)) last_10 in
      stats_of [("shots_per_game_10", _ewma shots_vals);
                ("save_pct_10", _ewma save_pct_vals);
                ("pp_pct_10", total_pp_goals / max total_pp_opp 1);
                ("pk_pct_10", 1 - total_pk_ga / max total_pk_opp 1);
                ("goals_per_game_10", _ewma goals_vals);
                ("goals_against_10", _ewma goals_against_vals);
                ("shot_diff_10",
                 match shots_against_vals with
                 | [] => 0
                 | _ => _ewma shots_vals - _ewma shots_against_vals
                 end)]%string
  end.

(** The per-game ERA of a history entry, when the boxscore gives innings. *)
Definition game_era (g : entry) : option Q :=
  let b := boxscore g in
  let team_ip := get b "team_ip" 0 in
  if positive team_ip then
    match b !! "earned_runs"%string with
    | Some earned_runs => Some (earned_runs / team_ip * 9)
    | None => Some (inject_Z (score_against g) / team_ip * 9)
    end
  else
    let ip := get b "pitcher_ip" 0 in
    if positive ip then Some (inject_Z (score_against g) / ip * 9) else None.

Definition _compute_mlb_stats (boxes : list (gmap string Q)) (last_10 : list entry)
    : gmap string num :=
  match boxes with
  | [] =>
      stats_of [("ops_10", 0); ("era_10", 0); ("whip_10", 0); ("k_bb_ratio_10", 0);
                ("batting_avg_10", 0); ("slug_pct_10", 0); ("runs_per_game_10", 0)]%string
  | _ =>
      let total_hits := sum (map (fun b => get b "hits" 0) boxes) in
      let total_ab := or_ (sum (map (fun b => get b "at_bats" 1) boxes)) 1 in
      let total_walks := sum (map (fun b => get b "walks" 0) boxes) in
      let total_bases b :=
        let tb := get b "total_bases" 0 in
        if Qeq_bool tb 0 then
          let hits := get b "hits" 0 in
          let doubles := get b "doubles" 0 in
          let triples := get b "triples" 0 in
          let hr := get b "home_runs" 0 in
          match b !! "doubles"%string, b !! "triples"%string with
          | Some _, Some _ =>
              max (hits - doubles - triples - hr) 0 + 2 * doubles + 3 * triples + 4 * hr
          | _, _ => hits + 3 * hr
          end
        else tb in
      let total_tb := sum (map total_bases boxes) in
      let batting_avg := total_hits / total_ab in
      let obp :=
        ratio_if_positive (total_hits + total_walks) (total_ab + total_walks) in
      let slg := total_tb / total_ab in
      let total_pitching_k :=
        sum (map (fun b => or_ (get b "pitching_strikeouts" 0) (get b "pitcher_k" 0)) boxes) in
      let total_pitching_bb :=
        sum (map (fun b => or_ (get b "pitching_walks" 0) (get b "pitcher_bb" 0)) boxes) in
      let whip_vals :=
        map (fun b => get b "team_whip" 0)
          (List.filter (fun b => negb (Qeq_bool (get b "team_whip" 0) 0)) boxes) in
      let era_vals :=
        omap game_era (List.filter (fun g => truthy (boxscore g)) last_10) in
      let runs_vals := map (fun g => inject_Z (score_for g)) last_10 in
      stats_of [("ops_10", obp + slg);
                ("era_10", match era_vals with [] => 0 | _ => _ewma era_vals end);
                ("whip_10", match whip_vals with [] => 0 | _ => _ewma whip_vals end);
                ("k_bb_ratio_10", total_pitching_k / max total_pitching_bb 1);
                ("batting_avg_10", batting_avg);
                ("slug_pct_10", slg);
                ("runs_per_game_10", _ewma runs_vals)]%string
  end.

Definition _compute_ncaab_stats (boxes : list (gmap string Q)) (last_10 : list entry)
    : gmap string num :=
  match boxes with
  | [] =>
      stats_of [("efg_pct_10", 0); ("tov_pct_10", 0); ("ftr_10", 0);
                ("oreb_pct_10", 0)]%string
  | _ =>
      let fga_of b := or_ (get b "fga" 1) 1 in
      let efg_vals :=
        map (fun b =>
               let fg3m := or_ (get b "fg3m" 0) (get b "3ptm" 0) in
               ratio_if_positive (get b "fgm" 0 + (1 # 2) * fg3m) (fga_of b)) boxes in
      let tov_vals :=
        map (fun b =>
               let possessions_est := fga_of b + (44 # 100) * get b "fta" 0 + get b "tov" 0 in
               ratio_if_positive (get b "tov" 0) possessions_est) boxes in
      let ftr_vals := map (fun b => ratio_if_positive (get b "fta" 0) (fga_of b)) boxes in
      let oreb_vals :=
        map (fun b => ratio_if_positive (get b "oreb" 0) (get b "reb" 0)) boxes in
      stats_of [("efg_pct_10", _ewma efg_vals); ("tov_pct_10", _ewma tov_vals);
                ("ftr_10", _ewma ftr_vals); ("oreb_pct_10", _ewma oreb_vals)]%string
  end.

(** Lines 544-551: the turnover margin of one boxscore. *)
Definition tov_margin (b : gmap string Q) : Q :=
  let turnovers := get b "turnovers" 0 in
  let opp_turnovers := get b "opp_turnovers" 0 in
  if positive opp_turnovers then opp_turnovers - turnovers else - turnovers.

Definition _compute_football_stats (boxes : list (gmap string Q)) (last_10 : list entry)
    : gmap string num :=
  match boxes with
  | [] =>
      stats_of [("yards_per_play_10", 0); ("tov_margin_10", 0);
                ("third_down_pct_10", 0)]%string
  | _ =>
      let ypp_vals :=
        map (fun b =>
               let total_plays := get b "pass_attempts" 0 + get b "rushing_carries" 0 in
               ratio_if_positive (get b "total_yards" 0) total_plays) boxes in
      let tov_margin_vals := map tov_margin boxes in
      let third_down_vals :=
        map (fun b => ratio_if_positive (get b "third_down_conv" 0)
                        (get b "third_down_att" 0)) boxes in
      stats_of [("yards_per_play_10", _ewma ypp_vals);
                ("tov_margin_10", _ewma tov_margin_vals);
                ("third_down_pct_10", _ewma third_down_vals)]%string
  end.

Definition _compute_sport_specific (last_10 : list entry) (sport : string)
    : gmap string num :=
  let boxes := map boxscore (List.filter (fun g => truthy (boxscore g)) last_10) in
  if String.eqb sport "NBA" then _compute_nba_stats boxes last_10
  else if String.eqb sport "NHL" then _compute_nhl_stats boxes last_10
  else if String.eqb sport "MLB" then _compute_mlb_stats boxes last_10
  else if String.eqb sport "NCAAB" then _compute_ncaab_stats boxes last_10
  else if String.eqb sport "NCAAF" || String.eqb sport "NFL"
       then _compute_football_stats boxes last_10
  else ∅.

Definition _default_stats (sport : string) : gmap string num :=
  let base : gmap string num :=
    list_to_map [("win_pct_10", Float (1 # 2)); ("win_pct_20", Float (1 # 2));
                 ("ppg_10", Float 0); ("ppg_20", Float 0);
                 ("papg_10", Float 0); ("papg_20", Float 0);
                 ("margin_avg_10", Float 0);
                 ("home_win_pct_10", Float (1 # 2)); ("away_win_pct_10", Float (1 # 2));
                 ("streak", Int 0); ("elo", Float 1500)]%string in
  let sport_defaults : gmap string (gmap string num) :=
    list_to_map [
      ("NBA", stats_of [("efg_pct_10", 0); ("tov_pct_10", 0); ("ftr_10", 0);
                        ("oreb_pct_10", 0); ("net_rating_10", 0);
                        ("ast_tov_ratio_10", 0); ("pace_10", 0)]);
      ("NHL", stats_of [("shots_per_game_10", 0); ("save_pct_10", 0); ("pp_pct_10", 0);
                        ("pk_pct_10", 0); ("goals_per_game_10", 0);
                        ("goals_against_10", 0); ("shot_diff_10", 0)]);
      ("MLB", stats_of [("ops_10", 0); ("era_10", 0); ("whip_10", 0);
                        ("k_bb_ratio_10", 0); ("batting_avg_10", 0);
                        ("slug_pct_10", 0); ("runs_per_game_10", 0)]);
      ("NCAAB", stats_of [("efg_pct_10", 0); ("tov_pct_10", 0); ("ftr_10", 0);
                          ("oreb_pct_10", 0)]);
      ("NCAAF", stats_of [("yards_per_play_10", 0); ("tov_margin_10", 0);
                          ("third_down_pct_10", 0)]);
      ("NFL", stats_of [("yards_per_play_10", 0); ("tov_margin_10", 0);
                        ("third_down_pct_10", 0)])]%string in
  (* [base.update(d)]: the entries of [d] win *)
  default ∅ (sport_defaults !! sport) ∪ base.

(** The streak loop over [reversed(history)]. *)
Fixpoint streak_loop (gs : list entry) (streak : Z) : Z :=
  match gs with
  | [] => streak
  | g :: gs' =>
      if won g then
        if (0 <=? streak)%Z then streak_loop gs' (streak + 1)%Z else streak
      else
        if (streak <=? 0)%Z then streak_loop gs' (streak - 1)%Z else streak
  end.

(** [round(v, 6)] on the floats of a stats dict. *)
Definition round_float (v : num) : num :=
  match v with Int z => Int z | Float q => Float (round_ndigits q 6) end.

Definition indicator (b : bool) : Q := if b then 1 else 0.

Definition _compute_stats_from_history (history : list entry) (elo : Q)
    (sport : string) (is_home_ : bool) : gmap string num :=
  match history with
  | [] => _default_stats sport
  | _ =>
      let last_10 := last_n 10 history in
      let last_20 := last_n 20 history in
      let wins_10 := map (fun g => indicator (won g)) last_10 in
      let wins_20 := map (fun g => indicator (won g)) last_20 in
      let ppg_10 := map (fun g => inject_Z (score_for g)) last_10 in
      let ppg_20 := map (fun g => inject_Z (score_for g)) last_20 in
      let papg_10 := map (fun g => inject_Z (score_against g)) last_10 in
      let papg_20 := map (fun g => inject_Z (score_against g)) last_20 in
      let margin_10 := map (fun g => inject_Z (margin g)) last_10 in
      let home_games_10 := List.filter (fun g => is_home g) last_10 in
      let away_games_10 := List.filter (fun g => negb (is_home g)) last_10 in
      let home_wins_10 := length (List.filter (fun g => won g) home_games_10) in
      let away_wins_10 := length (List.filter (fun g => won g) away_games_10) in
      let streak := streak_loop (rev history) 0 in
      let stats : gmap string num :=
        list_to_map [
          ("win_pct_10", Float (_ewma wins_10));
          ("win_pct_20", Float (_ewma wins_20));
          ("ppg_10", Float (_ewma ppg_10));
          ("ppg_20", Float (_ewma ppg_20));
          ("papg_10", Float (_ewma papg_10));
          ("papg_20", Float (_ewma papg_20));
          ("margin_avg_10", Float (_ewma margin_10));
          ("home_win_pct_10",
           Float (match home_games_10 with
                  | [] => 1 # 2
                  | _ => inject_Z (Z.of_nat home_wins_10)
                         / inject_Z (Z.of_nat (length home_games_10))
                  end));
          ("away_win_pct_10",
           Float (match away_games_10 with
                  | [] => 1 # 2
                  | _ => inject_Z (Z.of_nat away_wins_10)
                         / inject_Z (Z.of_nat (length away_games_10))
                  end));
          ("streak", Int streak)]%string in
      let sport_stats := _compute_sport_specific last_10 sport in
      (* [stats.update(sport_stats)], then the rounding loop *)
      round_float <$> (sport_stats ∪ stats)
  end.

(** The state of the loop of [compute_all]: the per-team histories, the
    upserts executed so far (in order) and the counter. *)
Record replay := {
  team_history : gmap Z (list entry);
  written : list TeamRollingStats.t;
  records_created : Z
}.

Definition start : replay :=
  {| team_history := ∅; written := []; records_created := 0 |}.

(** A team's history as the loop reads it ([defaultdict(list)]; the empty
    list the read stores for a new team is the same as no entry, since both
    teams of the game are written at the end of the iteration). *)
Definition history_of (th : gmap Z (list entry)) (team_id : Z) : list entry :=
  default [] (th !! team_id).

(** Lines 106-131: the row upserted for one team of [game], from the history
    accumulated so far. *)
Definition snapshot_row (sport : string) (elo_map : gmap (Z * Z) Q) (game : Game.t)
    (history : list entry) (team_id : Z) (is_home_ : bool) : TeamRollingStats.t :=
  let elo_before := default 1500 (elo_map !! (team_id, Game.id game)) in
  let stats := _compute_stats_from_history history elo_before sport is_home_ in
  {| TeamRollingStats.team_id := team_id;
     TeamRollingStats.game_id := Game.id game;
     TeamRollingStats.sport := sport;
     TeamRollingStats.as_of_date := Game.game_date game;
     TeamRollingStats.games_played := Z.of_nat (length history);
     TeamRollingStats.stats := <["elo"%string := Float elo_before]> stats |}.

Definition is_football (sport : string) : bool :=
  String.eqb sport "NFL" || String.eqb sport "NCAAF".

(** One iteration of [for i, game in enumerate(games)]. *)
Definition replay_game (sport : string) (boxscores : gmap (Z * Z) (gmap string Q))
    (elo_map : gmap (Z * Z) Q) (st : replay) (game : Game.t) : replay :=
  match Game.home_score game, Game.away_score game with
  | Some home_score, Some away_score =>
      let home := Game.home_team_id game in
      let away := Game.away_team_id game in
      let th := team_history st in
      let rows :=
        [ snapshot_row sport elo_map game (history_of th home) home true;
          snapshot_row sport elo_map game (history_of th away) away false ] in
      let home_box := default ∅ (boxscores !! (Game.id game, home)) in
      let away_box := default ∅ (boxscores !! (Game.id game, away)) in
      let home_box_with_opp :=
        if is_football sport
        then <["opp_turnovers"%string := get away_box "turnovers" 0]> home_box
        else home_box in
      let away_box_with_opp :=
        if is_football sport
        then <["opp_turnovers"%string := get home_box "turnovers" 0]> away_box
        else away_box in
      let th1 :=
        <[home := history_of th home ++
                  [ {| game_id := Game.id game; game_date := Game.game_date game;
                       is_home := true; score_for := home_score;
                       score_against := away_score;
                       won := (away_score <? home_score)%Z;
                       boxscore := home_box_with_opp;
                       margin := (home_score - away_score)%Z |} ]]> th in
      let th2 :=
        <[away := history_of th1 away ++
                  [ {| game_id := Game.id game; game_date := Game.game_date game;
                       is_home := false; score_for := away_score;
                       score_against := home_score;
                       won := (home_score <? away_score)%Z;
                       boxscore := away_box_with_opp;
                       margin := (away_score - home_score)%Z |} ]]> th1 in
      {| team_history := th2;
         written := written st ++ rows;
         records_created := (records_created st + 2)%Z |}
  | _, _ => st (* [continue] *)
  end.

(** The loop of [compute_all] over the sport's final games in date order. *)
Definition replay_games sport boxscores elo_map (games : list Game.t) : replay :=
  fold_left (replay_game sport boxscores elo_map) games start.

(** [INSERT ... ON CONFLICT (team_id, game_id) DO UPDATE]. *)
Fixpoint upsert (row : TeamRollingStats.t) (table : list TeamRollingStats.t)
    : list TeamRollingStats.t :=
  match table with
  | [] => [row]
  | r :: table' =>
      if (TeamRollingStats.team_id r =? TeamRollingStats.team_id row)%Z
         && (TeamRollingStats.game_id r =? TeamRollingStats.game_id row)%Z
      then
        {| TeamRollingStats.team_id := TeamRollingStats.team_id r;
           TeamRollingStats.game_id := TeamRollingStats.game_id r;
           TeamRollingStats.sport := TeamRollingStats.sport r;
           TeamRollingStats.as_of_date := TeamRollingStats.as_of_date row;
           TeamRollingStats.games_played := TeamRollingStats.games_played row;
           TeamRollingStats.stats := TeamRollingStats.stats row |} :: table'
      else r :: upsert row table'
  end.

(** [compute_all(sport)]: the sport's rows are deleted first, so the table of
    the sport is what the upserts build; the result is [records_created]. *)
Definition compute_all sport boxscores elo_map (games : list Game.t)
    : list TeamRollingStats.t * Z :=
  let st := replay_games sport boxscores elo_map games in
  (fold_left (fun table row => upsert row table) (written st) [], records_created st).

(** *** Vocabulary of the statements about the replay *)

(** The replay order of the query: ascending game date. *)
Definition date_le (a b : Game.t) : Prop := (Game.game_date a <= Game.game_date b)%Z.

(** [e] is the entry that the scored game [g] left in the history of team
    [team_id]: its id, date, venue role, scores, win flag and margin. *)
Definition entry_from (team_id : Z) (g : Game.t) (e : entry) : Prop :=
  game_id e = Game.id g /\
  game_date e = Game.game_date g /\
  exists home_score away_score,
    Game.home_score g = Some home_score /\ Game.away_score g = Some away_score /\
    ((Game.home_team_id g = team_id /\ is_home e = true /\
      score_for e = home_score /\ score_against e = away_score /\
      won e = (away_score <? home_score)%Z /\ margin e = (home_score - away_score)%Z) \/
     (Game.away_team_id g = team_id /\ is_home e = false /\
      score_for e = away_score /\ score_against e = home_score /\
      won e = (home_score <? away_score)%Z /\ margin e = (away_score - home_score)%Z)).

(** The boxscore of team [team_id] in game [g] as the replay files it with
    the game's entry: the team's row of the boxscore table for that game
    (empty when there is none), in football with the opponent's turnovers of
    the same game stored under [opp_turnovers]. *)
Definition game_boxscore (sport : string) (boxscores : gmap (Z * Z) (gmap string Q))
    (g : Game.t) (team_id opponent_id : Z) : gmap string Q :=
  let own := default ∅ (boxscores !! (Game.id g, team_id)) in
  let opponent := default ∅ (boxscores !! (Game.id g, opponent_id)) in
  if is_football sport
  then <["opp_turnovers"%string := get opponent "turnovers" 0]> own
  else own.

(** The boxscore of the entry [e] is the one of game [g], for the side that
    team [team_id] plays in it. *)
Definition boxscore_from (sport : string) (boxscores : gmap (Z * Z) (gmap string Q))
    (team_id : Z) (g : Game.t) (e : entry) : Prop :=
  (Game.home_team_id g = team_id /\ is_home e = true /\
   boxscore e
   = game_boxscore sport boxscores g (Game.home_team_id g) (Game.away_team_id g)) \/
  (Game.away_team_id g = team_id /\ is_home e = false /\
   boxscore e
   = game_boxscore sport boxscores g (Game.away_team_id g) (Game.home_team_id g)).

(** The exponentially weighted moving average in the words of the
    specification: the value [i] places before the most recent one has weight
    [decay^i], and the weighted sum is divided by the sum of the weights. *)
Definition weighted_average (decay : Q) (values : list Q) : Q :=
  let newest_first := rev values in
  sum (imap (fun i v => decay ^ Z.of_nat i * v) newest_first)
  / sum (imap (fun i _ => decay ^ Z.of_nat i) newest_first).

(** The plain fraction of wins among the games of a list. *)
Definition win_fraction (games : list entry) : Q :=
  inject_Z (Z.of_nat (length (List.filter (fun g => won g) games)))
  / inject_Z (Z.of_nat (length games)).

(** The keys of the dict literal of [_compute_stats_from_history]; the
    sport-specific dicts have none of them. *)
Definition universal_keys : list string :=
  ["win_pct_10"; "win_pct_20"; "ppg_10"; "ppg_20"; "papg_10"; "papg_20";
   "margin_avg_10"; "home_win_pct_10"; "away_win_pct_10"; "streak"]%string.

(** The stats dict holds, under [key], the float [x] rounded to six
    decimals. *)
Definition holds_rounded (stats : gmap string num) (key : string) (x : Q) : Prop :=
  exists q, stats !! key = Some (Float q) /\ q == round_ndigits x 6.

(** The turnover margin as the plain difference, missing keys read as 0. *)
Definition tov_margin_plain (b : gmap string Q) : Q :=
  get b "opp_turnovers" 0 - get b "turnovers" 0.

(** The game has both final scores; the team plays in it. *)
Definition scored (g : Game.t) : bool :=
  match Game.home_score g, Game.away_score g with
  | Some _, Some _ => true
  | _, _ => false
  end.

Definition involves (team_id : Z) (g : Game.t) : bool :=
  (Game.home_team_id g =? team_id)%Z || (Game.away_team_id g =? team_id)%Z.

(** The stats dict holds a float between 0 and 1 under [key]. *)
Definition holds_fraction (stats : gmap string num) (key : string) : Prop :=
  exists q, stats !! key = Some (Float q) /\ 0 <= q <= 1.

(** The stats dict holds a float between the integers [lo] and [hi] under
    [key]. *)
Definition holds_between (stats : gmap string num) (key : string) (lo hi : Z) : Prop :=
  exists q, stats !! key = Some (Float q) /\ inject_Z lo <= q <= inject_Z hi.

(** The key of the unique constraint [uq_rolling_team_game], and the row
    stored under a key. *)
Definition row_key (r : TeamRollingStats.t) : Z * Z :=
  (TeamRollingStats.team_id r, TeamRollingStats.game_id r).

Definition row_at (key : Z * Z) (table : list TeamRollingStats.t)
    : option TeamRollingStats.t :=
  List.find (fun r => (TeamRollingStats.team_id r =? fst key)%Z
                      && (TeamRollingStats.game_id r =? snd key)%Z) table.

(** The number of leading elements of a list that satisfy [f]. *)
Fixpoint leading_run {A} (f : A -> bool) (l : list A) : nat :=
  match l with
  | x :: l' => if f x then S (leading_run f l') else O
  | [] => O
  end.

End rolling_stats_computer.

(** ** services/feature_engineer.py *)

Module feature_engineer.
Import py.
Local Open Scope Q_scope.

(** What a call does: it returns a value or raises. *)
Inductive outcome (A : Type) := Returned (a : A) | Raised (e : string).
Arguments Returned {A} a.
Arguments Raised {A} e.

Definition SPORT_FEATURE_REGISTRY : gmap string (list string) :=
  list_to_map [
    ("NBA", ["home_efg_pct_10"; "away_efg_pct_10"; "home_tov_pct_10"; "away_tov_pct_10";
             "home_ftr_10"; "away_ftr_10"; "home_oreb_pct_10"; "away_oreb_pct_10";
             "home_net_rating_10"; "away_net_rating_10"; "home_pace_10"; "away_pace_10"]);
    ("NHL", ["home_save_pct_10"; "away_save_pct_10"; "home_shot_diff_10";
             "away_shot_diff_10"; "home_pp_pct_10"; "away_pp_pct_10"; "home_pk_pct_10";
             "away_pk_pct_10"; "home_goals_per_game_10"; "away_goals_per_game_10"]);
    ("MLB", ["home_ops_10"; "away_ops_10"; "home_era_10"; "away_era_10"; "home_whip_10";
             "away_whip_10"; "home_k_bb_ratio_10"; "away_k_bb_ratio_10";
             "home_runs_per_game_10"; "away_runs_per_game_10"]);
    ("NCAAB", ["home_efg_pct_10"; "away_efg_pct_10"; "home_tov_pct_10"; "away_tov_pct_10";
               "home_ftr_10"; "away_ftr_10"; "home_oreb_pct_10"; "away_oreb_pct_10"]);
    ("NCAAF", ["home_yards_per_play_10"; "away_yards_per_play_10"; "home_tov_margin_10";
               "away_tov_margin_10"; "home_third_down_pct_10"; "away_third_down_pct_10"]);
    ("NFL", ["home_yards_per_play_10"; "away_yards_per_play_10"; "home_tov_margin_10";
             "away_tov_margin_10"; "home_third_down_pct_10"; "away_third_down_pct_10"])
  ]%string.

Definition BASE_FEATURE_NAMES : list string :=
  ["elo_diff"; "home_win_pct_10"; "away_win_pct_10"; "home_ppg_20"; "away_ppg_20";
   "home_papg_20"; "away_papg_20"; "rest_days_home"; "rest_days_away";
   "h2h_home_wins_last5"; "home_streak"; "away_streak"; "home_margin_avg_10";
   "away_margin_avg_10"]%string.

(** The tables the queries read. *)
Record database := {
  games : list Game.t;
  teams : list Team.t;
  team_rolling_stats : list TeamRollingStats.t
}.

Record FeatureEngineer := {
  db : database;
  sport : option string;
  FEATURE_NAMES : list string
}.

(** Truth value of [self.sport]: neither [None] nor the empty string. *)
Definition sport_set (s : option string) : option string :=
  match s with
  | Some EmptyString => None
  | _ => s
  end.

Definition __init__ (db : database) (sport : option string) : FeatureEngineer :=
  {| db := db; sport := sport;
     FEATURE_NAMES :=
       match sport_set sport with
       | Some s => BASE_FEATURE_NAMES ++ default [] (SPORT_FEATURE_REGISTRY !! s)
       | None =>
           ["elo_diff"; "home_win_pct_last10"; "away_win_pct_last10"; "home_ppg";
            "away_ppg"; "home_papg"; "away_papg"; "rest_days_home"; "rest_days_away";
            "h2h_home_wins_last5"]%string
       end |}.

(** [ORDER BY key DESC]: rows with equal keys are left in table order (SQL
    leaves their order open). *)
Definition order_by_desc {A} (key : A -> Z) (rows : list A) : list A :=
  sorted_reverse (fun r => inject_Z (key r)) rows.

Definition _get_rolling_stats (self : FeatureEngineer) (team_id before_date : Z)
    (game_id : option Z) : option TeamRollingStats.t :=
  let direct :=
    match game_id with
    | Some gid =>
        List.find (fun r => (TeamRollingStats.team_id r =? team_id)%Z
                            && (TeamRollingStats.game_id r =? gid)%Z)
                  (team_rolling_stats (db self))
    | None => None
    end in
  match direct with
  | Some row => Some row
  | None =>
      head (order_by_desc TeamRollingStats.as_of_date
              (List.filter (fun r => (TeamRollingStats.team_id r =? team_id)%Z
                                     && (TeamRollingStats.as_of_date r <? before_date)%Z)
                           (team_rolling_stats (db self))))
  end.

(** [(a - b).days] of two datetimes: whole days, rounded down. *)
Definition days_between (a b : Z) : Z := ((a - b) / 86400)%Z.

Definition _calc_rest_days_from_dates (game_date : Z) (last_game_date : option Z) : Q :=
  match last_game_date with
  | None => 3
  | Some d => min (inject_Z (days_between game_date d)) 7
  end.

Definition plays (team_id : Z) (g : Game.t) : bool :=
  (Game.home_team_id g =? team_id)%Z || (Game.away_team_id g =? team_id)%Z.

Definition is_final (g : Game.t) : bool := String.eqb (Game.status g) "Final".

(** The games [_get_team_last_n_games] selects from. *)
Definition prior_games (self : FeatureEngineer) (team_id before_date : Z) : list Game.t :=
  List.filter (fun g => plays team_id g && is_final g
                        && (Game.game_date g <? before_date)%Z)
              (games (db self)).

Definition _get_team_last_n_games (self : FeatureEngineer) (team_id : Z) (n : nat)
    (before_date : Z) : list Game.t :=
  firstn n (order_by_desc Game.game_date (prior_games self team_id before_date)).

Definition _get_h2h_games (self : FeatureEngineer) (team_a_id team_b_id : Z) (n : nat)
    (before_date : Z) : list Game.t :=
  firstn n
    (order_by_desc Game.game_date
       (List.filter
          (fun g =>
             (((Game.home_team_id g =? team_a_id)%Z && (Game.away_team_id g =? team_b_id)%Z)
              || ((Game.home_team_id g =? team_b_id)%Z && (Game.away_team_id g =? team_a_id)%Z))
             && is_final g && (Game.game_date g <? before_date)%Z)
          (games (db self)))).

(** [score or 0]. *)
Definition score_or_0 (s : option Z) : Z := default 0%Z s.

(** The game counts as a win of [team_id]. *)
Definition won_by (team_id : Z) (g : Game.t) : bool :=
  if ((Game.home_team_id g =? team_id)%Z
      && (score_or_0 (Game.away_score g) <? score_or_0 (Game.home_score g))%Z)
  then true
  else (Game.away_team_id g =? team_id)%Z
       && (score_or_0 (Game.home_score g) <? score_or_0 (Game.away_score g))%Z.

Definition h2h_home_wins_last5 (game : Game.t) (h2h_games : list Game.t) : Q :=
  let h2h_home_wins := length (List.filter (won_by (Game.home_team_id game)) h2h_games) in
  match h2h_games with
  | [] => 1 # 2
  | _ => inject_Z (Z.of_nat h2h_home_wins)
         / max (inject_Z (Z.of_nat (length h2h_games))) 1
  end.

(** [d.get(key, default)] on a stats dict, as a number. *)
Definition stat (d : gmap string num) (key : string) (dflt : Q) : Q :=
  match d !! key with Some v => num_value v | None => dflt end.

(** [feat[5:]]. *)
Definition drop5 (feat : string) : string :=
  String.substring 5 (String.length feat - 5) feat.

Definition sport_feature (hs as_ : gmap string num) (features : gmap string Q)
    (feat : string) : gmap string Q :=
  if String.prefix "home_" feat then <[feat := stat hs (drop5 feat) 0]> features
  else if String.prefix "away_" feat then <[feat := stat as_ (drop5 feat) 0]> features
  else features.

Definition _compute_features_from_rolling_stats (self : FeatureEngineer) (game : Game.t)
    : option (gmap string Q) :=
  let home_stats :=
    _get_rolling_stats self (Game.home_team_id game) (Game.game_date game)
      (Some (Game.id game)) in
  let away_stats :=
    _get_rolling_stats self (Game.away_team_id game) (Game.game_date game)
      (Some (Game.id game)) in
  match home_stats, away_stats with
  | Some home_stats, Some away_stats =>
      if ((TeamRollingStats.games_played home_stats <? 3)%Z
          || (TeamRollingStats.games_played away_stats <? 3)%Z)
      then None
      else
        let hs := TeamRollingStats.stats home_stats in
        let as_ := TeamRollingStats.stats away_stats in
        let rest_days_home :=
          _calc_rest_days_from_dates (Game.game_date game)
            (Some (TeamRollingStats.as_of_date home_stats)) in
        let rest_days_away :=
          _calc_rest_days_from_dates (Game.game_date game)
            (Some (TeamRollingStats.as_of_date away_stats)) in
        let h2h_games :=
          _get_h2h_games self (Game.home_team_id game) (Game.away_team_id game) 5
            (Game.game_date game) in
        let features : gmap string Q :=
          list_to_map [
            ("elo_diff", stat hs "elo" 1500 - stat as_ "elo" 1500);
            ("home_win_pct_10", stat hs "win_pct_10" (1 # 2));
            ("away_win_pct_10", stat as_ "win_pct_10" (1 # 2));
            ("home_ppg_20", stat hs "ppg_20" 0);
            ("away_ppg_20", stat as_ "ppg_20" 0);
            ("home_papg_20", stat hs "papg_20" 0);
            ("away_papg_20", stat as_ "papg_20" 0);
            ("rest_days_home", rest_days_home);
            ("rest_days_away", rest_days_away);
            ("h2h_home_wins_last5", h2h_home_wins_last5 game h2h_games);
            ("home_streak", stat hs "streak" 0);
            ("away_streak", stat as_ "streak" 0);
            ("home_margin_avg_10", stat hs "margin_avg_10" 0);
            ("away_margin_avg_10", stat as_ "margin_avg_10" 0)]%string in
        let sport_ := default (Game.sport game) (sport_set (sport self)) in
        Some (fold_left (sport_feature hs as_)
                (default [] (SPORT_FEATURE_REGISTRY !! sport_)) features)
  | _, _ => None
  end.

Definition _calc_win_pct (team_id : Z) (games : list Game.t) : Q :=
  match games with
  | [] => 1 # 2
  | _ => inject_Z (Z.of_nat (length (List.filter (won_by team_id) games)))
         / inject_Z (Z.of_nat (length games))
  end.

Definition _calc_ppg (team_id : Z) (games : list Game.t) (default_ppg : Q) : Q :=
  match games with
  | [] => default_ppg
  | _ =>
      sum (map (fun g => inject_Z (if (Game.home_team_id g =? team_id)%Z
                                   then score_or_0 (Game.home_score g)
                                   else score_or_0 (Game.away_score g))) games)
      / inject_Z (Z.of_nat (length games))
  end.

Definition _calc_papg (team_id : Z) (games : list Game.t) (default_ppg : Q) : Q :=
  match games with
  | [] => default_ppg
  | _ =>
      sum (map (fun g => inject_Z (if (Game.home_team_id g =? team_id)%Z
                                   then score_or_0 (Game.away_score g)
                                   else score_or_0 (Game.home_score g))) games)
      / inject_Z (Z.of_nat (length games))
  end.

Definition _calc_rest_days (game_date : Z) (games : list Game.t) : Q :=
  match games with
  | [] => 3
  | most_recent :: _ =>
      min (inject_Z (days_between game_date (Game.game_date most_recent))) 7
  end.

(** [self.db.get(Team, id)]. *)
Definition get_team (self : FeatureEngineer) (team_id : Z) : option Team.t :=
  List.find (fun t => (Team.id t =? team_id)%Z) (teams (db self)).

Definition _compute_features_legacy (self : FeatureEngineer) (game : Game.t)
    : outcome (option (gmap string Q)) :=
  match get_team self (Game.home_team_id game), get_team self (Game.away_team_id game) with
  | Some home_team, Some away_team =>
      let home_last_10 :=
        _get_team_last_n_games self (Game.home_team_id game) 10 (Game.game_date game) in
      let away_last_10 :=
        _get_team_last_n_games self (Game.away_team_id game) 10 (Game.game_date game) in
      if ((length home_last_10 <? 3)%nat || (length away_last_10 <? 3)%nat) then Returned None
      else
        let home_last_20 :=
          _get_team_last_n_games self (Game.home_team_id game) 20 (Game.game_date game) in
        let away_last_20 :=
          _get_team_last_n_games self (Game.away_team_id game) 20 (Game.game_date game) in
        match sport_config.get_sport_config (Game.sport game) with
        | None => Raised "KeyError"
        | Some config =>
            let default_ppg := sport_config.default_ppg config in
            let elo_diff := Team.current_elo home_team - Team.current_elo away_team in
            let home_win_pct_last10 := _calc_win_pct (Game.home_team_id game) home_last_10 in
            let away_win_pct_last10 := _calc_win_pct (Game.away_team_id game) away_last_10 in
            let home_ppg := _calc_ppg (Game.home_team_id game) home_last_20 default_ppg in
            let away_ppg := _calc_ppg (Game.away_team_id game) away_last_20 default_ppg in
            let home_papg := _calc_papg (Game.home_team_id game) home_last_20 default_ppg in
            let away_papg := _calc_papg (Game.away_team_id game) away_last_20 default_ppg in
            let rest_days_home := _calc_rest_days (Game.game_date game) home_last_10 in
            let rest_days_away := _calc_rest_days (Game.game_date game) away_last_10 in
            let h2h_games :=
              _get_h2h_games self (Game.home_team_id game) (Game.away_team_id game) 5
                (Game.game_date game) in
            let h2h := h2h_home_wins_last5 game h2h_games in
            match sport_set (sport self) with
            | Some sport_ =>
                Returned (Some (
                  (* the base entries, then [**{feat: 0.0 ...}] *)
                  fold_left (fun d feat => <[feat := 0]> d)
                    (default [] (SPORT_FEATURE_REGISTRY !! sport_))
                    (list_to_map [
                       ("elo_diff", elo_diff);
                       ("home_win_pct_10", home_win_pct_last10);
                       ("away_win_pct_10", away_win_pct_last10);
                       ("home_ppg_20", home_ppg);
                       ("away_ppg_20", away_ppg);
                       ("home_papg_20", home_papg);
                       ("away_papg_20", away_papg);
                       ("rest_days_home", rest_days_home);
                       ("rest_days_away", rest_days_away);
                       ("h2h_home_wins_last5", h2h);
                       ("home_streak", 0);
                       ("away_streak", 0);
                       ("home_margin_avg_10", 0);
                       ("away_margin_avg_10", 0)]%string)))
            | None =>
                Returned (Some (
                  list_to_map [
                    ("elo_diff", elo_diff);
                    ("home_win_pct_last10", home_win_pct_last10);
                    ("away_win_pct_last10", away_win_pct_last10);
                    ("home_ppg", home_ppg);
                    ("away_ppg", away_ppg);
                    ("home_papg", home_papg);
                    ("away_papg", away_papg);
                    ("rest_days_home", rest_days_home);
                    ("rest_days_away", rest_days_away);
                    ("h2h_home_wins_last5", h2h)]%string))
            end
        end
  | _, _ => Returned None
  end.

Definition compute_features (self : FeatureEngineer) (game : Game.t)
    : outcome (option (gmap string Q)) :=
  match sport_set (sport self) with
  | Some _ =>
      match _compute_features_from_rolling_stats self game with
      | Some result => Returned (Some result)
      | None => _compute_features_legacy self game
      end
  | None => _compute_features_legacy self game
  end.

(** [to_array(features)]; a missing name is a KeyError ([None]). *)
Definition to_array (self : FeatureEngineer) (features : gmap string Q) : option (list Q) :=
  mapM (fun name => features !! name) (FEATURE_NAMES self).

(** The entry [name] of the dict a call returned, if it returned one. *)
Definition returned_feature (r : outcome (option (gmap string Q))) (name : string)
    : option Q :=
  match r with
  | Returned (Some features) => features !! name
  | _ => None
  end.

End feature_engineer.

(** ** Sample data used by the worked scenarios *)

Module samples.

Definition game (id season date home away : Z) (scores : option (Z * Z)) : Game.t :=
  {| Game.id := id; Game.external_id := ""; Game.sport := "NBA"; Game.season := season;
     Game.game_date := date; Game.status := "Final"; Game.is_postseason := false;
     Game.home_team_id := home; Game.away_team_id := away;
     Game.home_score := fst <$> scores; Game.away_score := snd <$> scores;
     Game.home_period_scores := None; Game.away_period_scores := None |}.

(** The NBA calculator: K_base 20, home advantage 75, regression 0.75. *)
Definition nba : elo_calculator.EloCalculator :=
  {| elo_calculator.K_BASE := 20; elo_calculator.HOME_ADVANTAGE := 75;
     elo_calculator._season_regression := 0.75 |}.

(** Team 1 hosts team 2 and wins 110-100 in season 2023; the next final
    game, in season 2024, has no scores. *)
Definition opener : Game.t := game 1 2023 0 1 2 (Some (110, 100)%Z).
Definition unscored_next_season : Game.t := game 2 2024 86400 1 2 None.

(** Team 1 plays twice on the same date (a doubleheader): first against
    team 2, then against team 3. *)
Definition doubleheader : list Game.t :=
  [ game 1 2023 0 1 2 (Some (110, 100)%Z); game 2 2023 0 1 3 (Some (90, 95)%Z) ].

(** A history of two games: a home win 110-100, then an away loss 90-95. *)
Definition won_then_lost : list rolling_stats_computer.entry :=
  [ {| rolling_stats_computer.game_id := 1; rolling_stats_computer.game_date := 0;
       rolling_stats_computer.is_home := true; rolling_stats_computer.score_for := 110;
       rolling_stats_computer.score_against := 100; rolling_stats_computer.won := true;
       rolling_stats_computer.boxscore := ∅; rolling_stats_computer.margin := 10 |};
    {| rolling_stats_computer.game_id := 2; rolling_stats_computer.game_date := 86400;
       rolling_stats_computer.is_home := false; rolling_stats_computer.score_for := 90;
       rolling_stats_computer.score_against := 95; rolling_stats_computer.won := false;
       rolling_stats_computer.boxscore := ∅; rolling_stats_computer.margin := -5 |} ].

(** A football boxscore with two own turnovers and no opponent turnover. *)
Definition two_giveaways : gmap string Q :=
  <["turnovers"%string := 2%Q]> (<["opp_turnovers"%string := 0%Q]> ∅).

(** Four games between teams 1 and 2, two days apart, all final and scored;
    the database after [compute_all] has run on them. *)
Definition series : list Game.t :=
  [ game 1 2023 0 1 2 (Some (110, 100)%Z);
    game 2 2023 172800 2 1 (Some (95, 99)%Z);
    game 3 2023 345600 1 2 (Some (101, 104)%Z);
    game 4 2023 518400 1 2 (Some (120, 118)%Z) ].

Definition fourth_game : Game.t := game 4 2023 518400 1 2 (Some (120, 118)%Z).

Definition series_db : feature_engineer.database :=
  {| feature_engineer.games := series;
     feature_engineer.teams :=
       [ {| Team.id := 1; Team.sport := "NBA"; Team.current_elo := 1500 |};
         {| Team.id := 2; Team.sport := "NBA"; Team.current_elo := 1500 |} ];
     feature_engineer.team_rolling_stats :=
       fst (rolling_stats_computer.compute_all "NBA" ∅ ∅ series) |}.

End samples.

(** ** services/prediction_engine.py: period allocation *)

Module prediction_engine.
Import py.

(** [floored_tenths[indices_by_remainder[i]] += 1]; either subscript raises
    IndexError out of range ([None]). *)
Definition bump_at (order : list nat) (acc : option (list Z)) (i : nat) : option (list Z) :=
  match acc with
  | None => None
  | Some tenths =>
      match order !! i with
      | None => None
      | Some idx =>
          match tenths !! idx with
          | None => None
          | Some v => Some (<[idx := (v + 1)%Z]> tenths)
          end
      end
  end.

(** [PredictionEngine._distribute_score(total, pcts)]. *)
Definition _distribute_score (total : Q) (pcts : list Q) : option (list Q) :=
  let target := round_ndigits total 1 in
  let target_tenths := round_half_even (target * 10) in
  let raw := map (fun p => total * p)%Q pcts in
  let floored_tenths := map (fun v => Qfloor (round_ndigits (v * 10) 6)) raw in
  let remainders :=
    map (fun v => round_ndigits (v * 10) 6 - inject_Z (Qfloor (round_ndigits (v * 10) 6)))%Q raw in
  let shortfall := (target_tenths - sumZ floored_tenths)%Z in
  let bumped :=
    if (0 <? shortfall)%Z then
      let indices_by_remainder :=
        sorted_reverse (fun i => nth i remainders 0%Q) (seq 0 (length remainders)) in
      fold_left (bump_at indices_by_remainder) (seq 0 (Z.to_nat shortfall)) (Some floored_tenths)
    else Some floored_tenths in
  match bumped with
  | None => None
  | Some tenths => Some (map (fun v => round_ndigits (inject_Z v / 10) 1) tenths)
  end.

(** [round(v / 10, 1)] of an integer number of tenths. *)
Definition period_value (v : Z) : Q := round_ndigits (inject_Z v / 10) 1.


(** Vocabulary of the largest-remainder method, in the terms of the code:
    a period's tenth-value, its floor and its fractional remainder; the
    shortfall; and the order in which periods receive a shortfall tenth
    (larger remainder first, the earlier index among equal remainders). *)
Definition tenth_value (total p : Q) : Q := round_ndigits (total * p * 10) 6.
Definition floor_tenth (total p : Q) : Z := Qfloor (tenth_value total p).
Definition remainder (total p : Q) : Q :=
  (tenth_value total p - inject_Z (floor_tenth total p))%Q.
Definition shortfall (total : Q) (pcts : list Q) : Z :=
  (round_half_even (round_ndigits total 1 * 10) - sumZ (map (floor_tenth total) pcts))%Z.

Definition outranks (key : nat -> Q) (j i : nat) : bool :=
  negb (Qle_bool (key j) (key i)) || (Qeq_bool (key j) (key i) && (j <? i)%nat).

(** Period [j] is served before period [i]. *)
Definition before (key : nat -> Q) (j i : nat) : Prop := outranks key j i = true.

(** The number of periods served before period [i]. *)
Definition rank (key : nat -> Q) (n i : nat) : nat :=
  length (List.filter (fun j => outranks key j i) (seq 0 n)).

(** *** Period shares and period predictions *)

Local Open Scope Q_scope.

(** The running sums of the loop of [_get_period_percentages]. *)
Record tally := {
  period_totals : list Q;
  total_regulation_points : Q;
  valid_count : nat
}.

(** One step of [for i in range(num_periods)]: [period_totals[i] +=
    period_scores[i]; regulation_sum += period_scores[i]].  Both subscripts
    are in range where the loop runs: [period_totals] has [num_periods]
    entries and the guard gives [len(period_scores) >= num_periods]. *)
Definition add_period (period_scores : list Q) (acc : list Q * Q) (i : nat) : list Q * Q :=
  let s := nth i period_scores 0 in
  (<[i := nth i (fst acc) 0 + s]> (fst acc), snd acc + s).

(** One iteration of [for g in games]. *)
Definition tally_game (team_id : Z) (num_periods : nat) (acc : tally) (g : Game.t) : tally :=
  let period_scores :=
    if (Game.home_team_id g =? team_id)%Z
    then Game.home_period_scores g else Game.away_period_scores g in
  match period_scores with
  | Some ((_ :: _) as scores) =>
      if (num_periods <=? length scores)%nat then
        let '(totals, regulation_sum) :=
          fold_left (add_period scores) (seq 0 num_periods) (period_totals acc, 0) in
        {| period_totals := totals;
           total_regulation_points := total_regulation_points acc + regulation_sum;
           valid_count := S (valid_count acc) |}
      else acc
  | _ => acc (* [None] or an empty list *)
  end.

(** [_get_period_percentages(team_id, num_periods, db)] on the games table;
    [None] is the ZeroDivisionError of [1.0 / num_periods]. *)
Definition _get_period_percentages (games : list Game.t) (team_id : Z) (num_periods : nat)
    : option (list Q) :=
  let games :=
    firstn 20
      (feature_engineer.order_by_desc Game.game_date
         (List.filter (fun g => feature_engineer.plays team_id g
                                && feature_engineer.is_final g) games)) in
  let t :=
    fold_left (tally_game team_id num_periods) games
      {| period_totals := repeat 0 num_periods;
         total_regulation_points := 0; valid_count := 0 |} in
  if (0 <? valid_count t)%nat && negb (Qle_bool (total_regulation_points t) 0) then
    Some (map (fun pt => pt / total_regulation_points t) (period_totals t))
  else
    match num_periods with
    | O => None
    | _ => Some (repeat (1 / inject_Z (Z.of_nat num_periods)) num_periods)
    end.

(** What the loop of [_get_period_percentages] reads.  The query: the
    team's 20 most recent final games.  The period scores of the team in a
    game, when the loop uses them: a non-empty list of at least
    [num_periods] scores.  The points of these games in period [i], and in
    the [num_periods] regulation periods together. *)
Definition recent_final_games (games : list Game.t) (team_id : Z) : list Game.t :=
  firstn 20
    (feature_engineer.order_by_desc Game.game_date
       (List.filter (fun g => feature_engineer.plays team_id g
                              && feature_engineer.is_final g) games)).

Definition usable_period_scores (team_id : Z) (num_periods : nat) (g : Game.t)
    : option (list Q) :=
  match (if (Game.home_team_id g =? team_id)%Z
         then Game.home_period_scores g else Game.away_period_scores g) with
  | Some ((_ :: _) as scores) =>
      if (num_periods <=? length scores)%nat then Some scores else None
  | _ => None
  end.

Definition stored_period_scores (games : list Game.t) (team_id : Z) (num_periods : nat)
    : list (list Q) :=
  omap (usable_period_scores team_id num_periods) (recent_final_games games team_id).

Definition period_points (scores : list (list Q)) (i : nat) : Q :=
  sum (map (fun s => nth i s 0) scores).

Definition regulation_points (num_periods : nat) (scores : list (list Q)) : Q :=
  sum (map (fun s => sum (firstn num_periods s)) scores).

(** [_compute_period_predictions(game, home, away, db)]: the pair of the
    "home" and "away" lists; [None] when a step raises (the KeyError of an
    unknown sport, or an error of the two methods it calls). *)
Definition _compute_period_predictions (games : list Game.t) (game : Game.t)
    (predicted_home_score predicted_away_score : Q) : option (list Q * list Q) :=
  match sport_config.get_sport_config (Game.sport game) with
  | None => None
  | Some config =>
      let num_periods := sport_config.num_periods config in
      match _get_period_percentages games (Game.home_team_id game) num_periods,
            _get_period_percentages games (Game.away_team_id game) num_periods with
      | Some home_pcts, Some away_pcts =>
          match _distribute_score predicted_home_score home_pcts,
                _distribute_score predicted_away_score away_pcts with
          | Some home_periods, Some away_periods => Some (home_periods, away_periods)
          | _, _ => None
          end
      | _, _ => None
      end
  end.

(** [_apply_confidence(raw_prob, game)]. *)
Definition _apply_confidence (raw_prob : Q) (game : Game.t) : Q :=
  let confidence := raw_prob * (90 # 100) in
  let confidence :=
    if Game.is_postseason game then confidence * (92 # 100) else confidence in
  round_ndigits confidence 4.

Local Close Scope Q_scope.

(** *** Score derivation in [predict_game] (lines 178-212) *)

Local Open Scope R_scope.

(** [round(x)] on a real: nearest integer, a tie going to the even one. *)
Definition round_real (x : R) : Z :=
  let f := Int_part x in
  if Rlt_dec (x - IZR f) (1 / 2) then f
  else if Rlt_dec (1 / 2) (x - IZR f) then (f + 1)%Z
  else if Z.even f then f else (f + 1)%Z.

(** The trained artifacts are opaque: each maps a feature row to its
    output ([predict_proba] gives the away and the home probability). *)
Record Models := {
  win_predict_proba : list Q -> R * R;
  home_score_predict : list Q -> R;
  away_score_predict : list Q -> R
}.

Record Prediction := {
  predicted_winner_id : Z;
  win_probability : R;
  predicted_home_score : Z;
  predicted_away_score : Z;
  predicted_spread : R;
  predicted_total : R
}.

(** The two integer scores after the favorite adjustment (lines 196-203). *)
Definition final_scores (home_win_prob : R) (home0 away0 : Z) : Z * Z :=
  if Rle_dec (1 / 2) home_win_prob then
    if (home0 <=? away0)%Z then ((away0 + 1)%Z, away0) else (home0, away0)
  else
    if (away0 <=? home0)%Z then (home0, (home0 + 1)%Z) else (home0, away0).

(** [predict_game] from the feature row on: the probability, the scores,
    spread, total and winner of the returned dict (the period split, the
    explanation factors and the confidence are computed by other methods). *)
Definition predict_game (models : Models) (config : sport_config.SportConfig)
    (game : Game.t) (feature_array : list Q) : Prediction :=
  let win_proba := win_predict_proba models feature_array in
  let home_win_prob := snd win_proba in
  let raw_home := home_score_predict models feature_array in
  let raw_away := away_score_predict models feature_array in
  let predicted_total := Rmax raw_home 0 + Rmax raw_away 0 in
  let clamped_prob := Rmax 0.01 (Rmin 0.99 home_win_prob) in
  let logit := ln (clamped_prob / (1 - clamped_prob)) in
  let predicted_spread := Q2R (sport_config.spread_calibration config) * logit in
  let raw_predicted_home := Rmax ((predicted_total + predicted_spread) / 2) 0 in
  let raw_predicted_away := Rmax ((predicted_total - predicted_spread) / 2) 0 in
  let '(home_score, away_score) :=
    final_scores home_win_prob (round_real raw_predicted_home)
      (round_real raw_predicted_away) in
  {| predicted_winner_id :=
       if Rle_dec (1 / 2) home_win_prob
       then Game.home_team_id game else Game.away_team_id game;
     win_probability := home_win_prob;
     predicted_home_score := home_score;
     predicted_away_score := away_score;
     predicted_spread := IZR (home_score - away_score);
     predicted_total := IZR (home_score + away_score) |}.

End prediction_engine.

(* ===================================================================== *)
(** * Part II: properties                                                 *)
(* ===================================================================== *)

Import py.

(** ** Rounding on exact rationals *)

Section rounding.
Local Open Scope Q_scope.

Lemma round_half_even_bounds x :
  x - (1 # 2) <= inject_Z (round_half_even x) <= x + (1 # 2).
Proof.
  unfold round_half_even.
  pose proof (Qfloor_le x) as Hlo. pose proof (Qlt_floor x) as Hhi.
  rewrite inject_Z_plus in Hhi. change (inject_Z 1) with 1 in Hhi.
  destruct (Qcompare_spec (x - inject_Z (Qfloor x)) (1 # 2)) as [He|Hl|Hg].
  - destruct (Z.even (Qfloor x)).
    + lra.
    + rewrite inject_Z_plus. change (inject_Z 1) with 1. lra.
  - lra.
  - rewrite inject_Z_plus. change (inject_Z 1) with 1. lra.
Qed.

Lemma round_half_even_comp x y : x == y -> round_half_even x = round_half_even y.
Proof.
  intros E. unfold round_half_even.
  rewrite (Qfloor_comp _ _ E).
  assert (E' : x - inject_Z (Qfloor y) == y - inject_Z (Qfloor y)) by (rewrite E; reflexivity).
  rewrite (Qcompare_comp _ _ E' (1 # 2) (1 # 2) (Qeq_refl _)). reflexivity.
Qed.

Lemma round_half_even_Z z : round_half_even (inject_Z z) = z.
Proof.
  unfold round_half_even. rewrite Qfloor_Z.
  destruct (Qcompare_spec (inject_Z z - inject_Z z) (1 # 2)) as [He|Hl|Hg].
  - exfalso. lra.
  - reflexivity.
  - exfalso. lra.
Qed.

Lemma round_half_even_ge_floor x : (Qfloor x <= round_half_even x)%Z.
Proof.
  unfold round_half_even.
  destruct (_ ?= _); [destruct (Z.even _)| |]; lia.
Qed.

Lemma pow10_pos n : 0 < inject_Z (10 ^ Z.of_nat n).
Proof.
  change 0 with (inject_Z 0). rewrite <- Zlt_Qlt.
  apply Z.pow_pos_nonneg; lia.
Qed.

Lemma round_ndigits_scaled x n :
  round_ndigits x n * inject_Z (10 ^ Z.of_nat n)
  == inject_Z (round_half_even (x * inject_Z (10 ^ Z.of_nat n))).
Proof.
  unfold round_ndigits. pose proof (pow10_pos n). field. lra.
Qed.

Lemma round_ndigits_bounds x n :
  x - (1 # 2) / inject_Z (10 ^ Z.of_nat n) <= round_ndigits x n
  <= x + (1 # 2) / inject_Z (10 ^ Z.of_nat n).
Proof.
  pose proof (pow10_pos n) as Hp.
  pose proof (round_half_even_bounds (x * inject_Z (10 ^ Z.of_nat n))) as [Hlo Hhi].
  unfold round_ndigits. set (P := inject_Z (10 ^ Z.of_nat n)) in *.
  set (r := inject_Z (round_half_even (x * P))) in *.
  split.
  - apply Qle_shift_div_l; [exact Hp|].
    assert (E : (x - (1 # 2) / P) * P == x * P - (1 # 2)) by (field; lra).
    rewrite E. exact Hlo.
  - apply Qle_shift_div_r; [exact Hp|].
    assert (E : (x + (1 # 2) / P) * P == x * P + (1 # 2)) by (field; lra).
    rewrite E. exact Hhi.
Qed.

Lemma round_ndigits_comp x y n : x == y -> round_ndigits x n == round_ndigits y n.
Proof.
  intros E. unfold round_ndigits.
  rewrite (round_half_even_comp (x * inject_Z (10 ^ Z.of_nat n)) (y * inject_Z (10 ^ Z.of_nat n)));
    [reflexivity|].
  rewrite E. reflexivity.
Qed.

(** Rounding never goes below the integer part. *)
Lemma round_ndigits_ge_floor x n : inject_Z (Qfloor x) <= round_ndigits x n.
Proof.
  pose proof (pow10_pos n) as Hp.
  unfold round_ndigits. set (P := (10 ^ Z.of_nat n)%Z) in *.
  apply Qle_shift_div_l; [exact Hp|].
  rewrite <- inject_Z_mult, <- Zle_Qle.
  etransitivity; [|apply round_half_even_ge_floor].
  rewrite <- (Qfloor_Z (Qfloor x * P)).
  apply Qfloor_resp_le. rewrite inject_Z_mult.
  apply Qmult_le_compat_r; [apply Qfloor_le | lra].
Qed.

Lemma floor_round_ndigits_ge x n : (Qfloor x <= Qfloor (round_ndigits x n))%Z.
Proof.
  rewrite <- (Qfloor_Z (Qfloor x)) at 1.
  apply Qfloor_resp_le, round_ndigits_ge_floor.
Qed.

(** A value with one decimal is not changed by [round(_, 1)]. *)
Lemma round_ndigits_tenths (v : Z) : round_ndigits (inject_Z v / 10) 1 == inject_Z v / 10.
Proof.
  unfold round_ndigits. change (inject_Z (10 ^ Z.of_nat 1)) with 10.
  rewrite (round_half_even_comp _ (inject_Z v)) by (field).
  rewrite round_half_even_Z. reflexivity.
Qed.

Lemma round_one_digit_tenths x :
  round_half_even (round_ndigits x 1 * 10) = round_half_even (x * 10).
Proof.
  rewrite (round_half_even_comp _ (inject_Z (round_half_even (x * 10)))).
  - apply round_half_even_Z.
  - unfold round_ndigits. change (inject_Z (10 ^ Z.of_nat 1)) with 10. field.
Qed.

End rounding.

(** ** The stable descending sort *)

Lemma insert_desc_perm {A} (key : A -> Q) x l : Permutation (insert_desc key x l) (x :: l).
Proof.
  induction l as [|y l IH]; simpl; [reflexivity|].
  destruct (Qle_bool (key y) (key x)); [reflexivity|].
  rewrite IH. apply perm_swap.
Qed.

Lemma sorted_reverse_perm {A} (key : A -> Q) l : Permutation (sorted_reverse key l) l.
Proof.
  induction l as [|x l IH]; simpl; [reflexivity|].
  rewrite insert_desc_perm. now constructor.
Qed.

Section stable_sort.
Variable key : nat -> Q.

Local Abbreviation before := (prediction_engine.before key).

Lemma before_spec j i :
  before j i <-> (key i < key j)%Q \/ (key j == key i /\ (j < i)%nat).
Proof.
  unfold prediction_engine.before, prediction_engine.outranks.
  rewrite orb_true_iff, andb_true_iff, negb_true_iff, Qeq_bool_iff, Nat.ltb_lt.
  rewrite <- not_true_iff_false, Qle_bool_iff.
  split; (intros [H|H]; [left|right; exact H]).
  - apply Qnot_le_lt, H.
  - apply Qlt_not_le, H.
Qed.

Lemma before_irrefl i : ~ before i i.
Proof. rewrite before_spec. intros [H|[_ H]]; [lra|lia]. Qed.

Lemma before_asym j i : before j i -> ~ before i j.
Proof. rewrite !before_spec. intros [H|[E H]] [H'|[E' H']]; try lra; lia. Qed.

Lemma insert_desc_sorted x l :
  StronglySorted before l -> List.Forall (fun y => (x < y)%nat) l ->
  StronglySorted before (insert_desc key x l).
Proof.
  induction 1 as [|y l Hs IH Hy]; intros Hx; simpl.
  - repeat constructor.
  - inversion Hx as [|? ? Hxy Hxl]; subst.
    destruct (Qle_bool (key y) (key x)) eqn:E.
    + apply Qle_bool_iff in E.
      constructor; [constructor; assumption|].
      constructor.
      * apply before_spec. destruct (Qlt_le_dec (key y) (key x)); [left; assumption|right].
        split; [lra|assumption].
      * rewrite List.Forall_forall in *. intros z Hz.
        specialize (Hy z Hz). specialize (Hxl z Hz).
        apply before_spec in Hy. apply before_spec.
        destruct (Qlt_le_dec (key z) (key x)); [left; assumption|right].
        split; [|assumption]. destruct Hy as [Hy|[Hy _]]; lra.
    + assert (Hlt : (key x < key y)%Q).
      { apply Qnot_le_lt. intros H. apply Qle_bool_iff in H. congruence. }
      constructor; [apply IH; assumption|].
      rewrite List.Forall_forall in *. intros z Hz.
      apply (Permutation_in _ (insert_desc_perm key x l)) in Hz.
      destruct Hz as [<-|Hz]; [|apply Hy, Hz].
      apply before_spec. left. exact Hlt.
Qed.

Lemma sorted_reverse_sorted l :
  StronglySorted lt l -> StronglySorted before (sorted_reverse key l).
Proof.
  induction 1 as [|x l Hs IH Hx]; simpl; [constructor|].
  apply insert_desc_sorted; [exact IH|].
  rewrite List.Forall_forall in *. intros y Hy. apply Hx.
  apply (Permutation_in _ (sorted_reverse_perm key l)), Hy.
Qed.

Lemma seq_strongly_sorted a n : StronglySorted lt (seq a n).
Proof.
  revert a. induction n as [|n IH]; intros a; simpl; constructor; [apply IH|].
  rewrite List.Forall_forall. intros y Hy. apply in_seq in Hy. lia.
Qed.

Lemma filter_length_perm (f : nat -> bool) l l' :
  Permutation l l' -> length (List.filter f l) = length (List.filter f l').
Proof.
  induction 1; simpl; try congruence.
  - destruct (f x); simpl; congruence.
  - destruct (f x), (f y); simpl; reflexivity.
Qed.

Lemma filter_all (f : nat -> bool) l :
  List.Forall (fun a => f a = true) l -> List.filter f l = l.
Proof. induction 1 as [|a l Ha _ IH]; simpl; [reflexivity|]. rewrite Ha, IH. reflexivity. Qed.

Lemma filter_none (f : nat -> bool) l :
  List.Forall (fun a => f a = false) l -> List.filter f l = [].
Proof. induction 1 as [|a l Ha _ IH]; simpl; [reflexivity|]. rewrite Ha, IH. reflexivity. Qed.

(** In a sorted list the elements that come before [j] in the order are
    exactly those that stand before it in the list. *)
Lemma sorted_prefix_count l1 j l2 :
  StronglySorted before (l1 ++ j :: l2) ->
  length (List.filter (fun a => prediction_engine.outranks key a j) (l1 ++ j :: l2)) = length l1.
Proof.
  intros Hs. rewrite List.filter_app. simpl.
  assert (H1 : List.Forall (fun a => prediction_engine.outranks key a j = true) l1).
  { induction l1 as [|a l1 IH]; [constructor|].
    simpl in Hs. inversion Hs as [|? ? Hs' Ha]; subst.
    constructor; [|apply IH, Hs'].
    rewrite List.Forall_forall in Ha. apply Ha, in_elt. }
  assert (Hs2 : StronglySorted before (j :: l2)).
  { clear H1. induction l1 as [|a l1 IH]; [exact Hs|].
    simpl in Hs. inversion Hs; subst. apply IH. assumption. }
  inversion Hs2 as [|? ? _ Hj]; subst.
  assert (H2 : List.Forall (fun a => prediction_engine.outranks key a j = false) l2).
  { rewrite List.Forall_forall in *. intros a Ha.
    apply not_true_is_false. intros Hb. exact (before_asym _ _ (Hj a Ha) Hb). }
  rewrite (filter_all _ _ H1), (filter_none _ _ H2).
  destruct (prediction_engine.outranks key j j) eqn:E.
  - exfalso. exact (before_irrefl j E).
  - rewrite length_app. simpl. lia.
Qed.

Lemma sorted_reverse_lookup n j :
  (j < n)%nat ->
  sorted_reverse key (seq 0 n) !! prediction_engine.rank key n j = Some j.
Proof.
  intros Hj.
  pose proof (sorted_reverse_perm key (seq 0 n)) as Hp.
  pose proof (sorted_reverse_sorted _ (seq_strongly_sorted 0 n)) as Hs.
  assert (Hin : In j (sorted_reverse key (seq 0 n))).
  { apply (Permutation_in _ (Permutation_sym Hp)), in_seq. lia. }
  apply in_split in Hin. destruct Hin as (l1 & l2 & E).
  unfold prediction_engine.rank.
  rewrite <- (filter_length_perm _ _ _ Hp).
  rewrite E in *. rewrite (sorted_prefix_count _ _ _ Hs).
  rewrite lookup_app_r by lia. rewrite Nat.sub_diag. reflexivity.
Qed.

Lemma sorted_reverse_lookup_inv n i j :
  sorted_reverse key (seq 0 n) !! i = Some j -> i = prediction_engine.rank key n j.
Proof.
  intros Hi.
  pose proof (sorted_reverse_perm key (seq 0 n)) as Hp.
  assert (Hj : (j < n)%nat).
  { apply list_elem_of_lookup_2, list_elem_of_In in Hi.
    apply (Permutation_in _ Hp), in_seq in Hi. lia. }
  assert (Hnd : NoDup (sorted_reverse key (seq 0 n))).
  { rewrite Hp. apply NoDup_ListNoDup, List.seq_NoDup. }
  exact (NoDup_lookup _ _ _ _ Hnd Hi (sorted_reverse_lookup n j Hj)).
Qed.

End stable_sort.

(** ** Distributing the shortfall *)

Lemma sumZ_insert (t : list Z) idx v w :
  t !! idx = Some v -> sumZ (<[idx := w]> t) = (sumZ t - v + w)%Z.
Proof.
  revert idx. induction t as [|a t IH]; intros [|idx] H; simpl in *; try discriminate.
  - injection H as ->. lia.
  - rewrite (IH _ H). lia.
Qed.

Lemma bump_fold order (idxs : list nat) (t : list Z) :
  (forall i, In i idxs -> exists idx, order !! i = Some idx /\ (idx < length t)%nat) ->
  exists t',
    fold_left (prediction_engine.bump_at order) idxs (Some t) = Some t' /\
    length t' = length t /\
    sumZ t' = (sumZ t + Z.of_nat (length idxs))%Z /\
    forall j v, t !! j = Some v ->
      t' !! j = Some (v + Z.of_nat (length
                   (List.filter (fun i => bool_decide (order !! i = Some j)) idxs)))%Z.
Proof.
  revert t. induction idxs as [|i idxs IH]; intros t Hok.
  - exists t. simpl. repeat split; try lia.
    intros j v Hj. rewrite Hj. f_equal. lia.
  - destruct (Hok i (or_introl eq_refl)) as (idx & Hidx & Hlt).
    destruct (lookup_lt_is_Some_2 t idx Hlt) as [v Hv].
    simpl. rewrite Hidx, Hv.
    destruct (IH (<[idx := (v + 1)%Z]> t)) as (t' & Hf & Hlen & Hsum & Hval).
    { intros i' Hi'. destruct (Hok i' (or_intror Hi')) as (idx' & ? & ?).
      exists idx'. rewrite length_insert. auto. }
    exists t'. rewrite Hf, Hlen, length_insert, Hsum, (sumZ_insert _ _ _ _ Hv).
    repeat split; try lia.
    intros j w Hj.
    destruct (decide (idx = j)) as [->|Hne].
    + rewrite bool_decide_eq_true_2 by reflexivity.
      rewrite (Hval j (v + 1)%Z).
      * rewrite Hv in Hj. injection Hj as ->. simpl length. f_equal. lia.
      * apply list_lookup_insert_eq. exact Hlt.
    + rewrite bool_decide_eq_false_2 by congruence.
      apply Hval. rewrite list_lookup_insert_ne by exact Hne. exact Hj.
Qed.

Lemma filter_seq_single (P : nat -> Prop) `{forall i, Decision (P i)} r k :
  (forall i, (i < k)%nat -> P i <-> i = r) ->
  length (List.filter (fun i => bool_decide (P i)) (seq 0 k)) = if (r <? k)%nat then 1%nat else 0%nat.
Proof.
  induction k as [|k IH]; intros HP; [reflexivity|].
  rewrite seq_S, List.filter_app, length_app, IH by (intros; apply HP; lia).
  simpl. destruct (decide (k = r)) as [->|Hne].
  - rewrite bool_decide_eq_true_2 by (apply HP; lia).
    rewrite Nat.ltb_irrefl. rewrite (proj2 (Nat.ltb_lt r (S r))) by lia. reflexivity.
  - rewrite bool_decide_eq_false_2 by (rewrite HP by lia; exact Hne).
    simpl. destruct (Nat.ltb_spec r k), (Nat.ltb_spec r (S k)); lia.
Qed.

(** ** Bounds on the floored tenths *)

Section tenths.
Local Open Scope Q_scope.

Lemma floor_tenth_bounds total p :
  total * p * 10 - 1 <= inject_Z (prediction_engine.floor_tenth total p)
  <= total * p * 10 + (1 # 2000000).
Proof.
  unfold prediction_engine.floor_tenth, prediction_engine.tenth_value.
  set (v := total * p * 10).
  pose proof (round_ndigits_bounds v 6) as [_ Hhi].
  change (inject_Z (10 ^ Z.of_nat 6)) with 1000000 in Hhi.
  pose proof (Qfloor_le (round_ndigits v 6)).
  pose proof (floor_round_ndigits_ge v 6) as Hge. rewrite Zle_Qle in Hge.
  pose proof (Qlt_floor v) as Hv. rewrite inject_Z_plus in Hv. change (inject_Z 1) with 1 in Hv.
  assert (E : (1 # 2) / 1000000 == 1 # 2000000) by reflexivity.
  rewrite E in Hhi. clearbody v. split; lra.
Qed.

Lemma sum_floor_tenth_bounds total pcts :
  total * 10 * sum pcts - inject_Z (Z.of_nat (length pcts))
  <= inject_Z (sumZ (map (prediction_engine.floor_tenth total) pcts))
  <= total * 10 * sum pcts + inject_Z (Z.of_nat (length pcts)) * (1 # 2000000).
Proof.
  induction pcts as [|p pcts IH]; cbn [length sum sumZ fold_right map].
  - change (inject_Z (Z.of_nat 0)) with 0. change (inject_Z 0) with 0. lra.
  - fold (sum pcts). fold (sumZ (map (prediction_engine.floor_tenth total) pcts)).
    rewrite Nat2Z.inj_succ. unfold Z.succ. rewrite !inject_Z_plus.
    change (inject_Z 1) with 1.
    pose proof (floor_tenth_bounds total p). lra.
Qed.

Lemma shortfall_bounds total pcts :
  sum pcts == 1 -> (Z.of_nat (length pcts) < 1000000)%Z ->
  (0 <= prediction_engine.shortfall total pcts <= Z.of_nat (length pcts))%Z.
Proof.
  intros Hsum Hlen. unfold prediction_engine.shortfall.
  rewrite round_one_digit_tenths.
  pose proof (round_half_even_bounds (total * 10)) as [Hlo Hhi].
  pose proof (sum_floor_tenth_bounds total pcts) as [Flo Fhi].
  assert (Hn : inject_Z (Z.of_nat (length pcts)) < 1000000).
  { change 1000000 with (inject_Z 1000000). rewrite <- Zlt_Qlt. lia. }
  assert (Hn0 : 0 <= inject_Z (Z.of_nat (length pcts))).
  { change 0 with (inject_Z 0). rewrite <- Zle_Qle. lia. }
  set (F := sumZ (map (prediction_engine.floor_tenth total) pcts)) in *.
  set (R := round_half_even (total * 10)) in *.
  set (n := Z.of_nat (length pcts)) in *.
  assert (E : total * 10 * sum pcts == total * 10) by (rewrite Hsum; ring).
  rewrite E in Flo, Fhi. clear E.
  split.
  - assert (inject_Z F < inject_Z (R + 1)) by (rewrite inject_Z_plus; change (inject_Z 1) with 1; lra).
    rewrite <- Zlt_Qlt in *. lia.
  - assert (inject_Z R < inject_Z (F + n + 1)).
    { rewrite !inject_Z_plus. change (inject_Z 1) with 1. lra. }
    rewrite <- Zlt_Qlt in *. lia.
Qed.

Lemma sum_tenths (t : list Z) :
  sum (map (fun v => round_ndigits (inject_Z v / 10) 1) t) == inject_Z (sumZ t) / 10.
Proof.
  induction t as [|v t IH]; simpl.
  - reflexivity.
  - rewrite IH, round_ndigits_tenths, inject_Z_plus. field.
Qed.

End tenths.

(** ** C1: largest-remainder allocation and the floats returned *)

Lemma round_one_digit_as_tenths total :
  (round_ndigits total 1 == inject_Z (round_half_even (round_ndigits total 1 * 10)) / 10)%Q.
Proof.
  rewrite round_one_digit_tenths. unfold round_ndigits.
  change (inject_Z (10 ^ Z.of_nat 1)) with 10%Q. reflexivity.
Qed.

(** The allocation in integer tenths.  For fewer than 1,000,000 shares
    that sum to 1 the call returns [round(v / 10, 1)] of integer tenths [v],
    one per share, that sum exactly to the target tenths; share [i] gets its
    floored tenth-value, plus one tenth exactly when fewer than [shortfall]
    shares precede it in the order "larger fractional remainder first,
    earlier index first among equal remainders". *)
Lemma distribute_score_tenths (total : Q) (pcts : list Q) :
  (sum pcts == 1)%Q ->
  (Z.of_nat (length pcts) < 1000000)%Z ->
  exists tenths,
    prediction_engine._distribute_score total pcts
    = Some (map prediction_engine.period_value tenths) /\
    length tenths = length pcts /\
    sumZ tenths = round_half_even (round_ndigits total 1 * 10) /\
    forall i p, pcts !! i = Some p ->
      tenths !! i
      = Some (prediction_engine.floor_tenth total p +
              (if (Z.of_nat
                     (prediction_engine.rank
                        (fun j => nth j (map (prediction_engine.remainder total) pcts) 0%Q)
                        (length pcts) i)
                   <? prediction_engine.shortfall total pcts)%Z
               then 1 else 0))%Z.
Proof.
  intros Hsum Hlen.
  pose proof (shortfall_bounds total pcts Hsum Hlen) as Hs.
  unfold prediction_engine._distribute_score.
  rewrite !map_map.
  change (map (fun x => Qfloor (round_ndigits (total * x * 10) 6)) pcts)
    with (map (prediction_engine.floor_tenth total) pcts).
  change (map (fun x => (round_ndigits (total * x * 10) 6
                         - inject_Z (Qfloor (round_ndigits (total * x * 10) 6)))%Q) pcts)
    with (map (prediction_engine.remainder total) pcts).
  change (round_half_even (round_ndigits total 1 * 10)
          - sumZ (map (prediction_engine.floor_tenth total) pcts))%Z
    with (prediction_engine.shortfall total pcts).
  set (s := prediction_engine.shortfall total pcts) in *.
  set (fl := map (prediction_engine.floor_tenth total) pcts).
  set (rs := map (prediction_engine.remainder total) pcts).
  set (key := fun i => nth i rs 0%Q).
  assert (Hrs : length rs = length pcts) by apply length_map.
  assert (Hfl : length fl = length pcts) by apply length_map.
  assert (HF : sumZ fl = (round_half_even (round_ndigits total 1 * 10) - s)%Z).
  { unfold s, prediction_engine.shortfall. fold fl. lia. }
  rewrite Hrs.
  destruct (Z.ltb_spec 0 s) as [Hpos|Hzero].
  - set (order := sorted_reverse key (seq 0 (length pcts))).
    assert (Hperm : Permutation order (seq 0 (length pcts))) by apply sorted_reverse_perm.
    destruct (bump_fold order (seq 0 (Z.to_nat s)) fl) as (t' & Hfold & Hlen' & Hsum' & Hval).
    { intros i Hi. apply in_seq in Hi.
      assert (Hi' : (i < length order)%nat).
      { rewrite (Permutation_length Hperm), length_seq. lia. }
      destruct (lookup_lt_is_Some_2 order i Hi') as [idx Hidx].
      exists idx. split; [exact Hidx|].
      apply list_elem_of_lookup_2, list_elem_of_In in Hidx.
      apply (Permutation_in _ Hperm), in_seq in Hidx. lia. }
    rewrite Hfold. exists t'. split; [reflexivity|].
    split; [lia|]. split.
    + rewrite Hsum', HF, length_seq, Z2Nat.id by lia. lia.
    + intros i p Hp.
      assert (Hi : (i < length pcts)%nat) by (eapply lookup_lt_Some; exact Hp).
      assert (Hfli : fl !! i = Some (prediction_engine.floor_tenth total p)).
      { unfold fl. rewrite list_lookup_fmap, Hp. reflexivity. }
      specialize (Hval _ _ Hfli).
      rewrite (filter_seq_single _ (prediction_engine.rank key (length pcts) i)) in Hval.
      * rewrite Hval. f_equal. f_equal.
        destruct (Nat.ltb_spec (prediction_engine.rank key (length pcts) i) (Z.to_nat s)),
          (Z.ltb_spec (Z.of_nat (prediction_engine.rank key (length pcts) i)) s); lia.
      * intros i' _. split.
        -- apply sorted_reverse_lookup_inv.
        -- intros ->. apply sorted_reverse_lookup, Hi.
  - assert (Hs0 : s = 0%Z) by lia.
    exists fl. split; [reflexivity|].
    split; [exact Hfl|]. split; [lia|].
    intros i p Hp. unfold fl. rewrite list_lookup_fmap, Hp.
    cbn [fmap option_fmap option_map]. f_equal.
    destruct (Z.ltb_spec (Z.of_nat (prediction_engine.rank key (length pcts) i)) s); lia.
Qed.


(** Scenario B, evaluated: 100 over [0.30, 0.30, 0.20, 0.20] and 99 over
    four equal shares (the two shortfall tenths go to the two earlier
    periods). *)
Example scenario_B_periods :
  (exists home,
     prediction_engine._distribute_score 100 [3#10; 3#10; 2#10; 2#10]%Q = Some home /\
     Forall2 Qeq home [30; 30; 20; 20]%Q /\ (sum home == 100)%Q) /\
  (exists away,
     prediction_engine._distribute_score 99 [1#4; 1#4; 1#4; 1#4]%Q = Some away /\
     Forall2 Qeq away [248#10; 248#10; 247#10; 247#10]%Q /\ (sum away == 99)%Q).
Proof.
  split; eexists; (split; [vm_compute; reflexivity|]); split;
    try (repeat constructor; reflexivity); reflexivity.
Qed.

(** ** Sums of constant lists *)

Lemma sumZ_repeat z n : sumZ (repeat z n) = (Z.of_nat n * z)%Z.
Proof. induction n as [|n IH]; [reflexivity|]. cbn [repeat sumZ fold_right]. fold (sumZ (repeat z n)). lia. Qed.

Lemma sum_repeat q n : (sum (repeat q n) == inject_Z (Z.of_nat n) * q)%Q.
Proof.
  induction n as [|n IH]; [reflexivity|].
  cbn [repeat sum fold_right]. fold (sum (repeat q n)).
  rewrite IH, Nat2Z.inj_succ. unfold Z.succ. rewrite inject_Z_plus. ring.
Qed.


(** ** Elo ratings *)

Section elo.
Import elo_calculator.
Local Open Scope R_scope.

Lemma Rpower_root_lower a x (m n : nat) :
  0 < a -> 0 < x -> (0 < n)%nat -> a ^ n < x ^ m -> a < Rpower x (INR m / INR n).
Proof.
  intros Ha Hx Hn Hlt. apply Rnot_le_lt. intros Hle.
  assert (Hy : 0 < Rpower x (INR m / INR n)) by apply exp_pos.
  pose proof (pow_incr _ _ n (conj (Rlt_le _ _ Hy) Hle)) as Hp.
  rewrite <- (Rpower_pow n _ Hy), Rpower_mult in Hp.
  replace (INR m / INR n * INR n) with (INR m) in Hp
    by (field; apply not_0_INR; lia).
  rewrite (Rpower_pow m x Hx) in Hp. lra.
Qed.

Lemma Rpower_root_upper b x (m n : nat) :
  0 < b -> 0 < x -> (0 < n)%nat -> x ^ m < b ^ n -> Rpower x (INR m / INR n) < b.
Proof.
  intros Hb Hx Hn Hlt. apply Rnot_le_lt. intros Hle.
  assert (Hy : 0 < Rpower x (INR m / INR n)) by apply exp_pos.
  pose proof (pow_incr _ _ n (conj (Rlt_le _ _ Hb) Hle)) as Hp.
  rewrite <- (Rpower_pow n _ Hy), Rpower_mult in Hp.
  replace (INR m / INR n * INR n) with (INR m) in Hp
    by (field; apply not_0_INR; lia).
  rewrite (Rpower_pow m x Hx) in Hp. lra.
Qed.

(** 10^(75/400) lies between 1.539 and 1.541. *)
Lemma ten_pow_home_advantage : 1.539 < Rpower 10 (75 / 400) < 1.541.
Proof.
  replace (75 / 400) with (INR 3 / INR 16) by (simpl; lra).
  split; [apply Rpower_root_lower | apply Rpower_root_upper]; try lra; lia.
Qed.

(** 13^0.8 lies between 7.78 and 7.79. *)
Lemma thirteen_pow_08 : 7.78 < Rpower 13 0.8 < 7.79.
Proof.
  replace 0.8 with (INR 4 / INR 5) by (simpl; lra).
  split; [apply Rpower_root_lower | apply Rpower_root_upper]; try lra; lia.
Qed.

Lemma expected_complement a b : calculate_expected a b + calculate_expected b a = 1.
Proof.
  unfold calculate_expected.
  replace ((a - b) / 400) with (- ((b - a) / 400)) by lra.
  rewrite Rpower_Ropp.
  pose proof (exp_pos ((b - a) / 400 * ln 10)) as Hp. fold (Rpower 10 ((b - a) / 400)) in Hp.
  field. split; lra.
Qed.

Lemma expected_range a b : 0 < calculate_expected a b < 1.
Proof.
  unfold calculate_expected.
  pose proof (exp_pos ((b - a) / 400 * ln 10)) as Hp. fold (Rpower 10 ((b - a) / 400)) in Hp.
  split.
  - apply Rdiv_lt_0_compat; lra.
  - apply (Rmult_lt_reg_r (1 + Rpower 10 ((b - a) / 400))); [lra|].
    unfold Rdiv. rewrite Rmult_assoc, Rinv_l by lra. lra.
Qed.

Lemma k_factor_pos self mov elo_diff : 0 < K_BASE self -> 0 < k_factor self mov elo_diff.
Proof.
  intros HK. unfold k_factor.
  pose proof (exp_pos (0.8 * ln (IZR (Z.abs mov + 3)))) as Hp.
  fold (Rpower (IZR (Z.abs mov + 3)) 0.8) in Hp.
  pose proof (Rabs_pos elo_diff).
  apply Rdiv_lt_0_compat; [apply Rmult_lt_0_compat; assumption | lra].
Qed.

(** The two sides of an update move by the same amount in opposite
    directions; the home side gains exactly when it won. *)
Lemma update_elo_zero_sum self h a hs as_ :
  fst (update_elo self h a hs as_) - h = a - snd (update_elo self h a hs as_).
Proof.
  unfold update_elo. cbn [fst snd].
  pose proof (expected_complement (h + HOME_ADVANTAGE self) a) as E.
  set (k := k_factor self _ _). set (w := if (as_ <? hs)%Z then 1 else 0).
  replace (calculate_expected a (h + HOME_ADVANTAGE self))
    with (1 - calculate_expected (h + HOME_ADVANTAGE self) a) by lra.
  ring.
Qed.

Lemma update_elo_home_win self h a hs as_ :
  0 < K_BASE self -> (as_ < hs)%Z ->
  h < fst (update_elo self h a hs as_) /\ snd (update_elo self h a hs as_) < a.
Proof.
  intros HK Hw.
  pose proof (update_elo_zero_sum self h a hs as_) as Hz.
  assert (h < fst (update_elo self h a hs as_)); [|lra].
  unfold update_elo. cbn [fst].
  rewrite (proj2 (Z.ltb_lt as_ hs) Hw).
  pose proof (k_factor_pos self (hs - as_) (h - a) HK).
  pose proof (expected_range (h + HOME_ADVANTAGE self) a).
  assert (0 < k_factor self (hs - as_) (h - a) * (1 - calculate_expected (h + HOME_ADVANTAGE self) a))
    by (apply Rmult_lt_0_compat; lra).
  lra.
Qed.

End elo.

(** ** C2: Scenario A *)

Section scenario_A.
Import elo_calculator.
Local Open Scope R_scope.

Lemma scenario_A_expected :
  calculate_expected (1500 + 75) 1500 = 1 / (1 + / Rpower 10 (75 / 400)) /\
  0.606 < calculate_expected (1500 + 75) 1500 < 0.607.
Proof.
  unfold calculate_expected.
  replace ((1500 - (1500 + 75)) / 400) with (- (75 / 400)) by lra.
  rewrite Rpower_Ropp. split; [reflexivity|].
  destruct ten_pow_home_advantage as [Hlo Hhi].
  set (x := Rpower 10 (75 / 400)) in *.
  replace (1 / (1 + / x)) with (x / (x + 1)) by (field; lra).
  split.
  - apply (Rmult_lt_reg_r (x + 1)); [lra|].
    unfold Rdiv. rewrite Rmult_assoc, Rinv_l by lra. lra.
  - apply (Rmult_lt_reg_r (x + 1)); [lra|].
    unfold Rdiv. rewrite Rmult_assoc, Rinv_l by lra. lra.
Qed.

Lemma scenario_A_k_factor reg :
  k_factor {| K_BASE := 20; HOME_ADVANTAGE := 75; _season_regression := reg |}
    (110 - 100) (1500 - 1500) = 20 * Rpower 13 0.8 / 7.5 /\
  20.7 < k_factor {| K_BASE := 20; HOME_ADVANTAGE := 75; _season_regression := reg |}
    (110 - 100) (1500 - 1500) < 20.8.
Proof.
  unfold k_factor. cbn [K_BASE].
  replace (1500 - 1500) with 0 by lra. rewrite Rabs_R0.
  change (IZR (Z.abs (110 - 100) + 3)) with 13.
  replace (7.5 + 0.006 * 0) with 7.5 by lra.
  split; [reflexivity|].
  destruct thirteen_pow_08 as [Hlo Hhi]. lra.
Qed.

(** C2 (as amended).  Both teams at 1500, home advantage 75, K_base 20, home
    win 110-100: the expected home win probability is 1/(1+10^(-75/400)),
    between 0.606 and 0.607; the K-factor is 20*13^0.8/7.5, between 20.7 and
    20.8 (the rating difference that enters K is 1500-1500 = 0; the home
    advantage is no part of it); the home rating rises above 1500, the away
    rating falls below 1500, both by the same amount, so the two new ratings
    sum to exactly 3000. *)
Theorem scenario_A_update reg :
  let self := {| K_BASE := 20; HOME_ADVANTAGE := 75; _season_regression := reg |} in
  let expected_home := calculate_expected (1500 + HOME_ADVANTAGE self) 1500 in
  let k := k_factor self (110 - 100) (1500 - 1500) in
  let new_home := fst (update_elo self 1500 1500 110 100) in
  let new_away := snd (update_elo self 1500 1500 110 100) in
  (expected_home = 1 / (1 + / Rpower 10 (75 / 400)) /\ 0.606 < expected_home < 0.607) /\
  (k = 20 * Rpower 13 0.8 / 7.5 /\ 20.7 < k < 20.8) /\
  new_home = 1500 + k * (1 - expected_home) /\
  new_away = 1500 - k * (1 - expected_home) /\
  1500 < new_home /\ new_away < 1500 /\
  new_home - 1500 = 1500 - new_away /\
  new_home + new_away = 3000.
Proof.
  intros self expected_home k new_home new_away.
  pose proof scenario_A_expected as He.
  pose proof (scenario_A_k_factor reg) as Hk.
  pose proof (update_elo_zero_sum self 1500 1500 110 100) as Hz.
  assert (HK : 0 < K_BASE self) by (cbn; lra).
  pose proof (update_elo_home_win self 1500 1500 110 100 HK eq_refl) as [Hh Ha].
  pose proof (expected_complement (1500 + HOME_ADVANTAGE self) 1500) as Hc.
  fold new_home new_away in Hz, Hh, Ha.
  assert (Hnh : new_home = 1500 + k * (1 - expected_home)) by reflexivity.
  split; [exact He|]. split; [exact Hk|]. split; [exact Hnh|].
  repeat split; lra.
Qed.

(** Counterexample to C2 as stated: on the scenario's inputs the expected
    home win probability exceeds 0.6 (the claim has 0.511), and the K-factor
    is below 21 (the claim has 41.4) and differs from
    20*13^0.8/(7.5+0.006*75). *)
Lemma scenario_A_numbers_differ :
  0.6 < calculate_expected (1500 + HOME_ADVANTAGE samples.nba) 1500 /\
  k_factor samples.nba (110 - 100) (1500 - 1500) < 21 /\
  k_factor samples.nba (110 - 100) (1500 - 1500) <> 20 * Rpower 13 0.8 / (7.5 + 0.006 * 75) /\
  ~ (Rabs (calculate_expected (1500 + HOME_ADVANTAGE samples.nba) 1500 - 0.511) <= 0.05 /\
     Rabs (k_factor samples.nba (110 - 100) (1500 - 1500) - 41.4) <= 1).
Proof.
  pose proof scenario_A_expected as [_ He].
  pose proof (scenario_A_k_factor 0.75) as [Hk1 Hk].
  change (calculate_expected (1500 + HOME_ADVANTAGE samples.nba) 1500)
    with (calculate_expected (1500 + 75) 1500).
  change (k_factor samples.nba (110 - 100) (1500 - 1500))
    with (k_factor {| K_BASE := 20; HOME_ADVANTAGE := 75; _season_regression := 0.75 |}
            (110 - 100) (1500 - 1500)).
  destruct thirteen_pow_08 as [Hlo Hhi].
  split; [lra|]. split; [lra|]. split.
  - rewrite Hk1. intros E.
    assert (20 * Rpower 13 0.8 / (7.5 + 0.006 * 75) < 20 * Rpower 13 0.8 / 7.5); [|lra].
    unfold Rdiv. apply Rmult_lt_compat_l; [lra|].
    apply Rinv_lt_contravar; lra.
  - intros [H1 _]. unfold Rabs in H1. destruct (Rcase_abs _) in H1; lra.
Qed.

End scenario_A.

(** ** The rating replay *)

Section replay.
Import elo_calculator.
Local Open Scope R_scope.
Variable self : EloCalculator.

Lemma season_reset_initial : season_reset self INITIAL_ELO = INITIAL_ELO.
Proof. unfold season_reset. ring. Qed.

Lemma rating_season_reset (m : gmap Z R) tid :
  rating (season_reset self <$> m) tid = season_reset self (rating m tid).
Proof.
  unfold rating. rewrite lookup_fmap.
  destruct (m !! tid); cbn; [reflexivity|]. symmetry. apply season_reset_initial.
Qed.

Lemma elos_getitem_rating (m : gmap Z R) tid :
  fst (elos_getitem m tid) = rating m tid /\
  forall t, rating (snd (elos_getitem m tid)) t = rating m t.
Proof.
  unfold elos_getitem, rating.
  destruct (m !! tid) eqn:E; cbn [fst snd]; split; try reflexivity.
  intros t. destruct (decide (tid = t)) as [<-|Hne].
  - rewrite lookup_insert_eq, E. reflexivity.
  - rewrite lookup_insert_ne by exact Hne. reflexivity.
Qed.

Lemma current_season_replay_game st game :
  current_season (replay_game self st game) = Some (Game.season game).
Proof.
  unfold replay_game, play_game.
  destruct (elos_getitem _ _) as [h e2]. destruct (elos_getitem e2 _) as [a e3].
  destruct (Game.home_score game), (Game.away_score game); reflexivity.
Qed.



Lemma season_boundary_same_season st game :
  current_season st = None \/ current_season st = Some (Game.season game) ->
  season_boundary self st game = elos st.
Proof.
  unfold season_boundary. intros [->| ->]; [reflexivity|].
  destruct (decide _); [reflexivity|contradiction].
Qed.

Lemma elo_replay_game_unscored st game :
  Game.home_score game = None \/ Game.away_score game = None ->
  history_records (replay_game self st game) = history_records st /\
  current_season (replay_game self st game) = Some (Game.season game) /\
  forall tid,
    rating (elos (replay_game self st game)) tid = rating (season_boundary self st game) tid.
Proof.
  intros Hnull. unfold replay_game, play_game.
  pose proof (elos_getitem_rating (season_boundary self st game) (Game.home_team_id game)) as [_ H1].
  destruct (elos_getitem (season_boundary self st game) _) as [h e2]. cbn [snd] in H1.
  pose proof (elos_getitem_rating e2 (Game.away_team_id game)) as [_ H2].
  destruct (elos_getitem e2 _) as [a e3]. cbn [snd] in H2.
  assert (Hr : forall tid, rating e3 tid = rating (season_boundary self st game) tid).
  { intros tid. rewrite H2. apply H1. }
  destruct (Game.home_score game), (Game.away_score game);
    try (split; [reflexivity | split; [reflexivity | exact Hr]]).
  destruct Hnull; discriminate.
Qed.

End replay.


(** ** C4: scores, spread and total of [predict_game] *)

Section predict.
Import prediction_engine.
Local Open Scope R_scope.

Lemma final_scores_favorite p home0 away0 :
  (1 / 2 <= p ->
     ((home0 <= away0)%Z -> final_scores p home0 away0 = ((away0 + 1)%Z, away0)) /\
     ((away0 < home0)%Z -> final_scores p home0 away0 = (home0, away0)) /\
     (snd (final_scores p home0 away0) < fst (final_scores p home0 away0))%Z) /\
  (p < 1 / 2 ->
     ((away0 <= home0)%Z -> final_scores p home0 away0 = (home0, (home0 + 1)%Z)) /\
     ((home0 < away0)%Z -> final_scores p home0 away0 = (home0, away0)) /\
     (fst (final_scores p home0 away0) < snd (final_scores p home0 away0))%Z).
Proof.
  unfold final_scores. split; intros Hp.
  - destruct (Rle_dec (1 / 2) p); [|contradiction].
    destruct (Z.leb_spec home0 away0); cbn [fst snd]; repeat split; intros; try lia; reflexivity.
  - destruct (Rle_dec (1 / 2) p); [lra|].
    destruct (Z.leb_spec away0 home0); cbn [fst snd]; repeat split; intros; try lia; reflexivity.
Qed.

(** [round_real] is a rounding to the nearest integer. *)
Lemma round_real_nearest x : x - 1 / 2 <= IZR (round_real x) <= x + 1 / 2.
Proof.
  unfold round_real. destruct (base_Int_part x) as [Hlo Hhi].
  destruct (Rlt_dec (x - IZR (Int_part x)) (1 / 2)); [lra|].
  destruct (Rlt_dec (1 / 2) (x - IZR (Int_part x))); [rewrite plus_IZR; lra|].
  destruct (Z.even (Int_part x)); [lra|rewrite plus_IZR; lra].
Qed.

Lemma clamp_range p : 0.01 <= Rmax 0.01 (Rmin 0.99 p) <= 0.99.
Proof.
  split; [apply Rmax_l|].
  apply Rmax_lub; [lra | apply Rmin_l].
Qed.

(** C4.  In [predict_game] the total is the sum of the two raw regressor
    outputs, each floored at 0; the spread is the sport's calibration
    constant times ln(c/(1-c)) for the home probability clamped to
    [0.01, 0.99]; the integer scores start as round(max((total+spread)/2, 0))
    and round(max((total-spread)/2, 0)); when they tie or the favorite (home
    iff p >= 0.5) does not lead, the favorite's score becomes the other's
    plus one and the other's is kept, otherwise both are kept; so the
    favorite's final score is strictly larger; and the returned spread and
    total are home-away and home+away of the final integer scores. *)
Theorem predict_game_scores (models : Models) (config : sport_config.SportConfig)
    (game : Game.t) (feature_array : list Q) :
  let r := predict_game models config game feature_array in
  let p := snd (win_predict_proba models feature_array) in
  let total := Rmax (home_score_predict models feature_array) 0
               + Rmax (away_score_predict models feature_array) 0 in
  let c := Rmax 0.01 (Rmin 0.99 p) in
  let spread := Q2R (sport_config.spread_calibration config) * ln (c / (1 - c)) in
  let home0 := round_real (Rmax ((total + spread) / 2) 0) in
  let away0 := round_real (Rmax ((total - spread) / 2) 0) in
  0.01 <= c <= 0.99 /\
  (1 / 2 <= p ->
     ((home0 <= away0)%Z ->
        predicted_home_score r = (away0 + 1)%Z /\ predicted_away_score r = away0) /\
     ((away0 < home0)%Z ->
        predicted_home_score r = home0 /\ predicted_away_score r = away0) /\
     (predicted_away_score r < predicted_home_score r)%Z /\
     predicted_winner_id r = Game.home_team_id game) /\
  (p < 1 / 2 ->
     ((away0 <= home0)%Z ->
        predicted_away_score r = (home0 + 1)%Z /\ predicted_home_score r = home0) /\
     ((home0 < away0)%Z ->
        predicted_home_score r = home0 /\ predicted_away_score r = away0) /\
     (predicted_home_score r < predicted_away_score r)%Z /\
     predicted_winner_id r = Game.away_team_id game) /\
  predicted_spread r = IZR (predicted_home_score r - predicted_away_score r) /\
  predicted_total r = IZR (predicted_home_score r + predicted_away_score r).
Proof.
  intros r p total c spread home0 away0.
  split; [apply clamp_range|].
  assert (Hr : predicted_home_score r = fst (final_scores p home0 away0) /\
               predicted_away_score r = snd (final_scores p home0 away0) /\
               predicted_spread r = IZR (predicted_home_score r - predicted_away_score r) /\
               predicted_total r = IZR (predicted_home_score r + predicted_away_score r) /\
               predicted_winner_id r
               = if Rle_dec (1 / 2) p then Game.home_team_id game else Game.away_team_id game).
  { unfold r, predict_game. fold p. fold total. fold c. fold spread. fold home0. fold away0.
    destruct (final_scores p home0 away0) as [h a]. cbn. repeat split; reflexivity. }
  destruct Hr as (Hh & Ha & Hs & Ht & Hw).
  destruct (final_scores_favorite p home0 away0) as [Hfav Hdog].
  split; [|split; [|split; [exact Hs | exact Ht]]].
  - intros Hp. destruct (Hfav Hp) as (H1 & H2 & H3).
    rewrite Hh, Ha, Hw.
    destruct (Rle_dec (1 / 2) p); [|contradiction].
    split; [intros H; rewrite (H1 H); split; reflexivity|].
    split; [intros H; rewrite (H2 H); split; reflexivity|].
    split; [exact H3 | reflexivity].
  - intros Hp. destruct (Hdog Hp) as (H1 & H2 & H3).
    rewrite Hh, Ha, Hw.
    destruct (Rle_dec (1 / 2) p); [lra|].
    split; [intros H; rewrite (H1 H); split; reflexivity|].
    split; [intros H; rewrite (H2 H); split; reflexivity|].
    split; [exact H3 | reflexivity].
Qed.

End predict.

(** ** The exponentially weighted moving average *)

Section ewma.
Import rolling_stats_computer.
Local Open Scope Q_scope.

Lemma sum_app l1 l2 : sum (l1 ++ l2) == sum l1 + sum l2.
Proof.
  induction l1 as [|x l1 IH]; cbn [app sum fold_right].
  - change (fold_right Qplus 0 l2) with (sum l2). change (sum []) with 0. ring.
  - change (fold_right Qplus 0 (l1 ++ l2)) with (sum (l1 ++ l2)).
    change (fold_right Qplus 0 l1) with (sum l1). rewrite IH. ring.
Qed.

Lemma sum_cons x l : sum (x :: l) == x + sum l.
Proof. reflexivity. Qed.

Lemma Qpower_succ (d : Q) (i : nat) : d ^ Z.of_nat (S i) == d * d ^ Z.of_nat i.
Proof.
  rewrite Nat2Z.inj_succ. unfold Z.succ.
  destruct (Qeq_dec d 0) as [E|E].
  - rewrite E. rewrite Qpower_0 by lia. ring.
  - rewrite Qpower_plus by exact E. simpl (d ^ 1). ring.
Qed.

Lemma weights_shift (d : Q) (f : nat -> Q -> Q) (vs : list Q) :
  (forall i v, f (S i) v == d * f i v) ->
  sum (imap (f ∘ S) vs) == d * sum (imap f vs).
Proof.
  revert f. induction vs as [|v vs IH]; intros f Hf; cbn [imap].
  - change (sum []) with 0. ring.
  - rewrite !sum_cons. rewrite (IH (f ∘ S)).
    + unfold compose at 1. rewrite Hf. ring.
    + intros i w. unfold compose. apply Hf.
Qed.

(** The loop computes the weighted sum and the sum of the weights. *)
Lemma ewma_loop_sums d vs w t ws :
  fst (ewma_loop d vs w t ws) == t + w * sum (imap (fun i v => d ^ Z.of_nat i * v) vs) /\
  snd (ewma_loop d vs w t ws) == ws + w * sum (imap (fun i _ => d ^ Z.of_nat i) vs).
Proof.
  revert w t ws. induction vs as [|v vs IH]; intros w t ws; cbn [ewma_loop imap].
  - cbn [fst snd]. change (sum []) with 0. split; ring.
  - destruct (IH (w * d) (t + w * v) (ws + w)) as [H1 H2].
    rewrite H1, H2, !sum_cons.
    rewrite (weights_shift d (fun i v0 => d ^ Z.of_nat i * v0)).
    2:{ intros i x. rewrite Qpower_succ. ring. }
    rewrite (weights_shift d (fun i _ => d ^ Z.of_nat i)).
    2:{ intros i x. apply Qpower_succ. }
    change (d ^ Z.of_nat 0) with 1. split; ring.
Qed.

Lemma weights_positive d (vs : list Q) :
  0 < d -> vs <> [] -> 0 < sum (imap (fun i _ => d ^ Z.of_nat i) vs).
Proof.
  intros Hd. assert (Hnn : forall (l : list Q) (f : nat -> Q -> Q),
                       (forall i v, 0 <= f i v) -> 0 <= sum (imap f l)).
  { induction l as [|x l IH]; intros f Hf; cbn [imap].
    - change (sum []) with 0. lra.
    - rewrite sum_cons. specialize (IH (f ∘ S) (fun i v => Hf (S i) v)).
      specialize (Hf 0%nat x). lra. }
  destruct vs as [|v vs]; [congruence|]. intros _. cbn [imap].
  rewrite sum_cons. change (d ^ Z.of_nat 0) with 1.
  assert (0 <= sum (imap ((fun i (_ : Q) => d ^ Z.of_nat i) ∘ S) vs)); [|lra].
  apply Hnn. intros i x. unfold compose. apply Qpower_0_le. lra.
Qed.

(** [_ewma] is the weighted average of the specification. *)
Lemma _ewma_weighted_average (values : list Q) :
  values <> [] -> _ewma values == weighted_average EWMA_DECAY values.
Proof.
  intros Hne. unfold _ewma, _ewma_decay, weighted_average.
  destruct values as [|v values]; [congruence|].
  set (vs := rev (v :: values)).
  assert (Hvs : vs <> []).
  { unfold vs. intros E. apply (f_equal (@length Q)) in E.
    rewrite length_rev in E. discriminate. }
  destruct (ewma_loop_sums EWMA_DECAY vs 1 0 0) as [H1 H2].
  destruct (ewma_loop EWMA_DECAY vs 1 0 0) as [total weight_sum]. cbn [fst snd] in H1, H2.
  pose proof (weights_positive EWMA_DECAY vs eq_refl Hvs) as Hpos.
  assert (Hws : 0 < weight_sum) by (rewrite H2; lra).
  unfold positive.
  destruct (Qle_bool weight_sum 0) eqn:E.
  - apply Qle_bool_iff in E. lra.
  - cbn [negb]. rewrite H1, H2.
    assert (E1 : 0 + 1 * sum (imap (fun i v0 => EWMA_DECAY ^ Z.of_nat i * v0) vs)
                 == sum (imap (fun i v0 => EWMA_DECAY ^ Z.of_nat i * v0) vs)) by ring.
    assert (E2 : 0 + 1 * sum (imap (fun i _ => EWMA_DECAY ^ Z.of_nat i) vs)
                 == sum (imap (fun i _ => EWMA_DECAY ^ Z.of_nat i) vs)) by ring.
    rewrite E1, E2. reflexivity.
Qed.

Lemma ewma_loop_comp d vs vs' w w' t t' ws ws' :
  Forall2 Qeq vs vs' -> w == w' -> t == t' -> ws == ws' ->
  fst (ewma_loop d vs w t ws) == fst (ewma_loop d vs' w' t' ws') /\
  snd (ewma_loop d vs w t ws) == snd (ewma_loop d vs' w' t' ws').
Proof.
  intros H. revert w w' t t' ws ws'.
  induction H as [|v v' vs vs' Hv _ IH]; intros w w' t t' ws ws' Hw Ht Hws; cbn [ewma_loop].
  - cbn [fst snd]. split; assumption.
  - apply IH; [rewrite Hw | rewrite Ht, Hw, Hv | rewrite Hws, Hw]; reflexivity.
Qed.

Lemma Forall2_Qeq_rev (l l' : list Q) : Forall2 Qeq l l' -> Forall2 Qeq (rev l) (rev l').
Proof.
  induction 1 as [|x y l l' Hxy _ IH]; cbn [rev]; [constructor|].
  apply Forall2_app; [exact IH | repeat constructor; exact Hxy].
Qed.

(** Equal inputs give equal averages. *)
Lemma _ewma_comp vs vs' : Forall2 Qeq vs vs' -> _ewma vs == _ewma vs'.
Proof.
  intros H. unfold _ewma, _ewma_decay.
  destruct H as [|v v' vs vs' Hv H]; [reflexivity|].
  assert (Hrev : Forall2 Qeq (rev (v :: vs)) (rev (v' :: vs'))).
  { apply Forall2_Qeq_rev. constructor; assumption. }
  destruct (ewma_loop_comp EWMA_DECAY _ _ 1 1 0 0 0 0 Hrev
              (Qeq_refl _) (Qeq_refl _) (Qeq_refl _)) as [H1 H2].
  destruct (ewma_loop EWMA_DECAY (rev (v :: vs)) 1 0 0) as [a b].
  destruct (ewma_loop EWMA_DECAY (rev (v' :: vs')) 1 0 0) as [a' b'].
  cbn [fst snd] in H1, H2. unfold positive.
  assert (Hb : Qle_bool b 0 = Qle_bool b' 0).
  { apply eq_true_iff_eq. rewrite !Qle_bool_iff, H2. reflexivity. }
  rewrite Hb. destruct (Qle_bool b' 0); cbn [negb]; [reflexivity|].
  rewrite H1, H2. reflexivity.
Qed.

End ewma.

(** ** The statistics of a snapshot *)

Section snapshot_stats.
Import rolling_stats_computer.
Local Open Scope Q_scope.

Lemma stats_of_lookup_none (l : list (string * Q)) k :
  ~ In k (map fst l) -> stats_of l !! k = None.
Proof.
  intros Hk. unfold stats_of. apply not_elem_of_list_to_map_1.
  rewrite list_elem_of_In, map_map. cbn [fst]. exact Hk.
Qed.


Ltac no_such_key :=
  apply stats_of_lookup_none; cbn [map fst];
  match goal with H : In _ universal_keys |- _ =>
    cbn in H; intros Hin; cbn in Hin;
    repeat (destruct H as [<-|H]; [repeat (destruct Hin as [Hin|Hin]; [discriminate Hin|]); exact Hin|]);
    exact H
  end.

Lemma sport_specific_no_universal_key last_10 sport k :
  In k universal_keys -> _compute_sport_specific last_10 sport !! k = None.
Proof.
  intros Hk. unfold _compute_sport_specific.
  set (boxes := map boxscore _).
  destruct (String.eqb sport "NBA");
    [unfold _compute_nba_stats; destruct boxes; no_such_key|].
  destruct (String.eqb sport "NHL");
    [unfold _compute_nhl_stats; destruct boxes; no_such_key|].
  destruct (String.eqb sport "MLB");
    [unfold _compute_mlb_stats; destruct boxes; no_such_key|].
  destruct (String.eqb sport "NCAAB");
    [unfold _compute_ncaab_stats; destruct boxes; no_such_key|].
  destruct (String.eqb sport "NCAAF" || String.eqb sport "NFL");
    [unfold _compute_football_stats; destruct boxes; no_such_key|].
  apply lookup_empty.
Qed.

Lemma universal_stat_lookup (sport_stats base : gmap string num) k v :
  sport_stats !! k = None -> base !! k = Some (Float v) ->
  holds_rounded (round_float <$> (sport_stats ∪ base)) k v.
Proof.
  intros Hs Hb. exists (round_ndigits v 6). split; [|reflexivity].
  rewrite lookup_fmap, (lookup_union_r _ _ _ Hs), Hb. reflexivity.
Qed.

Ltac universal_stat :=
  apply universal_stat_lookup;
  [ apply sport_specific_no_universal_key; cbn; tauto
  | cbn [list_to_map foldr fst snd];
    repeat (rewrite lookup_insert_ne by discriminate);
    apply lookup_insert_eq ].

(** C9 (as amended).  In a snapshot computed from a non-empty history,
    win_pct_10, win_pct_20, ppg_10, ppg_20, papg_10, papg_20 and
    margin_avg_10 are the exponentially weighted moving average (decay 0.95,
    weight 0.95^i for the game i places before the most recent, divided by
    the sum of the weights) of the last-10 or last-20 per-game values,
    rounded to six decimals; home_win_pct_10 and away_win_pct_10 are the
    plain fraction of wins among the last-10 games played in that venue role
    (0.5 when there is none), rounded to six decimals. *)
Theorem snapshot_rolling_averages (history : list entry) (elo : Q) (sport : string)
    (is_home_ : bool) :
  history <> [] ->
  let stats := _compute_stats_from_history history elo sport is_home_ in
  let last_10 := last_n 10 history in
  let last_20 := last_n 20 history in
  let ewma values := weighted_average EWMA_DECAY values in
  let home_games_10 := List.filter (fun g => is_home g) last_10 in
  let away_games_10 := List.filter (fun g => negb (is_home g)) last_10 in
  holds_rounded stats "win_pct_10" (ewma (map (fun g => indicator (won g)) last_10)) /\
  holds_rounded stats "win_pct_20" (ewma (map (fun g => indicator (won g)) last_20)) /\
  holds_rounded stats "ppg_10" (ewma (map (fun g => inject_Z (score_for g)) last_10)) /\
  holds_rounded stats "ppg_20" (ewma (map (fun g => inject_Z (score_for g)) last_20)) /\
  holds_rounded stats "papg_10" (ewma (map (fun g => inject_Z (score_against g)) last_10)) /\
  holds_rounded stats "papg_20" (ewma (map (fun g => inject_Z (score_against g)) last_20)) /\
  holds_rounded stats "margin_avg_10" (ewma (map (fun g => inject_Z (margin g)) last_10)) /\
  holds_rounded stats "home_win_pct_10"
    (match home_games_10 with [] => 1 # 2 | _ => win_fraction home_games_10 end) /\
  holds_rounded stats "away_win_pct_10"
    (match away_games_10 with [] => 1 # 2 | _ => win_fraction away_games_10 end).
Proof.
  intros Hne stats last_10 last_20 ewma home_games_10 away_games_10.
  assert (H10 : last_10 <> []).
  { unfold last_10, last_n. intros E. apply (f_equal (@length entry)) in E.
    rewrite length_skipn in E. destruct history; [congruence|]. cbn [length] in E. lia. }
  assert (H20 : last_20 <> []).
  { unfold last_20, last_n. intros E. apply (f_equal (@length entry)) in E.
    rewrite length_skipn in E. destruct history; [congruence|]. cbn [length] in E. lia. }
  assert (Hew : forall (f : entry -> Q) l, l <> [] ->
            forall x, x == round_ndigits (_ewma (map f l)) 6 ->
                      x == round_ndigits (ewma (map f l)) 6).
  { intros f l Hl x Hx. rewrite Hx. apply round_ndigits_comp.
    apply _ewma_weighted_average. destruct l; [congruence|discriminate]. }
  assert (Hst : stats = round_float <$>
            (_compute_sport_specific last_10 sport ∪
             list_to_map [
               ("win_pct_10", Float (_ewma (map (fun g => indicator (won g)) last_10)));
               ("win_pct_20", Float (_ewma (map (fun g => indicator (won g)) last_20)));
               ("ppg_10", Float (_ewma (map (fun g => inject_Z (score_for g)) last_10)));
               ("ppg_20", Float (_ewma (map (fun g => inject_Z (score_for g)) last_20)));
               ("papg_10", Float (_ewma (map (fun g => inject_Z (score_against g)) last_10)));
               ("papg_20", Float (_ewma (map (fun g => inject_Z (score_against g)) last_20)));
               ("margin_avg_10", Float (_ewma (map (fun g => inject_Z (margin g)) last_10)));
               ("home_win_pct_10",
                Float (match home_games_10 with
                       | [] => 1 # 2
                       | _ => win_fraction home_games_10
                       end));
               ("away_win_pct_10",
                Float (match away_games_10 with
                       | [] => 1 # 2
                       | _ => win_fraction away_games_10
                       end));
               ("streak", Int (streak_loop (rev history) 0))]%string)).
  { unfold stats, _compute_stats_from_history. destruct history; [congruence|reflexivity]. }
  rewrite Hst. clear Hst.
  repeat split.
  1-7: match goal with
       | |- holds_rounded ?m ?k (_ (map ?f ?l)) =>
           assert (Hh : holds_rounded m k (_ewma (map f l))) by universal_stat;
           destruct Hh as (q & Hq & Hx); exists q; split; [exact Hq|];
           apply Hew; [assumption | exact Hx]
       end.
  all: universal_stat.
Qed.

End snapshot_stats.

Lemma snapshot_rolling_averages_witness :
  samples.won_then_lost <> [] /\
  let stats :=
    rolling_stats_computer._compute_stats_from_history samples.won_then_lost 1500 "NBA" true in
  let last_10 := last_n 10 samples.won_then_lost in
  let last_20 := last_n 20 samples.won_then_lost in
  let ewma values :=
    rolling_stats_computer.weighted_average rolling_stats_computer.EWMA_DECAY values in
  let home_games_10 := List.filter (fun g => rolling_stats_computer.is_home g) last_10 in
  let away_games_10 := List.filter (fun g => negb (rolling_stats_computer.is_home g)) last_10 in
  rolling_stats_computer.holds_rounded stats "win_pct_10"
    (ewma (map (fun g => rolling_stats_computer.indicator (rolling_stats_computer.won g)) last_10)) /\
  rolling_stats_computer.holds_rounded stats "win_pct_20"
    (ewma (map (fun g => rolling_stats_computer.indicator (rolling_stats_computer.won g)) last_20)) /\
  rolling_stats_computer.holds_rounded stats "ppg_10"
    (ewma (map (fun g => inject_Z (rolling_stats_computer.score_for g)) last_10)) /\
  rolling_stats_computer.holds_rounded stats "ppg_20"
    (ewma (map (fun g => inject_Z (rolling_stats_computer.score_for g)) last_20)) /\
  rolling_stats_computer.holds_rounded stats "papg_10"
    (ewma (map (fun g => inject_Z (rolling_stats_computer.score_against g)) last_10)) /\
  rolling_stats_computer.holds_rounded stats "papg_20"
    (ewma (map (fun g => inject_Z (rolling_stats_computer.score_against g)) last_20)) /\
  rolling_stats_computer.holds_rounded stats "margin_avg_10"
    (ewma (map (fun g => inject_Z (rolling_stats_computer.margin g)) last_10)) /\
  rolling_stats_computer.holds_rounded stats "home_win_pct_10"
    (match home_games_10 with
     | [] => 1 # 2
     | _ => rolling_stats_computer.win_fraction home_games_10
     end)%Q /\
  rolling_stats_computer.holds_rounded stats "away_win_pct_10"
    (match away_games_10 with
     | [] => 1 # 2
     | _ => rolling_stats_computer.win_fraction away_games_10
     end)%Q.
Proof.
  split.
  - discriminate.
  - apply (snapshot_rolling_averages samples.won_then_lost 1500 "NBA" true). discriminate.
Defined.

(** Counterexample to C9 as stated.  After a win and then a loss the weighted
    average of the win flags is 0.95/1.95 = 19/39, but the snapshot holds
    0.487179, its rounding to six decimals. *)
Lemma win_pct_is_rounded :
  samples.won_then_lost <> [] /\
  exists q,
    rolling_stats_computer._compute_stats_from_history samples.won_then_lost 1500 "NBA" true
      !! "win_pct_10"%string = Some (Float q) /\
    (q == 487179 # 1000000)%Q /\
    (rolling_stats_computer.weighted_average rolling_stats_computer.EWMA_DECAY
       (map (fun g => rolling_stats_computer.indicator (rolling_stats_computer.won g))
            (last_n 10 samples.won_then_lost)) == 19 # 39)%Q /\
    ~ (q == rolling_stats_computer.weighted_average rolling_stats_computer.EWMA_DECAY
              (map (fun g => rolling_stats_computer.indicator (rolling_stats_computer.won g))
                   (last_n 10 samples.won_then_lost)))%Q.
Proof.
  split; [discriminate|].
  eexists. split; [vm_compute; reflexivity|].
  assert (E : (rolling_stats_computer.weighted_average rolling_stats_computer.EWMA_DECAY
                 (map (fun g => rolling_stats_computer.indicator (rolling_stats_computer.won g))
                      (last_n 10 samples.won_then_lost)) == 19 # 39)%Q)
    by (vm_compute; reflexivity).
  split; [vm_compute; reflexivity|]. split; [exact E|].
  rewrite E. vm_compute. discriminate.
Qed.

(** ** C10: the turnover margin of football boxscores *)

Section turnovers.
Import rolling_stats_computer.
Local Open Scope Q_scope.

Lemma tov_margin_plain_eq (b : gmap string Q) :
  0 <= get b "opp_turnovers" 0 -> tov_margin b == tov_margin_plain b.
Proof.
  intros Hopp. unfold tov_margin, tov_margin_plain, positive.
  destruct (Qle_bool (get b "opp_turnovers" 0) 0) eqn:E; cbn [negb]; [|reflexivity].
  apply Qle_bool_iff in E.
  assert (E0 : get b "opp_turnovers" 0 == 0) by lra. rewrite E0. ring.
Qed.

(** C10.  For boxscores with non-negative turnover counts (missing keys read
    as 0), every per-game value that [_compute_football_stats] feeds into
    tov_margin_10 equals opp_turnovers - turnovers; with no opponent turnover
    the fallback branch gives -turnovers, which is that difference; so
    tov_margin_10 is the same as with the plain subtraction. *)
Theorem football_tov_margin_is_plain_difference (boxes : list (gmap string Q))
    (last_10 : list entry) :
  boxes <> [] ->
  List.Forall (fun b => 0 <= get b "turnovers" 0 /\ 0 <= get b "opp_turnovers" 0) boxes ->
  _compute_football_stats boxes last_10 !! "tov_margin_10"%string
  = Some (Float (_ewma (map tov_margin boxes))) /\
  Forall2 Qeq (map tov_margin boxes) (map tov_margin_plain boxes) /\
  List.Forall (fun b => get b "opp_turnovers" 0 == 0 ->
                        tov_margin b == - get b "turnovers" 0 /\
                        tov_margin b == 0 - get b "turnovers" 0) boxes /\
  _ewma (map tov_margin boxes) == _ewma (map tov_margin_plain boxes).
Proof.
  intros Hne Hnn.
  assert (H2 : Forall2 Qeq (map tov_margin boxes) (map tov_margin_plain boxes)).
  { clear Hne. induction Hnn as [|b boxes [_ Hb] _ IH]; cbn [map]; constructor.
    - apply tov_margin_plain_eq, Hb.
    - exact IH. }
  split; [|split; [exact H2|split]].
  - unfold _compute_football_stats. destruct boxes as [|b boxes]; [congruence|].
    unfold stats_of. cbn [map list_to_map foldr fst snd].
    rewrite lookup_insert_ne by discriminate. apply lookup_insert_eq.
  - apply List.Forall_forall. intros b Hb.
    rewrite List.Forall_forall in Hnn. destruct (Hnn b Hb) as [_ Hopp].
    intros E. rewrite (tov_margin_plain_eq b Hopp). unfold tov_margin_plain.
    rewrite E. split; ring.
  - apply _ewma_comp, H2.
Qed.

End turnovers.

Lemma football_tov_margin_is_plain_difference_witness :
  [samples.two_giveaways] <> [] /\
  rolling_stats_computer._compute_football_stats [samples.two_giveaways] []
    !! "tov_margin_10"%string
  = Some (Float (rolling_stats_computer._ewma
                   (map rolling_stats_computer.tov_margin [samples.two_giveaways]))) /\
  Forall2 Qeq (map rolling_stats_computer.tov_margin [samples.two_giveaways])
              (map rolling_stats_computer.tov_margin_plain [samples.two_giveaways]) /\
  List.Forall (fun b => (rolling_stats_computer.get b "opp_turnovers" 0 == 0 ->
                         rolling_stats_computer.tov_margin b
                         == - rolling_stats_computer.get b "turnovers" 0 /\
                         rolling_stats_computer.tov_margin b
                         == 0 - rolling_stats_computer.get b "turnovers" 0)%Q)
              [samples.two_giveaways] /\
  (rolling_stats_computer._ewma (map rolling_stats_computer.tov_margin [samples.two_giveaways])
   == rolling_stats_computer._ewma
        (map rolling_stats_computer.tov_margin_plain [samples.two_giveaways]))%Q.
Proof.
  split; [discriminate|].
  apply (football_tov_margin_is_plain_difference [samples.two_giveaways] []).
  - discriminate.
  - repeat constructor; vm_compute; discriminate.
Defined.

(** ** The rolling-statistics replay *)

Section compute_all.
Import rolling_stats_computer.
Variable sport : string.
Variable boxscores : gmap (Z * Z) (gmap string Q).
Variable elo_map : gmap (Z * Z) Q.

Local Abbreviation replay_games := (replay_games sport boxscores elo_map).
Local Abbreviation replay_game := (replay_game sport boxscores elo_map).

Lemma replay_games_snoc games game :
  replay_games (games ++ [game]) = replay_game (replay_games games) game.
Proof. unfold rolling_stats_computer.replay_games. rewrite fold_left_app. reflexivity. Qed.

Lemma replay_games_app games games' :
  replay_games (games ++ games')
  = fold_left replay_game games' (replay_games games).
Proof. unfold rolling_stats_computer.replay_games. apply fold_left_app. Qed.

Lemma rolling_replay_game_unscored st game :
  Game.home_score game = None \/ Game.away_score game = None ->
  replay_game st game = st.
Proof.
  unfold rolling_stats_computer.replay_game.
  intros [H|H]; rewrite H; [|destruct (Game.home_score game)]; reflexivity.
Qed.

Lemma history_of_insert th team_id h t :
  history_of (<[team_id := h]> th) t = if decide (team_id = t) then h else history_of th t.
Proof.
  unfold history_of. rewrite lookup_insert. destruct (decide (team_id = t)); reflexivity.
Qed.

(** What a scored game adds: the rows of its two teams, computed from the
    histories before it, and one entry in the history of each, with the
    game's own scores and boxscore. *)
Lemma rolling_replay_game_scored st game home_score away_score :
  Game.home_score game = Some home_score -> Game.away_score game = Some away_score ->
  written (replay_game st game)
  = written st ++
    [ snapshot_row sport elo_map game
        (history_of (team_history st) (Game.home_team_id game)) (Game.home_team_id game) true;
      snapshot_row sport elo_map game
        (history_of (team_history st) (Game.away_team_id game)) (Game.away_team_id game) false ] /\
  forall t e, In e (history_of (team_history (replay_game st game)) t) ->
              In e (history_of (team_history st) t) \/
              (entry_from t game e /\ boxscore_from sport boxscores t game e).
Proof.
  intros Hh Ha. unfold rolling_stats_computer.replay_game. rewrite Hh, Ha.
  cbn [written team_history]. split; [reflexivity|].
  intros t e. rewrite !history_of_insert.
  assert (Hhome : forall x, Game.home_team_id game = t ->
            x = {| game_id := Game.id game; game_date := Game.game_date game;
                   is_home := true; score_for := home_score; score_against := away_score;
                   won := (away_score <? home_score)%Z;
                   boxscore := game_boxscore sport boxscores game
                                 (Game.home_team_id game) (Game.away_team_id game);
                   margin := (home_score - away_score)%Z |} ->
            entry_from t game x /\ boxscore_from sport boxscores t game x).
  { intros x Ht ->. split.
    - cbn. split; [reflexivity|]. split; [reflexivity|].
      exists home_score, away_score. repeat split; try assumption. left. repeat split. exact Ht.
    - left. cbn [is_home boxscore]. repeat split. exact Ht. }
  assert (Haway : forall x, Game.away_team_id game = t ->
            x = {| game_id := Game.id game; game_date := Game.game_date game;
                   is_home := false; score_for := away_score; score_against := home_score;
                   won := (home_score <? away_score)%Z;
                   boxscore := game_boxscore sport boxscores game
                                 (Game.away_team_id game) (Game.home_team_id game);
                   margin := (away_score - home_score)%Z |} ->
            entry_from t game x /\ boxscore_from sport boxscores t game x).
  { intros x Ht ->. split.
    - cbn. split; [reflexivity|]. split; [reflexivity|].
      exists home_score, away_score. repeat split; try assumption. right. repeat split. exact Ht.
    - right. cbn [is_home boxscore]. repeat split. exact Ht. }
  unfold game_boxscore in Hhome, Haway. cbv zeta in Hhome, Haway.
  destruct (decide (Game.away_team_id game = t)) as [Eat|Eat].
  - rewrite in_app_iff. intros [Hin|[<-|[]]]; [|right; apply Haway; [exact Eat|reflexivity]].
    destruct (decide (Game.home_team_id game = Game.away_team_id game)) as [Eh|Eh].
    + apply in_app_iff in Hin. destruct Hin as [Hin|[<-|[]]].
      * left. rewrite <- Eat, <- Eh. exact Hin.
      * right. apply Hhome; [congruence|reflexivity].
    + left. rewrite <- Eat. exact Hin.
  - destruct (decide (Game.home_team_id game = t)) as [Eht|Eht].
    + rewrite in_app_iff. intros [Hin|[<-|[]]].
      * left. rewrite <- Eht. exact Hin.
      * right. apply Hhome; [exact Eht|reflexivity].
    + intros Hin. left. exact Hin.
Qed.

(** Every entry of a team's history comes from a scored game of that team
    among the games replayed so far, and carries that game's boxscore. *)
Lemma history_provenance games t e :
  In e (history_of (team_history (replay_games games)) t) ->
  exists g, In g games /\ entry_from t g e /\ boxscore_from sport boxscores t g e.
Proof.
  induction games as [|game games IH] using rev_ind.
  - cbn. intros [].
  - rewrite replay_games_snoc.
    destruct (Game.home_score game) as [hs|] eqn:Hh;
      [destruct (Game.away_score game) as [as_|] eqn:Ha|].
    + intros Hin.
      destruct (rolling_replay_game_scored (replay_games games) game hs as_ Hh Ha) as [_ Hstep].
      destruct (Hstep t e Hin) as [Hold|[Hnew Hbox]].
      * destruct (IH Hold) as (g & Hg & He). exists g. split; [|exact He].
        apply in_app_iff. left. exact Hg.
      * exists game. split; [|split; [exact Hnew | exact Hbox]].
        apply in_app_iff. right. left. reflexivity.
    + rewrite rolling_replay_game_unscored by (right; exact Ha). intros Hin.
      destruct (IH Hin) as (g & Hg & He). exists g. split; [|exact He].
      apply in_app_iff. left. exact Hg.
    + rewrite rolling_replay_game_unscored by (left; exact Hh). intros Hin.
      destruct (IH Hin) as (g & Hg & He). exists g. split; [|exact He].
      apply in_app_iff. left. exact Hg.
Qed.

Lemma sorted_snoc_inv (l : list Game.t) g :
  Sorted date_le (l ++ [g]) -> Sorted date_le l /\ List.Forall (fun x => date_le x g) l.
Proof.
  intros Hs.
  assert (Htr : Relations_1.Transitive date_le).
  { intros a b c. unfold date_le. lia. }
  apply (Sorted_StronglySorted Htr) in Hs.
  assert (Hss : StronglySorted date_le l /\ List.Forall (fun x => date_le x g) l).
  { induction l as [|a l IH]; cbn [app] in Hs.
    - split; constructor.
    - inversion Hs as [|? ? Hs' Ha]; subst. destruct (IH Hs') as [IH1 IH2].
      rewrite List.Forall_forall in Ha. split.
      + constructor; [exact IH1|]. apply List.Forall_forall. intros x Hx.
        apply Ha, in_app_iff. left. exact Hx.
      + constructor; [|exact IH2]. apply Ha, in_app_iff. right. left. reflexivity. }
  destruct Hss as [H1 H2]. split; [apply StronglySorted_Sorted, H1 | exact H2].
Qed.

(** C3 (as amended).  Every snapshot that [compute_all] writes, for team T at
    game G, is computed from the history T has accumulated over the games
    replayed before G; every entry of that history comes from a scored game
    of T that precedes G in the date-ordered replay and therefore has a date
    not later than G's date: its id, date, venue role, scores, win flag and
    margin are that game's, and its boxscore is the one the boxscore table
    holds for T in that game (in football with the opponent's turnovers of
    that same game).  (A game of T on G's own date that the query lists
    before G is part of the snapshot.) *)
Theorem snapshots_use_earlier_games (games : list Game.t) (row : TeamRollingStats.t) :
  Sorted date_le games ->
  In row (written (replay_games games)) ->
  exists pre G post is_home_ history,
    games = pre ++ G :: post /\
    history = history_of (team_history (replay_games pre)) (TeamRollingStats.team_id row) /\
    row = snapshot_row sport elo_map G history (TeamRollingStats.team_id row) is_home_ /\
    List.Forall
      (fun e => exists g,
         In g pre /\ entry_from (TeamRollingStats.team_id row) g e /\
         boxscore_from sport boxscores (TeamRollingStats.team_id row) g e /\
         (Game.game_date g <= Game.game_date G)%Z)
      history.
Proof.
  induction games as [|game games IH] using rev_ind; intros Hs Hin.
  - destruct Hin.
  - destruct (sorted_snoc_inv _ _ Hs) as [Hs' Hle].
    assert (Hold : In row (written (replay_games games)) ->
              exists pre G post is_home_ history,
                games ++ [game] = pre ++ G :: post /\
                history = history_of (team_history (replay_games pre))
                            (TeamRollingStats.team_id row) /\
                row = snapshot_row sport elo_map G history
                        (TeamRollingStats.team_id row) is_home_ /\
                List.Forall
                  (fun e => exists g,
                     In g pre /\ entry_from (TeamRollingStats.team_id row) g e /\
                     boxscore_from sport boxscores (TeamRollingStats.team_id row) g e /\
                     (Game.game_date g <= Game.game_date G)%Z) history).
    { intros Hin'. destruct (IH Hs' Hin') as (pre & G & post & ih & h & E & Hh & Hrow & Hall).
      exists pre, G, (post ++ [game]), ih, h. split; [|auto].
      rewrite E, <- app_assoc. reflexivity. }
    rewrite replay_games_snoc in Hin.
    destruct (Game.home_score game) as [hs|] eqn:Hh;
      [destruct (Game.away_score game) as [as_|] eqn:Ha|].
    + destruct (rolling_replay_game_scored (replay_games games) game hs as_ Hh Ha) as [Hw _].
      rewrite Hw in Hin. apply in_app_iff in Hin.
      destruct Hin as [Hin|Hin]; [exact (Hold Hin)|].
      assert (Hnew : forall t ih,
                row = snapshot_row sport elo_map game
                        (history_of (team_history (replay_games games)) t) t ih ->
                exists pre G post is_home_ history,
                  games ++ [game] = pre ++ G :: post /\
                  history = history_of (team_history (replay_games pre))
                              (TeamRollingStats.team_id row) /\
                  row = snapshot_row sport elo_map G history
                          (TeamRollingStats.team_id row) is_home_ /\
                  List.Forall
                    (fun e => exists g,
                       In g pre /\ entry_from (TeamRollingStats.team_id row) g e /\
                       boxscore_from sport boxscores (TeamRollingStats.team_id row) g e /\
                       (Game.game_date g <= Game.game_date G)%Z) history).
      { intros t ih Hrow.
        assert (Ht : TeamRollingStats.team_id row = t) by (rewrite Hrow; reflexivity).
        exists games, game, [], ih, (history_of (team_history (replay_games games)) t).
        rewrite Ht. split; [reflexivity|]. split; [reflexivity|]. split; [exact Hrow|].
        apply List.Forall_forall. intros e He.
        destruct (history_provenance games t e He) as (g & Hg & Hfrom & Hbox).
        exists g. split; [exact Hg|]. split; [exact Hfrom|]. split; [exact Hbox|].
        rewrite List.Forall_forall in Hle. exact (Hle g Hg). }
      destruct Hin as [<-|[<-|[]]]; eapply Hnew; reflexivity.
    + rewrite rolling_replay_game_unscored in Hin by (right; exact Ha). exact (Hold Hin).
    + rewrite rolling_replay_game_unscored in Hin by (left; exact Hh). exact (Hold Hin).
Qed.

(** In a football replay every history entry carries the opponent's
    turnovers of the same game; with non-negative turnover counts in the
    boxscore table the stored count is non-negative, and the per-game
    turnover margin is the plain difference. *)
Lemma football_history_turnovers games t e :
  is_football sport = true ->
  (forall k b, boxscores !! k = Some b -> (0 <= get b "turnovers" 0)%Q) ->
  In e (history_of (team_history (replay_games games)) t) ->
  (0 <= get (boxscore e) "opp_turnovers" 0)%Q /\
  (tov_margin (boxscore e) == tov_margin_plain (boxscore e))%Q.
Proof.
  intros Hfb Hnn.
  assert (Hbox : forall k, (0 <= get (default ∅ (boxscores !! k)) "turnovers" 0)%Q).
  { intros k. destruct (boxscores !! k) as [b|] eqn:E; cbn [default].
    - exact (Hnn k b E).
    - unfold get. rewrite lookup_empty. cbn. lra. }
  assert (Hgoal : (0 <= get (boxscore e) "opp_turnovers" 0)%Q ->
                  (0 <= get (boxscore e) "opp_turnovers" 0)%Q /\
                  (tov_margin (boxscore e) == tov_margin_plain (boxscore e))%Q).
  { intros H. split; [exact H | apply tov_margin_plain_eq, H]. }
  induction games as [|game games IH] using rev_ind.
  - cbn. intros [].
  - rewrite replay_games_snoc.
    destruct (Game.home_score game) as [hs|] eqn:Hh;
      [destruct (Game.away_score game) as [as_|] eqn:Ha|].
    + unfold rolling_stats_computer.replay_game. rewrite Hh, Ha, Hfb.
      cbn [team_history]. rewrite !history_of_insert.
      intros Hin. apply Hgoal.
      assert (Hnew : forall (b b' : gmap string Q) x,
                boxscore x = <["opp_turnovers"%string := get b' "turnovers" 0]> b ->
                (0 <= get b' "turnovers" 0)%Q ->
                (0 <= get (boxscore x) "opp_turnovers" 0)%Q).
      { intros b b' x -> Hb. unfold get at 1. rewrite lookup_insert_eq. exact Hb. }
      destruct (decide (Game.away_team_id game = t)) as [Eat|Eat].
      * apply in_app_iff in Hin. destruct Hin as [Hin|[<-|[]]];
          [|eapply Hnew; [reflexivity|apply Hbox]].
        destruct (decide (Game.home_team_id game = Game.away_team_id game)) as [Eh|Eh].
        -- apply in_app_iff in Hin. destruct Hin as [Hin|[<-|[]]];
             [|eapply Hnew; [reflexivity|apply Hbox]].
           apply IH. rewrite <- Eat, <- Eh. exact Hin.
        -- apply IH. rewrite <- Eat. exact Hin.
      * destruct (decide (Game.home_team_id game = t)) as [Eht|Eht].
        -- apply in_app_iff in Hin. destruct Hin as [Hin|[<-|[]]];
             [|eapply Hnew; [reflexivity|apply Hbox]].
           apply IH. rewrite <- Eht. exact Hin.
        -- apply IH. exact Hin.
    + rewrite rolling_replay_game_unscored by (right; exact Ha). exact IH.
    + rewrite rolling_replay_game_unscored by (left; exact Hh). exact IH.
Qed.

(** The replay skips a game without scores altogether. *)
Lemma replay_games_skip pre game post :
  Game.home_score game = None \/ Game.away_score game = None ->
  replay_games (pre ++ game :: post) = replay_games (pre ++ post).
Proof.
  intros Hnull. rewrite !replay_games_app. cbn [fold_left].
  rewrite (rolling_replay_game_unscored _ _ Hnull). reflexivity.
Qed.

End compute_all.

Lemma snapshots_use_earlier_games_witness :
  Sorted rolling_stats_computer.date_le samples.doubleheader /\
  exists row,
    In row (rolling_stats_computer.written
              (rolling_stats_computer.replay_games "NBA" ∅ ∅ samples.doubleheader)) /\
    TeamRollingStats.game_id row = 2%Z /\
    exists pre G post is_home_ history,
      samples.doubleheader = pre ++ G :: post /\
      history = rolling_stats_computer.history_of
                  (rolling_stats_computer.team_history
                     (rolling_stats_computer.replay_games "NBA" ∅ ∅ pre))
                  (TeamRollingStats.team_id row) /\
      row = rolling_stats_computer.snapshot_row "NBA" ∅ G history
              (TeamRollingStats.team_id row) is_home_ /\
      List.Forall
        (fun e => exists g,
           In g pre /\
           rolling_stats_computer.entry_from (TeamRollingStats.team_id row) g e /\
           rolling_stats_computer.boxscore_from "NBA" ∅ (TeamRollingStats.team_id row) g e /\
           (Game.game_date g <= Game.game_date G)%Z)
        history.
Proof.
  assert (Hs : Sorted rolling_stats_computer.date_le samples.doubleheader).
  { repeat constructor. unfold rolling_stats_computer.date_le. cbn. lia. }
  split; [exact Hs|].
  exists (rolling_stats_computer.snapshot_row "NBA" ∅ (samples.game 2 2023 0 1 3 (Some (90, 95)%Z))
            (rolling_stats_computer.history_of
               (rolling_stats_computer.team_history
                  (rolling_stats_computer.replay_games "NBA" ∅ ∅
                     [samples.game 1 2023 0 1 2 (Some (110, 100)%Z)])) 1%Z) 1%Z true).
  assert (Hin : In (rolling_stats_computer.snapshot_row "NBA" ∅
                      (samples.game 2 2023 0 1 3 (Some (90, 95)%Z))
                      (rolling_stats_computer.history_of
                         (rolling_stats_computer.team_history
                            (rolling_stats_computer.replay_games "NBA" ∅ ∅
                               [samples.game 1 2023 0 1 2 (Some (110, 100)%Z)])) 1%Z) 1%Z true)
                   (rolling_stats_computer.written
                      (rolling_stats_computer.replay_games "NBA" ∅ ∅ samples.doubleheader))).
  { right. right. left. reflexivity. }
  split; [exact Hin|]. split; [reflexivity|].
  exact (snapshots_use_earlier_games "NBA" ∅ ∅ samples.doubleheader _ Hs Hin).
Defined.

(** Counterexample to C3 as stated.  In the doubleheader the snapshot written
    for team 1 at its second game counts the first game (games_played is 1
    and ppg_10 is its 110 points), although that game's date is the
    snapshot's own date and not an earlier one. *)
Lemma same_date_game_enters_snapshot :
  Sorted rolling_stats_computer.date_le samples.doubleheader /\
  exists row e,
    In row (rolling_stats_computer.written
              (rolling_stats_computer.replay_games "NBA" ∅ ∅ samples.doubleheader)) /\
    TeamRollingStats.team_id row = 1%Z /\
    TeamRollingStats.game_id row = 2%Z /\
    TeamRollingStats.as_of_date row = 0%Z /\
    rolling_stats_computer.history_of
      (rolling_stats_computer.team_history
         (rolling_stats_computer.replay_games "NBA" ∅ ∅
            [samples.game 1 2023 0 1 2 (Some (110, 100)%Z)])) 1%Z = [e] /\
    row = rolling_stats_computer.snapshot_row "NBA" ∅
            (samples.game 2 2023 0 1 3 (Some (90, 95)%Z)) [e] 1%Z true /\
    rolling_stats_computer.game_id e = 1%Z /\
    rolling_stats_computer.game_date e = TeamRollingStats.as_of_date row /\
    ~ (rolling_stats_computer.game_date e < TeamRollingStats.as_of_date row)%Z /\
    TeamRollingStats.games_played row = 1%Z /\
    exists q, TeamRollingStats.stats row !! "ppg_10"%string = Some (Float q) /\ (q == 110)%Q.
Proof.
  split; [repeat constructor; unfold rolling_stats_computer.date_le; cbn; lia|].
  eexists. eexists.
  split; [right; right; left; reflexivity|].
  split; [reflexivity|]. split; [reflexivity|]. split; [reflexivity|].
  split; [vm_compute; reflexivity|].
  split; [vm_compute; reflexivity|].
  split; [reflexivity|]. split; [reflexivity|].
  split; [vm_compute; discriminate|].
  split; [vm_compute; reflexivity|].
  eexists. split; [vm_compute; reflexivity|]. vm_compute. reflexivity.
Qed.

(** ** C7: games without a final score *)

Section unscored.
Import elo_calculator.
Local Open Scope R_scope.

Lemma rating_after_scored self st game home_score away_score :
  Game.home_score game = Some home_score -> Game.away_score game = Some away_score ->
  Game.home_team_id game <> Game.away_team_id game ->
  rating (elos (replay_game self st game)) (Game.home_team_id game)
  = fst (update_elo self
           (rating (season_boundary self st game) (Game.home_team_id game))
           (rating (season_boundary self st game) (Game.away_team_id game))
           home_score away_score).
Proof.
  intros Hh Ha Hne. unfold replay_game, play_game.
  pose proof (elos_getitem_rating (season_boundary self st game) (Game.home_team_id game))
    as [H1 H1'].
  destruct (elos_getitem (season_boundary self st game) _) as [h e2]. cbn [fst snd] in H1, H1'.
  pose proof (elos_getitem_rating e2 (Game.away_team_id game)) as [H2 _].
  destruct (elos_getitem e2 _) as [a e3]. cbn [fst snd] in H2.
  rewrite Hh, Ha.
  rewrite <- (H1' (Game.away_team_id game)), <- H2, <- H1.
  destruct (update_elo self h a home_score away_score) as [nh na].
  cbn [elos fst]. unfold rating.
  rewrite lookup_insert_ne by congruence. rewrite lookup_insert_eq. reflexivity.
Qed.

(** C7 (as amended).  A game whose home or away score is null is skipped by
    both replays.  In [calculate_all_elos] no rating update is applied for
    it and no TeamEloHistory entry is produced: after it every team's rating
    is the one left by the season-boundary check at the top of the loop body,
    which is the rating before the game unless the game's season differs from
    the season of the game before it (then it is the regressed rating); the
    replay goes on with the following games.  In [compute_all] it writes no
    snapshot row, is appended to no history, and the replay of a game list
    is the replay of the list without it. *)
Theorem unscored_game_is_skipped (self : EloCalculator) (sport : string)
    (boxscores : gmap (Z * Z) (gmap string Q)) (elo_map : gmap (Z * Z) Q)
    (game : Game.t) :
  Game.home_score game = None \/ Game.away_score game = None ->
  (forall st,
     history_records (replay_game self st game) = history_records st /\
     (forall tid,
        rating (elos (replay_game self st game)) tid
        = rating (season_boundary self st game) tid) /\
     (current_season st = None \/ current_season st = Some (Game.season game) ->
      forall tid, rating (elos (replay_game self st game)) tid = rating (elos st) tid)) /\
  (forall pre post,
     calculate_all_elos self (pre ++ game :: post)
     = fold_left (replay_game self) post
         (replay_game self (calculate_all_elos self pre) game)) /\
  (forall st, rolling_stats_computer.replay_game sport boxscores elo_map st game = st) /\
  (forall pre post,
     rolling_stats_computer.replay_games sport boxscores elo_map (pre ++ game :: post)
     = rolling_stats_computer.replay_games sport boxscores elo_map (pre ++ post)) /\
  (forall pre post,
     rolling_stats_computer.compute_all sport boxscores elo_map (pre ++ game :: post)
     = rolling_stats_computer.compute_all sport boxscores elo_map (pre ++ post)).
Proof.
  intros Hnull. split; [|split; [|split; [|split]]].
  - intros st. destruct (elo_replay_game_unscored self st game Hnull) as (Hh & _ & Hr).
    split; [exact Hh|]. split; [exact Hr|].
    intros Hs tid. rewrite Hr, (season_boundary_same_season self st game Hs). reflexivity.
  - intros pre post. unfold calculate_all_elos. rewrite fold_left_app. reflexivity.
  - intros st. apply rolling_replay_game_unscored, Hnull.
  - intros pre post. apply replay_games_skip, Hnull.
  - intros pre post. unfold rolling_stats_computer.compute_all.
    rewrite (replay_games_skip sport boxscores elo_map pre game post Hnull). reflexivity.
Qed.

(** Counterexample to C7 as stated.  After the opener (team 1 beats team 2 in
    season 2023) a final game of season 2024 without scores is replayed: it
    triggers the season regression, so team 1's rating after it is lower than
    before it. *)
Lemma unscored_game_regresses_ratings :
  Game.home_score samples.unscored_next_season = None /\
  history_records (calculate_all_elos samples.nba [samples.opener; samples.unscored_next_season])
  = history_records (calculate_all_elos samples.nba [samples.opener]) /\
  rating (elos (calculate_all_elos samples.nba [samples.opener; samples.unscored_next_season])) 1
  < rating (elos (calculate_all_elos samples.nba [samples.opener])) 1.
Proof.
  split; [reflexivity|].
  change (calculate_all_elos samples.nba [samples.opener; samples.unscored_next_season])
    with (replay_game samples.nba (calculate_all_elos samples.nba [samples.opener])
            samples.unscored_next_season).
  destruct (elo_replay_game_unscored samples.nba
              (calculate_all_elos samples.nba [samples.opener])
              samples.unscored_next_season (or_introl eq_refl)) as (Hh & _ & Hr).
  split; [exact Hh|].
  rewrite Hr.
  change (calculate_all_elos samples.nba [samples.opener])
    with (replay_game samples.nba start samples.opener).
  assert (Hb : season_boundary samples.nba (replay_game samples.nba start samples.opener)
                 samples.unscored_next_season
               = season_reset samples.nba <$> elos (replay_game samples.nba start samples.opener)).
  { unfold season_boundary. rewrite current_season_replay_game.
    destruct (decide _) as [E|_]; [discriminate E|reflexivity]. }
  rewrite Hb, rating_season_reset.
  assert (Hne : Game.home_team_id samples.opener <> Game.away_team_id samples.opener)
    by discriminate.
  pose proof (rating_after_scored samples.nba start samples.opener 110 100
                eq_refl eq_refl Hne) as Hr1.
  change (Game.home_team_id samples.opener) with 1%Z in Hr1.
  change (Game.away_team_id samples.opener) with 2%Z in Hr1.
  change (season_boundary samples.nba start samples.opener) with (∅ : gmap Z R) in Hr1.
  unfold rating at 2 3 in Hr1. rewrite !lookup_empty in Hr1. cbn [default] in Hr1.
  rewrite Hr1.
  assert (HK : 0 < K_BASE samples.nba) by (cbn; lra).
  destruct (update_elo_home_win samples.nba INITIAL_ELO INITIAL_ELO 110 100 HK eq_refl) as [Hgt _].
  unfold season_reset. cbn [_season_regression samples.nba].
  unfold INITIAL_ELO in *. lra.
Qed.

End unscored.

Lemma unscored_game_is_skipped_witness :
  (Game.home_score samples.unscored_next_season = None \/
   Game.away_score samples.unscored_next_season = None) /\
  (forall st,
     elo_calculator.history_records
       (elo_calculator.replay_game samples.nba st samples.unscored_next_season)
     = elo_calculator.history_records st /\
     (forall tid,
        elo_calculator.rating
          (elo_calculator.elos
             (elo_calculator.replay_game samples.nba st samples.unscored_next_season)) tid
        = elo_calculator.rating
            (elo_calculator.season_boundary samples.nba st samples.unscored_next_season) tid) /\
     (elo_calculator.current_season st = None \/
      elo_calculator.current_season st = Some (Game.season samples.unscored_next_season) ->
      forall tid,
        elo_calculator.rating
          (elo_calculator.elos
             (elo_calculator.replay_game samples.nba st samples.unscored_next_season)) tid
        = elo_calculator.rating (elo_calculator.elos st) tid)) /\
  (forall pre post,
     elo_calculator.calculate_all_elos samples.nba (pre ++ samples.unscored_next_season :: post)
     = fold_left (elo_calculator.replay_game samples.nba) post
         (elo_calculator.replay_game samples.nba
            (elo_calculator.calculate_all_elos samples.nba pre) samples.unscored_next_season)) /\
  (forall st,
     rolling_stats_computer.replay_game "NBA" ∅ ∅ st samples.unscored_next_season = st) /\
  (forall pre post,
     rolling_stats_computer.replay_games "NBA" ∅ ∅ (pre ++ samples.unscored_next_season :: post)
     = rolling_stats_computer.replay_games "NBA" ∅ ∅ (pre ++ post)) /\
  (forall pre post,
     rolling_stats_computer.compute_all "NBA" ∅ ∅ (pre ++ samples.unscored_next_season :: post)
     = rolling_stats_computer.compute_all "NBA" ∅ ∅ (pre ++ post)).
Proof.
  split.
  - left. reflexivity.
  - apply (unscored_game_is_skipped samples.nba "NBA" ∅ ∅ samples.unscored_next_season).
    left. reflexivity.
Defined.

(** ** Feature assembly *)

Section features.
Import feature_engineer.
Local Open Scope Q_scope.

Lemma sorted_reverse_head_max {A} (key : A -> Q) (l : list A) h :
  head (sorted_reverse key l) = Some h ->
  In h l /\ forall x, In x l -> key x <= key h.
Proof.
  revert h. induction l as [|a l IH]; intros h; cbn [sorted_reverse fold_right].
  - discriminate.
  - change (fold_right (insert_desc key) [] l) with (sorted_reverse key l).
    destruct (sorted_reverse key l) as [|y S] eqn:E.
    + assert (l = []) as ->.
      { apply Permutation_nil. rewrite <- E. apply sorted_reverse_perm. }
      cbn. intros [= <-]. split; [left; reflexivity|].
      intros x [<-|[]]. lra.
    + destruct (IH y eq_refl) as [Hy Hmax]. cbn [insert_desc].
      destruct (Qle_bool (key y) (key a)) eqn:Hle; cbn [head]; intros [= <-].
      * apply Qle_bool_iff in Hle. split; [left; reflexivity|].
        intros x [<-|Hx]; [lra|]. specialize (Hmax x Hx). lra.
      * assert (key a < key y).
        { apply Qnot_le_lt. intros H. apply Qle_bool_iff in H. congruence. }
        split; [right; exact Hy|].
        intros x [<-|Hx]; [lra|]. exact (Hmax x Hx).
Qed.

Lemma order_by_desc_length {A} (key : A -> Z) (l : list A) :
  length (order_by_desc key l) = length l.
Proof. unfold order_by_desc. apply Permutation_length, sorted_reverse_perm. Qed.

Lemma last_n_games_length self team_id n before_date :
  length (_get_team_last_n_games self team_id n before_date)
  = Nat.min n (length (prior_games self team_id before_date)).
Proof.
  unfold _get_team_last_n_games. rewrite length_firstn, order_by_desc_length. reflexivity.
Qed.

(** How a snapshot is resolved: the row recorded at the game, else the most
    recent row of the team strictly before the date. *)
Lemma rolling_stats_resolution self team_id before_date gid row :
  _get_rolling_stats self team_id before_date (Some gid) = Some row ->
  In row (team_rolling_stats (db self)) /\
  TeamRollingStats.team_id row = team_id /\
  (TeamRollingStats.game_id row = gid \/
   ((forall r, In r (team_rolling_stats (db self)) ->
               TeamRollingStats.team_id r = team_id -> TeamRollingStats.game_id r <> gid) /\
    (TeamRollingStats.as_of_date row < before_date)%Z /\
    forall r, In r (team_rolling_stats (db self)) ->
              TeamRollingStats.team_id r = team_id ->
              (TeamRollingStats.as_of_date r < before_date)%Z ->
              (TeamRollingStats.as_of_date r <= TeamRollingStats.as_of_date row)%Z)).
Proof.
  unfold _get_rolling_stats.
  destruct (List.find _ (team_rolling_stats (db self))) as [r0|] eqn:Hfind.
  - intros [= <-]. apply List.find_some in Hfind. destruct Hfind as [Hin Hb].
    apply andb_true_iff in Hb. destruct Hb as [Ht Hg].
    apply Z.eqb_eq in Ht, Hg. auto.
  - intros Hhead. apply sorted_reverse_head_max in Hhead. destruct Hhead as [Hin Hmax].
    apply List.filter_In in Hin. destruct Hin as [Hin Hb].
    apply andb_true_iff in Hb. destruct Hb as [Ht Hd].
    apply Z.eqb_eq in Ht. apply Z.ltb_lt in Hd.
    split; [exact Hin|]. split; [exact Ht|]. right. split; [|split; [exact Hd|]].
    + intros r Hr Hrt Hrg.
      pose proof (List.find_none _ _ Hfind r Hr) as Hn. cbn beta in Hn.
      rewrite Hrt, Hrg, !Z.eqb_refl in Hn. discriminate.
    + intros r Hr Hrt Hrd.
      assert (Hf : In r (List.filter
                           (fun r => (TeamRollingStats.team_id r =? team_id)%Z
                                     && (TeamRollingStats.as_of_date r <? before_date)%Z)
                           (team_rolling_stats (db self)))).
      { apply List.filter_In. split; [exact Hr|].
        rewrite Hrt, Z.eqb_refl. apply Z.ltb_lt. exact Hrd. }
      specialize (Hmax r Hf). cbn beta in Hmax. rewrite <- Zle_Qle in Hmax. exact Hmax.
Qed.

(** C8.  A team's snapshot is resolved to the row recorded at the game, else
    to the team's most recent row strictly before the game's date.
    [compute_features] takes the rolling-stats path only with a sport set,
    and that path gives a feature dict only when both teams' resolved
    snapshots exist and have games_played >= 3; when a resolved snapshot has
    games_played < 3 the path yields nothing and the call is the legacy
    fallback; and the fallback returns None when either team has fewer than
    3 final games before the game's date. *)
Theorem insufficient_data_fallback (self : FeatureEngineer) (game : Game.t) :
  let resolved team_id :=
    _get_rolling_stats self team_id (Game.game_date game) (Some (Game.id game)) in
  (forall team_id row,
     resolved team_id = Some row ->
     In row (team_rolling_stats (db self)) /\
     TeamRollingStats.team_id row = team_id /\
     (TeamRollingStats.game_id row = Game.id game \/
      ((forall r, In r (team_rolling_stats (db self)) ->
                  TeamRollingStats.team_id r = team_id ->
                  TeamRollingStats.game_id r <> Game.id game) /\
       (TeamRollingStats.as_of_date row < Game.game_date game)%Z /\
       forall r, In r (team_rolling_stats (db self)) ->
                 TeamRollingStats.team_id r = team_id ->
                 (TeamRollingStats.as_of_date r < Game.game_date game)%Z ->
                 (TeamRollingStats.as_of_date r <= TeamRollingStats.as_of_date row)%Z))) /\
  (forall result,
     _compute_features_from_rolling_stats self game = Some result ->
     exists home_stats away_stats,
       resolved (Game.home_team_id game) = Some home_stats /\
       resolved (Game.away_team_id game) = Some away_stats /\
       (3 <= TeamRollingStats.games_played home_stats)%Z /\
       (3 <= TeamRollingStats.games_played away_stats)%Z) /\
  (forall result,
     compute_features self game = Returned (Some result) ->
     _compute_features_from_rolling_stats self game = Some result /\ sport_set (sport self) <> None
     \/ _compute_features_legacy self game = Returned (Some result)) /\
  (forall row,
     (resolved (Game.home_team_id game) = Some row \/
      resolved (Game.away_team_id game) = Some row) ->
     (TeamRollingStats.games_played row < 3)%Z ->
     _compute_features_from_rolling_stats self game = None /\
     compute_features self game = _compute_features_legacy self game) /\
  ((length (prior_games self (Game.home_team_id game) (Game.game_date game)) < 3)%nat \/
   (length (prior_games self (Game.away_team_id game) (Game.game_date game)) < 3)%nat ->
   _compute_features_legacy self game = Returned None).
Proof.
  intros resolved.
  assert (Hroll : forall row,
            (resolved (Game.home_team_id game) = Some row \/
             resolved (Game.away_team_id game) = Some row) ->
            (TeamRollingStats.games_played row < 3)%Z ->
            _compute_features_from_rolling_stats self game = None).
  { intros row Hrow Hlt. unfold _compute_features_from_rolling_stats. fold (resolved (Game.home_team_id game)).
    fold (resolved (Game.away_team_id game)).
    destruct (resolved (Game.home_team_id game)) as [hs|];
      destruct (resolved (Game.away_team_id game)) as [as_|]; try reflexivity.
    assert (Hb : ((TeamRollingStats.games_played hs <? 3)%Z
                  || (TeamRollingStats.games_played as_ <? 3)%Z) = true).
    { apply orb_true_iff. destruct Hrow as [[= ->]|[= ->]]; [left|right]; apply Z.ltb_lt, Hlt. }
    rewrite Hb. reflexivity. }
  split; [|split; [|split; [|split]]].
  - intros team_id row Hrow. exact (rolling_stats_resolution _ _ _ _ _ Hrow).
  - intros result. unfold _compute_features_from_rolling_stats.
    fold (resolved (Game.home_team_id game)). fold (resolved (Game.away_team_id game)).
    destruct (resolved (Game.home_team_id game)) as [hs|]; [|discriminate].
    destruct (resolved (Game.away_team_id game)) as [as_|]; [|discriminate].
    destruct (Z.ltb_spec (TeamRollingStats.games_played hs) 3); [discriminate|].
    destruct (Z.ltb_spec (TeamRollingStats.games_played as_) 3); [discriminate|].
    intros _. exists hs, as_. auto.
  - intros result. unfold compute_features.
    destruct (sport_set (sport self)) as [s|]; [|intros H; right; exact H].
    destruct (_compute_features_from_rolling_stats self game) as [r|].
    + intros [= <-]. left. split; [reflexivity|discriminate].
    + intros H. right. exact H.
  - intros row Hrow Hlt. specialize (Hroll row Hrow Hlt). split; [exact Hroll|].
    unfold compute_features. rewrite Hroll. destruct (sport_set (sport self)); reflexivity.
  - intros Hfew. unfold _compute_features_legacy.
    destruct (get_team self (Game.home_team_id game)); [|reflexivity].
    destruct (get_team self (Game.away_team_id game)); [|reflexivity].
    rewrite !last_n_games_length.
    assert (Hb : ((Nat.min 10 (length (prior_games self (Game.home_team_id game)
                                          (Game.game_date game))) <? 3)%nat
                  || (Nat.min 10 (length (prior_games self (Game.away_team_id game)
                                             (Game.game_date game))) <? 3)%nat) = true).
    { apply orb_true_iff. destruct Hfew; [left|right]; apply Nat.ltb_lt; lia. }
    rewrite Hb. reflexivity.
Qed.

Lemma rest_days_same_date d : _calc_rest_days_from_dates d (Some d) == 0.
Proof.
  unfold _calc_rest_days_from_dates, days_between. rewrite Z.sub_diag. reflexivity.
Qed.

End features.

(** C5 on the code.  The fourth game of the series is played two days after
    each team's previous game.  The legacy path reports 2 rest days for both
    teams; the rolling-stats path, which [compute_features] takes here,
    resolves each team's snapshot to the row recorded at the game itself,
    whose as_of_date is the game's own date, and reports 0 rest days. *)
Example rest_days_from_own_snapshot :
  let self := feature_engineer.__init__ samples.series_db (Some "NBA"%string) in
  let game := samples.fourth_game in
  let own_snapshot team_id :=
    feature_engineer._get_rolling_stats self team_id (Game.game_date game)
      (Some (Game.id game)) in
  feature_engineer.days_between (Game.game_date game) 345600 = 2%Z /\
  TeamRollingStats.game_id <$> own_snapshot 1%Z = Some (Game.id game) /\
  TeamRollingStats.as_of_date <$> own_snapshot 1%Z = Some (Game.game_date game) /\
  TeamRollingStats.games_played <$> own_snapshot 1%Z = Some 3%Z /\
  TeamRollingStats.as_of_date <$> own_snapshot 2%Z = Some (Game.game_date game) /\
  TeamRollingStats.games_played <$> own_snapshot 2%Z = Some 3%Z /\
  feature_engineer.compute_features self game
  = feature_engineer.Returned
      (feature_engineer._compute_features_from_rolling_stats self game) /\
  feature_engineer.returned_feature
    (feature_engineer.compute_features self game) "rest_days_home" = Some 0%Q /\
  feature_engineer.returned_feature
    (feature_engineer.compute_features self game) "rest_days_away" = Some 0%Q /\
  feature_engineer.returned_feature
    (feature_engineer._compute_features_legacy self game) "rest_days_home" = Some 2%Q /\
  feature_engineer.returned_feature
    (feature_engineer._compute_features_legacy self game) "rest_days_away" = Some 2%Q.
Proof.
  cbv zeta.
  assert (Hsome : is_Some (feature_engineer._compute_features_from_rolling_stats
                             (feature_engineer.__init__ samples.series_db (Some "NBA"%string))
                             samples.fourth_game)).
  { apply (proj1 (bool_decide_spec _)). vm_compute. reflexivity. }
  split; [reflexivity|].
  split; [vm_compute; reflexivity|]. split; [vm_compute; reflexivity|].
  split; [vm_compute; reflexivity|]. split; [vm_compute; reflexivity|].
  split; [vm_compute; reflexivity|].
  split.
  - unfold feature_engineer.compute_features.
    change (feature_engineer.sport_set
              (feature_engineer.sport
                 (feature_engineer.__init__ samples.series_db (Some "NBA"%string))))
      with (Some "NBA"%string).
    destruct Hsome as [f Hf]. rewrite Hf. reflexivity.
  - repeat split; vm_compute; reflexivity.
Qed.

(* ===================================================================== *)
(** * Part III: further properties of the services                        *)
(* ===================================================================== *)

(** ** elo_calculator.py *)

Section elo_more.
Import elo_calculator.
Local Open Scope R_scope.




Lemma update_elo_home_not_win self h a hs as_ :
  0 < K_BASE self -> (hs <= as_)%Z ->
  fst (update_elo self h a hs as_) < h /\ a < snd (update_elo self h a hs as_).
Proof.
  intros HK Hw.
  pose proof (update_elo_zero_sum self h a hs as_) as Hz.
  assert (fst (update_elo self h a hs as_) < h); [|lra].
  unfold update_elo. cbn [fst].
  rewrite (proj2 (Z.ltb_ge as_ hs) Hw).
  pose proof (k_factor_pos self (hs - as_) (h - a) HK).
  pose proof (expected_range (h + HOME_ADVANTAGE self) a).
  assert (0 < k_factor self (hs - as_) (h - a) * calculate_expected (h + HOME_ADVANTAGE self) a)
    by (apply Rmult_lt_0_compat; lra).
  lra.
Qed.

(** X3.  With a positive K_base, a home win raises the home rating and
    lowers the away rating, and every other result lowers the home rating
    and raises the away rating: a tie (equal scores) is scored as an away
    win. *)
Theorem update_elo_direction (self : EloCalculator) (home_elo away_elo : R)
    (home_score away_score : Z) :
  0 < K_BASE self ->
  ((away_score < home_score)%Z ->
     home_elo < fst (update_elo self home_elo away_elo home_score away_score) /\
     snd (update_elo self home_elo away_elo home_score away_score) < away_elo) /\
  ((home_score <= away_score)%Z ->
     fst (update_elo self home_elo away_elo home_score away_score) < home_elo /\
     away_elo < snd (update_elo self home_elo away_elo home_score away_score)).
Proof.
  intros HK. split; intros H.
  - apply update_elo_home_win; assumption.
  - apply update_elo_home_not_win; assumption.
Qed.

Lemma Rpower_base_monotone x y c : 0 < x -> x <= y -> 0 <= c -> Rpower x c <= Rpower y c.
Proof. intros Hx Hxy Hc. apply Rle_Rpower_l; [exact Hc | split; assumption]. Qed.

(** X4.  With a positive K_base the K-factor is positive, depends only on
    the absolute margin and the absolute rating difference, grows with the
    margin and shrinks as the rating difference grows. *)
Theorem k_factor_shape (self : EloCalculator) (mov mov' : Z) (elo_diff elo_diff' : R) :
  0 < K_BASE self ->
  0 < k_factor self mov elo_diff /\
  k_factor self (- mov) (- elo_diff) = k_factor self mov elo_diff /\
  ((Z.abs mov <= Z.abs mov')%Z -> k_factor self mov elo_diff <= k_factor self mov' elo_diff) /\
  (Rabs elo_diff <= Rabs elo_diff' ->
   k_factor self mov elo_diff' <= k_factor self mov elo_diff).
Proof.
  intros HK. split; [apply k_factor_pos, HK|]. split; [|split].
  - unfold k_factor. rewrite Z.abs_opp, Rabs_Ropp. reflexivity.
  - intros Hm. unfold k_factor.
    pose proof (Rabs_pos elo_diff) as Hd.
    assert (Hb : Rpower (IZR (Z.abs mov + 3)) 0.8 <= Rpower (IZR (Z.abs mov' + 3)) 0.8).
    { apply Rpower_base_monotone; [| |lra].
      - apply IZR_lt. lia.
      - apply IZR_le. lia. }
    unfold Rdiv. apply Rmult_le_compat_r.
    + apply Rlt_le, Rinv_0_lt_compat. lra.
    + apply Rmult_le_compat_l; lra.
  - intros Hd. unfold k_factor.
    pose proof (Rabs_pos elo_diff) as Hd0.
    pose proof (exp_pos (0.8 * ln (IZR (Z.abs mov + 3)))) as Hp.
    fold (Rpower (IZR (Z.abs mov + 3)) 0.8) in Hp.
    unfold Rdiv. apply Rmult_le_compat_l.
    + apply Rlt_le, Rmult_lt_0_compat; assumption.
    + apply Rinv_le_contravar; lra.
Qed.

(** X5.  For a regression factor between 0 and 1, [season_reset] never
    overshoots: the new rating lies between 1500 and the old rating, and a
    rating of 1500 stays at 1500. *)
Theorem season_reset_between (self : EloCalculator) (elo : R) :
  0 <= _season_regression self <= 1 ->
  Rmin elo 1500 <= season_reset self elo <= Rmax elo 1500 /\
  season_reset self 1500 = 1500.
Proof.
  intros [H0 H1]. unfold season_reset, INITIAL_ELO.
  set (r := _season_regression self) in *.
  split; [|ring].
  unfold Rmin, Rmax. destruct (Rle_dec elo 1500) as [Hle|Hgt]; split; nra.
Qed.

(** X6.  A scored game between two different teams appends exactly two
    history records, home first: each carries the game's id and date, its
    rating-before is the team's rating at that moment of the replay (after
    the season-boundary check), its rating-after is the team's rating once
    the game is replayed, and the two are the result of [update_elo]. *)
Theorem history_records_of_scored_game (self : EloCalculator) (st : replay) (game : Game.t)
    (home_score away_score : Z) :
  Game.home_score game = Some home_score ->
  Game.away_score game = Some away_score ->
  Game.home_team_id game <> Game.away_team_id game ->
  exists rh ra,
    history_records (replay_game self st game) = history_records st ++ [rh; ra] /\
    TeamEloHistory.team_id rh = Game.home_team_id game /\
    TeamEloHistory.team_id ra = Game.away_team_id game /\
    TeamEloHistory.game_id rh = Game.id game /\ TeamEloHistory.game_id ra = Game.id game /\
    TeamEloHistory.game_date rh = Game.game_date game /\
    TeamEloHistory.game_date ra = Game.game_date game /\
    TeamEloHistory.elo_before rh
    = rating (season_boundary self st game) (Game.home_team_id game) /\
    TeamEloHistory.elo_before ra
    = rating (season_boundary self st game) (Game.away_team_id game) /\
    TeamEloHistory.elo_after rh
    = rating (elos (replay_game self st game)) (Game.home_team_id game) /\
    TeamEloHistory.elo_after ra
    = rating (elos (replay_game self st game)) (Game.away_team_id game) /\
    (TeamEloHistory.elo_after rh, TeamEloHistory.elo_after ra)
    = update_elo self (TeamEloHistory.elo_before rh) (TeamEloHistory.elo_before ra)
        home_score away_score.
Proof.
  intros Hh Ha Hne. unfold replay_game, play_game.
  pose proof (elos_getitem_rating (season_boundary self st game) (Game.home_team_id game))
    as [H1 H1'].
  destruct (elos_getitem (season_boundary self st game) _) as [h e2]. cbn [fst snd] in H1, H1'.
  pose proof (elos_getitem_rating e2 (Game.away_team_id game)) as [H2 _].
  destruct (elos_getitem e2 _) as [a e3]. cbn [fst snd] in H2.
  rewrite Hh, Ha.
  destruct (update_elo self h a home_score away_score) as [nh na] eqn:Hu.
  eexists. eexists. cbn [history_records elos]. split; [reflexivity|].
  cbn [TeamEloHistory.team_id TeamEloHistory.game_id TeamEloHistory.game_date
       TeamEloHistory.elo_before TeamEloHistory.elo_after].
  repeat (split; [reflexivity|]).
  split; [exact H1|]. split; [rewrite H2; apply H1'|].
  unfold rating. rewrite lookup_insert_eq.
  rewrite lookup_insert_ne by congruence. rewrite lookup_insert_eq.
  cbn [default]. repeat split. symmetry. exact Hu.
Qed.

(** X7.  A game leaves the teams that do not play in it where the
    season-boundary check put them: their ratings are not touched by the
    update, whether the game has scores or not. *)
Theorem replay_game_frame (self : EloCalculator) (st : replay) (game : Game.t) (tid : Z) :
  tid <> Game.home_team_id game ->
  tid <> Game.away_team_id game ->
  rating (elos (replay_game self st game)) tid = rating (season_boundary self st game) tid /\
  (current_season st = None \/ current_season st = Some (Game.season game) ->
   rating (elos (replay_game self st game)) tid = rating (elos st) tid).
Proof.
  intros Hh Ha.
  assert (Hr : rating (elos (replay_game self st game)) tid
               = rating (season_boundary self st game) tid).
  { unfold replay_game, play_game.
    pose proof (elos_getitem_rating (season_boundary self st game) (Game.home_team_id game))
      as [_ H1].
    destruct (elos_getitem (season_boundary self st game) _) as [h e2]. cbn [snd] in H1.
    pose proof (elos_getitem_rating e2 (Game.away_team_id game)) as [_ H2].
    destruct (elos_getitem e2 _) as [a e3]. cbn [snd] in H2.
    destruct (Game.home_score game), (Game.away_score game); cbn [elos];
      try (rewrite H2; apply H1).
    destruct (update_elo self h a z z0) as [nh na]. cbn [elos]. unfold rating at 1.
    rewrite !lookup_insert_ne by congruence. fold (rating e3 tid). rewrite H2. apply H1. }
  split; [exact Hr|].
  intros Hs. rewrite Hr, (season_boundary_same_season self st game Hs). reflexivity.
Qed.

End elo_more.

Lemma update_elo_direction_witness :
  (0 < elo_calculator.K_BASE samples.nba)%R /\
  (((100 < 100)%Z ->
      (1500 < fst (elo_calculator.update_elo samples.nba 1500 1500 100 100))%R /\
      (snd (elo_calculator.update_elo samples.nba 1500 1500 100 100) < 1500)%R) /\
   ((100 <= 100)%Z ->
      (fst (elo_calculator.update_elo samples.nba 1500 1500 100 100) < 1500)%R /\
      (1500 < snd (elo_calculator.update_elo samples.nba 1500 1500 100 100))%R)).
Proof.
  assert (HK : (0 < elo_calculator.K_BASE samples.nba)%R) by (cbn; lra).
  split; [exact HK|].
  exact (update_elo_direction samples.nba 1500 1500 100 100 HK).
Defined.

Lemma k_factor_shape_witness :
  (0 < elo_calculator.K_BASE samples.nba)%R /\
  (0 < elo_calculator.k_factor samples.nba 10 0)%R /\
  elo_calculator.k_factor samples.nba (- 10) (- 0) = elo_calculator.k_factor samples.nba 10 0 /\
  ((Z.abs 10 <= Z.abs 20)%Z ->
   (elo_calculator.k_factor samples.nba 10 0 <= elo_calculator.k_factor samples.nba 20 0)%R) /\
  ((Rabs 0 <= Rabs 100)%R ->
   (elo_calculator.k_factor samples.nba 10 100 <= elo_calculator.k_factor samples.nba 10 0)%R).
Proof.
  assert (HK : (0 < elo_calculator.K_BASE samples.nba)%R) by (cbn; lra).
  split; [exact HK|].
  exact (k_factor_shape samples.nba 10 20 0 100 HK).
Defined.

Lemma season_reset_between_witness :
  (0 <= elo_calculator._season_regression samples.nba <= 1)%R /\
  (Rmin 1600 1500 <= elo_calculator.season_reset samples.nba 1600 <= Rmax 1600 1500)%R /\
  elo_calculator.season_reset samples.nba 1500 = 1500%R.
Proof.
  assert (H : (0 <= elo_calculator._season_regression samples.nba <= 1)%R) by (cbn; lra).
  split; [exact H|].
  exact (season_reset_between samples.nba 1600 H).
Defined.

Lemma history_records_of_scored_game_witness :
  Game.home_score samples.opener = Some 110%Z /\
  Game.away_score samples.opener = Some 100%Z /\
  Game.home_team_id samples.opener <> Game.away_team_id samples.opener /\
  exists rh ra,
    elo_calculator.history_records
      (elo_calculator.replay_game samples.nba elo_calculator.start samples.opener)
    = elo_calculator.history_records elo_calculator.start ++ [rh; ra] /\
    TeamEloHistory.team_id rh = Game.home_team_id samples.opener /\
    TeamEloHistory.team_id ra = Game.away_team_id samples.opener /\
    TeamEloHistory.game_id rh = Game.id samples.opener /\
    TeamEloHistory.game_id ra = Game.id samples.opener /\
    TeamEloHistory.game_date rh = Game.game_date samples.opener /\
    TeamEloHistory.game_date ra = Game.game_date samples.opener /\
    TeamEloHistory.elo_before rh
    = elo_calculator.rating
        (elo_calculator.season_boundary samples.nba elo_calculator.start samples.opener)
        (Game.home_team_id samples.opener) /\
    TeamEloHistory.elo_before ra
    = elo_calculator.rating
        (elo_calculator.season_boundary samples.nba elo_calculator.start samples.opener)
        (Game.away_team_id samples.opener) /\
    TeamEloHistory.elo_after rh
    = elo_calculator.rating
        (elo_calculator.elos
           (elo_calculator.replay_game samples.nba elo_calculator.start samples.opener))
        (Game.home_team_id samples.opener) /\
    TeamEloHistory.elo_after ra
    = elo_calculator.rating
        (elo_calculator.elos
           (elo_calculator.replay_game samples.nba elo_calculator.start samples.opener))
        (Game.away_team_id samples.opener) /\
    (TeamEloHistory.elo_after rh, TeamEloHistory.elo_after ra)
    = elo_calculator.update_elo samples.nba (TeamEloHistory.elo_before rh)
        (TeamEloHistory.elo_before ra) 110 100.
Proof.
  split; [reflexivity|]. split; [reflexivity|].
  assert (Hne : Game.home_team_id samples.opener <> Game.away_team_id samples.opener)
    by discriminate.
  split; [exact Hne|].
  exact (history_records_of_scored_game samples.nba elo_calculator.start samples.opener
           110 100 eq_refl eq_refl Hne).
Defined.

Lemma replay_game_frame_witness :
  3%Z <> Game.home_team_id samples.opener /\
  3%Z <> Game.away_team_id samples.opener /\
  elo_calculator.rating
    (elo_calculator.elos
       (elo_calculator.replay_game samples.nba elo_calculator.start samples.opener)) 3
  = elo_calculator.rating
      (elo_calculator.season_boundary samples.nba elo_calculator.start samples.opener) 3 /\
  (elo_calculator.current_season elo_calculator.start = None \/
   elo_calculator.current_season elo_calculator.start
   = Some (Game.season samples.opener) ->
   elo_calculator.rating
     (elo_calculator.elos
        (elo_calculator.replay_game samples.nba elo_calculator.start samples.opener)) 3
   = elo_calculator.rating (elo_calculator.elos elo_calculator.start) 3).
Proof.
  assert (H1 : 3%Z <> Game.home_team_id samples.opener) by discriminate.
  assert (H2 : 3%Z <> Game.away_team_id samples.opener) by discriminate.
  split; [exact H1|]. split; [exact H2|].
  exact (replay_game_frame samples.nba elo_calculator.start samples.opener 3 H1 H2).
Defined.

(** ** rolling_stats_computer.py *)

Section rolling_more.
Import rolling_stats_computer.
Local Open Scope Q_scope.

Lemma weighted_sum_between lo hi (g : nat -> Q) (vs : list Q) :
  (forall i, 0 <= g i) ->
  List.Forall (fun v => lo <= v <= hi) vs ->
  lo * sum (imap (fun i _ => g i) vs) <= sum (imap (fun i v => g i * v) vs)
  <= hi * sum (imap (fun i _ => g i) vs).
Proof.
  intros Hg H. revert g Hg. induction H as [|v vs [Hlo Hhi] _ IH]; intros g Hg; cbn [imap].
  - change (sum []) with 0. lra.
  - rewrite !sum_cons.
    specialize (IH (g ∘ S) (fun i => Hg (S i))).
    change (imap ((fun i (_ : Q) => g i) ∘ S) vs) with (imap (fun i (_ : Q) => (g ∘ S) i) vs).
    change (imap ((fun i v0 => g i * v0) ∘ S) vs) with (imap (fun i v0 => (g ∘ S) i * v0) vs).
    specialize (Hg 0%nat).
    assert (g 0%nat * lo <= g 0%nat * v) by nra.
    assert (g 0%nat * v <= g 0%nat * hi) by nra.
    lra.
Qed.

Lemma _ewma_between lo hi (values : list Q) :
  values <> [] -> List.Forall (fun v => lo <= v <= hi) values ->
  lo <= _ewma values <= hi.
Proof.
  intros Hne Hall.
  rewrite (_ewma_weighted_average values Hne). unfold weighted_average.
  assert (Hrev : List.Forall (fun v => lo <= v <= hi) (rev values)).
  { apply List.Forall_forall. intros v Hv. apply in_rev in Hv.
    rewrite List.Forall_forall in Hall. apply Hall, Hv. }
  assert (Hne' : rev values <> []).
  { intros E. apply (f_equal (@length Q)) in E. rewrite length_rev in E.
    destruct values; [congruence|discriminate]. }
  pose proof (weights_positive EWMA_DECAY (rev values) eq_refl Hne') as Hpos.
  destruct (weighted_sum_between lo hi (fun i => EWMA_DECAY ^ Z.of_nat i) (rev values))
    as [H1 H2]; [intros i; apply Qpower_0_le; discriminate | exact Hrev |].
  split.
  - apply Qle_shift_div_l; assumption.
  - apply Qle_shift_div_r; assumption.
Qed.

Lemma round_ndigits_between (a b : Z) x n :
  inject_Z a <= x <= inject_Z b ->
  inject_Z a <= round_ndigits x n <= inject_Z b.
Proof.
  intros [Ha Hb]. pose proof (pow10_pos n) as Hp.
  unfold round_ndigits. set (P := (10 ^ Z.of_nat n)%Z) in *.
  pose proof (round_half_even_bounds (x * inject_Z P)) as [_ Hhi].
  pose proof (round_half_even_ge_floor (x * inject_Z P)) as Hfl.
  assert (HaP : (a * P <= Qfloor (x * inject_Z P))%Z).
  { rewrite <- (Qfloor_Z (a * P)). apply Qfloor_resp_le. rewrite inject_Z_mult.
    apply Qmult_le_compat_r; [exact Ha | lra]. }
  assert (HbP : (round_half_even (x * inject_Z P) <= b * P)%Z).
  { assert (inject_Z (round_half_even (x * inject_Z P)) < inject_Z (b * P + 1)).
    { rewrite inject_Z_plus, inject_Z_mult. change (inject_Z 1) with 1.
      assert (x * inject_Z P <= inject_Z b * inject_Z P)
        by (apply Qmult_le_compat_r; [exact Hb | lra]).
      lra. }
    rewrite <- Zlt_Qlt in *. lia. }
  split.
  - apply Qle_shift_div_l; [exact Hp|]. rewrite <- inject_Z_mult, <- Zle_Qle. lia.
  - apply Qle_shift_div_r; [exact Hp|]. rewrite <- inject_Z_mult, <- Zle_Qle. exact HbP.
Qed.

Lemma fraction_lookup (sport_stats base : gmap string num) k v :
  sport_stats !! k = None -> base !! k = Some (Float v) -> 0 <= v <= 1 ->
  holds_fraction (round_float <$> (sport_stats ∪ base)) k.
Proof.
  intros Hs Hb Hv. exists (round_ndigits v 6). split.
  - rewrite lookup_fmap, (lookup_union_r _ _ _ Hs), Hb. reflexivity.
  - apply (round_ndigits_between 0 1). exact Hv.
Qed.

Lemma last_n_nonempty {A} n (l : list A) : l <> [] -> last_n (S n) l <> [].
Proof.
  intros Hne E. apply (f_equal (@length A)) in E. unfold last_n in E.
  rewrite length_skipn in E. destruct l; [congruence|]. cbn [length] in E. lia.
Qed.

Lemma ewma_indicator_fraction (f : entry -> bool) (l : list entry) :
  l <> [] -> 0 <= _ewma (map (fun g => indicator (f g)) l) <= 1.
Proof.
  intros Hne. apply _ewma_between.
  - destruct l; [congruence|discriminate].
  - apply List.Forall_forall. intros v Hv. apply in_map_iff in Hv.
    destruct Hv as (g & <- & _). unfold indicator. destruct (f g); lra.
Qed.

Lemma win_share_fraction (l : list entry) :
  0 <= match l with
       | [] => 1 # 2
       | _ => inject_Z (Z.of_nat (length (List.filter (fun g => won g) l)))
              / inject_Z (Z.of_nat (length l))
       end <= 1.
Proof.
  destruct l as [|g l]; [lra|].
  set (l' := g :: l).
  assert (Hlen : (0 < length l')%nat) by (cbn; lia).
  pose proof (List.filter_length_le (fun g => won g) l') as Hle.
  assert (H0 : 0 < inject_Z (Z.of_nat (length l'))).
  { change 0 with (inject_Z 0). rewrite <- Zlt_Qlt. lia. }
  split.
  - apply Qle_shift_div_l; [exact H0|].
    assert (0 <= inject_Z (Z.of_nat (length (List.filter (fun g => won g) l')))).
    { change 0 with (inject_Z 0). rewrite <- Zle_Qle. lia. }
    lra.
  - apply Qle_shift_div_r; [exact H0|].
    assert (inject_Z (Z.of_nat (length (List.filter (fun g => won g) l')))
            <= inject_Z (Z.of_nat (length l'))).
    { rewrite <- Zle_Qle. lia. }
    lra.
Qed.

Ltac absent_key H :=
  apply stats_of_lookup_none; cbn [map fst];
  let Hin := fresh "Hin" in
  cbn in H; intros Hin; cbn in Hin;
  repeat (destruct H as [<-|H];
          [repeat (destruct Hin as [Hin|Hin]; [discriminate Hin|]); exact Hin|]);
  exact H.

Lemma default_stats_universal sport k :
  In k universal_keys -> _default_stats sport !! k = _default_stats EmptyString !! k.
Proof.
  intros Hu. unfold _default_stats.
  set (sport_defaults := list_to_map _ : gmap string (gmap string num)).
  set (base := list_to_map _ : gmap string num).
  assert (Hnone : default ∅ (sport_defaults !! sport) !! k = None).
  { destruct (sport_defaults !! sport) as [d|] eqn:E; cbn [default]; [|apply lookup_empty].
    apply elem_of_list_to_map_2 in E.
    repeat (apply elem_of_cons in E; destruct E as [E|E];
            [injection E as _ ->; absent_key Hu|]).
    apply elem_of_nil in E. destruct E. }
  rewrite (lookup_union_r _ _ _ Hnone).
  change (sport_defaults !! EmptyString) with (@None (gmap string num)).
  cbn [default]. rewrite lookup_union_r by apply lookup_empty. reflexivity.
Qed.

Lemma default_stats_fraction sport k :
  In k ["win_pct_10"; "win_pct_20"; "home_win_pct_10"; "away_win_pct_10"]%string ->
  holds_fraction (_default_stats sport) k.
Proof.
  intros Hk. exists (1 # 2). split; [|lra].
  rewrite default_stats_universal by (cbn in *; tauto).
  cbn in Hk. repeat (destruct Hk as [<-|Hk]; [reflexivity|]). destruct Hk.
Qed.

Lemma between_lookup (sport_stats base : gmap string num) k v (lo hi : Z) :
  sport_stats !! k = None -> base !! k = Some (Float v) ->
  inject_Z lo <= v <= inject_Z hi ->
  holds_between (round_float <$> (sport_stats ∪ base)) k lo hi.
Proof.
  intros Hs Hb Hv. exists (round_ndigits v 6). split.
  - rewrite lookup_fmap, (lookup_union_r _ _ _ Hs), Hb. reflexivity.
  - apply round_ndigits_between. exact Hv.
Qed.

Lemma last_n_forall {A} (P : A -> Prop) n (l : list A) :
  List.Forall P l -> List.Forall P (last_n n l).
Proof.
  intros H. apply List.Forall_forall. intros x Hx. rewrite List.Forall_forall in H.
  apply H. unfold last_n in Hx. rewrite <- (firstn_skipn (length l - n) l).
  apply in_app_iff. right. exact Hx.
Qed.

Lemma ewma_between_integers (f : entry -> Z) (l : list entry) (lo hi : Z) :
  l <> [] -> List.Forall (fun g => (lo <= f g <= hi)%Z) l ->
  inject_Z lo <= _ewma (map (fun g => inject_Z (f g)) l) <= inject_Z hi.
Proof.
  intros Hne Hall. apply _ewma_between.
  - destruct l; [congruence|discriminate].
  - apply List.Forall_forall. intros v Hv. apply in_map_iff in Hv.
    destruct Hv as (g & <- & Hg). rewrite List.Forall_forall in Hall.
    specialize (Hall g Hg). rewrite <- !Zle_Qle. exact Hall.
Qed.

(** X8.  In a snapshot computed from a non-empty history the rolling
    averages stay within the values they average: when every game of the
    history has its points for (points against, margin) between the integers
    [lo] and [hi], so have ppg_10 and ppg_20 (papg_10 and papg_20,
    margin_avg_10), as stored after the rounding to six decimals. *)
Theorem snapshot_averages_within_scores (history : list entry) (elo : Q) (sport : string)
    (is_home_ : bool) (lo hi : Z) :
  history <> [] ->
  let stats := _compute_stats_from_history history elo sport is_home_ in
  (List.Forall (fun g => (lo <= score_for g <= hi)%Z) history ->
   holds_between stats "ppg_10" lo hi /\ holds_between stats "ppg_20" lo hi) /\
  (List.Forall (fun g => (lo <= score_against g <= hi)%Z) history ->
   holds_between stats "papg_10" lo hi /\ holds_between stats "papg_20" lo hi) /\
  (List.Forall (fun g => (lo <= margin g <= hi)%Z) history ->
   holds_between stats "margin_avg_10" lo hi).
Proof.
  intros Hne stats. unfold stats, _compute_stats_from_history.
  destruct history as [|g0 history]; [congruence|].
  set (h := g0 :: history) in *.
  pose proof (last_n_nonempty 9 h Hne) as H10.
  pose proof (last_n_nonempty 19 h Hne) as H20.
  split; [|split]; intros Hall; [split | split |];
    (eapply between_lookup;
     [ apply sport_specific_no_universal_key; cbn; tauto
     | cbn [list_to_map foldr fst snd];
       repeat (rewrite lookup_insert_ne by discriminate);
       apply lookup_insert_eq
     | apply ewma_between_integers; [assumption | apply last_n_forall, Hall] ]).
Qed.

(** X9.  Every snapshot, from an empty history or not, holds win_pct_10,
    win_pct_20, home_win_pct_10 and away_win_pct_10 as floats between 0 and
    1. *)
Theorem snapshot_win_rates_are_fractions (history : list entry) (elo : Q) (sport : string)
    (is_home_ : bool) :
  let stats := _compute_stats_from_history history elo sport is_home_ in
  holds_fraction stats "win_pct_10" /\ holds_fraction stats "win_pct_20" /\
  holds_fraction stats "home_win_pct_10" /\ holds_fraction stats "away_win_pct_10".
Proof.
  intros stats. unfold stats, _compute_stats_from_history.
  destruct history as [|g0 history].
  - repeat split; apply default_stats_fraction; cbn; tauto.
  - set (h := g0 :: history).
    assert (Hh : h <> []) by discriminate.
    pose proof (last_n_nonempty 9 h Hh) as H10.
    pose proof (last_n_nonempty 19 h Hh) as H20.
    repeat split;
      (eapply fraction_lookup;
       [ apply sport_specific_no_universal_key; cbn; tauto
       | cbn [list_to_map foldr fst snd];
         repeat (rewrite lookup_insert_ne by discriminate);
         apply lookup_insert_eq
       | first [ apply ewma_indicator_fraction; assumption | apply win_share_fraction ] ]).
Qed.

Lemma streak_loop_winning gs s :
  (0 < s)%Z -> streak_loop gs s = (s + Z.of_nat (leading_run won gs))%Z.
Proof.
  revert s. induction gs as [|g gs IH]; intros s Hs; cbn [streak_loop leading_run].
  - lia.
  - destruct (won g).
    + destruct (Z.leb_spec 0 s); [|lia]. rewrite IH by lia. lia.
    + destruct (Z.leb_spec s 0); lia.
Qed.

Lemma streak_loop_losing gs s :
  (s < 0)%Z ->
  streak_loop gs s = (s - Z.of_nat (leading_run (fun g => negb (won g)) gs))%Z.
Proof.
  revert s. induction gs as [|g gs IH]; intros s Hs; cbn [streak_loop leading_run].
  - lia.
  - destruct (won g); cbn [negb].
    + destruct (Z.leb_spec 0 s); lia.
    + destruct (Z.leb_spec s 0); [|lia]. rewrite IH by lia. lia.
Qed.

Lemma streak_loop_run gs :
  streak_loop gs 0
  = match gs with
    | [] => 0%Z
    | g :: _ =>
        if won g then Z.of_nat (leading_run won gs)
        else (- Z.of_nat (leading_run (fun g => negb (won g)) gs))%Z
    end.
Proof.
  destruct gs as [|g gs]; [reflexivity|]. cbn [streak_loop leading_run].
  destruct (won g); cbn [negb Z.leb Z.compare].
  - rewrite streak_loop_winning by lia. lia.
  - rewrite streak_loop_losing by lia. lia.
Qed.

(** X10.  The [streak] of a snapshot is an integer (it is not rounded): the
    number of consecutive wins that end the history when the latest game was
    won, minus the number of consecutive non-wins that end it otherwise (a
    tie counts as a non-win), and 0 for an empty history. *)
Theorem streak_counts_trailing_run (history : list entry) (elo : Q) (sport : string)
    (is_home_ : bool) :
  _compute_stats_from_history history elo sport is_home_ !! "streak"%string
  = Some (Int match rev history with
              | [] => 0%Z
              | latest :: _ =>
                  if won latest then Z.of_nat (leading_run won (rev history))
                  else (- Z.of_nat (leading_run (fun g => negb (won g)) (rev history)))%Z
              end).
Proof.
  unfold _compute_stats_from_history. destruct history as [|g0 history].
  - cbn [rev]. rewrite default_stats_universal by (cbn; tauto). reflexivity.
  - set (h := g0 :: history). rewrite <- streak_loop_run.
    rewrite lookup_fmap, lookup_union_r
      by (apply sport_specific_no_universal_key; cbn; tauto).
    cbn [list_to_map foldr fst snd].
    repeat (rewrite lookup_insert_ne by discriminate).
    rewrite lookup_insert_eq. reflexivity.
Qed.

Lemma stats_of_lookup_zero (l : list (string * Q)) k :
  List.Forall (fun kv => snd kv = 0) l ->
  match stats_of l !! k with Some v => v = Float 0 | None => True end.
Proof.
  intros Hall. destruct (stats_of l !! k) as [v|] eqn:E; [|exact I].
  unfold stats_of in E. apply elem_of_list_to_map_2, list_elem_of_In, in_map_iff in E.
  destruct E as ([k' q] & [= <- <-] & Hin).
  rewrite List.Forall_forall in Hall. specialize (Hall _ Hin). cbn [snd] in Hall.
  rewrite Hall. reflexivity.
Qed.

(** X11.  When none of the games passed to [_compute_sport_specific] has a
    boxscore, every statistic it returns is 0.0, whatever the sport; and for
    a sport other than NBA, NHL, MLB, NCAAB, NCAAF and NFL it returns the
    empty dict, whatever the games. *)
Theorem sport_stats_without_boxscores (last_10 : list entry) (sport : string) :
  (List.Forall (fun g => boxscore g = ∅) last_10 ->
   forall key,
     match _compute_sport_specific last_10 sport !! key with
     | Some v => v = Float 0
     | None => True
     end) /\
  (~ In sport ["NBA"; "NHL"; "MLB"; "NCAAB"; "NCAAF"; "NFL"]%string ->
   _compute_sport_specific last_10 sport = ∅).
Proof.
  split.
  - intros Hall key. unfold _compute_sport_specific.
    assert (Hnone : List.filter (fun g => truthy (boxscore g)) last_10 = []).
    { induction Hall as [|g l Hg _ IH]; [reflexivity|].
      cbn [List.filter]. rewrite Hg. cbn. exact IH. }
    rewrite Hnone. cbn [map].
    repeat match goal with
           | |- context [if ?c then _ else _] => destruct c
           end;
      first [ apply stats_of_lookup_zero; repeat constructor
            | rewrite lookup_empty; exact I ].
  - intros Hsport. unfold _compute_sport_specific.
    assert (Hne : forall k, In k ["NBA"; "NHL"; "MLB"; "NCAAB"; "NCAAF"; "NFL"]%string ->
                            String.eqb sport k = false).
    { intros k Hk. apply String.eqb_neq. intros ->. exact (Hsport Hk). }
    rewrite !Hne by (cbn; tauto). reflexivity.
Qed.

End rolling_more.

Lemma snapshot_averages_within_scores_witness :
  rolling_stats_computer.holds_between
    (rolling_stats_computer._compute_stats_from_history samples.won_then_lost 1500 "NBA" true)
    "ppg_10" 90 110.
Proof.
  refine (proj1 (proj1 (snapshot_averages_within_scores
                          samples.won_then_lost 1500 "NBA" true 90 110 _) _)).
  - discriminate.
  - repeat constructor; cbn; lia.
Defined.

Lemma sport_stats_without_boxscores_witness :
  match rolling_stats_computer._compute_sport_specific
          [ {| rolling_stats_computer.game_id := 1; rolling_stats_computer.game_date := 0;
               rolling_stats_computer.is_home := true;
               rolling_stats_computer.score_for := 110;
               rolling_stats_computer.score_against := 100;
               rolling_stats_computer.won := true;
               rolling_stats_computer.boxscore := ∅;
               rolling_stats_computer.margin := 10 |} ] "NBA" !! "pace_10"%string with
  | Some v => v = Float 0
  | None => True
  end.
Proof.
  apply (proj1 (sport_stats_without_boxscores _ "NBA")). repeat constructor.
Defined.

(** ** More on the rolling-statistics replay and its table *)

Section compute_all_more.
Import rolling_stats_computer.
Variable sport : string.
Variable boxscores : gmap (Z * Z) (gmap string Q).
Variable elo_map : gmap (Z * Z) Q.

Local Abbreviation replay_games := (replay_games sport boxscores elo_map).
Local Abbreviation replay_game := (replay_game sport boxscores elo_map).
Local Abbreviation compute_all := (compute_all sport boxscores elo_map).

(** What one game adds to the history of a team, when no team plays
    itself: the entry of the game if it is scored and the team plays in it,
    nothing otherwise. *)
Lemma replay_game_history st game t :
  Game.home_team_id game <> Game.away_team_id game ->
  exists new,
    history_of (team_history (replay_game st game)) t
    = history_of (team_history st) t ++ new /\
    Forall2 (entry_from t) (if scored game && involves t game then [game] else []) new.
Proof.
  intros Hne. unfold rolling_stats_computer.replay_game, scored, involves.
  destruct (Game.home_score game) as [hs|] eqn:Hh;
    [destruct (Game.away_score game) as [as_|] eqn:Ha|];
    try (exists []; rewrite app_nil_r; split; [reflexivity|constructor]).
  cbn [team_history andb]. rewrite !history_of_insert.
  destruct (decide (Game.away_team_id game = t)) as [Eat|Eat].
  - destruct (decide (Game.home_team_id game = Game.away_team_id game)); [contradiction|].
    eexists. split; [rewrite Eat; reflexivity|].
    rewrite <- Eat, Z.eqb_refl, orb_true_r. constructor; [|constructor].
    split; [reflexivity|]. split; [reflexivity|].
    exists hs, as_. split; [exact Hh|]. split; [exact Ha|]. right. repeat split.
  - destruct (decide (Game.home_team_id game = t)) as [Eht|Eht].
    + eexists. split; [rewrite Eht; reflexivity|].
      rewrite <- Eht, Z.eqb_refl. cbn [orb]. constructor; [|constructor].
      split; [reflexivity|]. split; [reflexivity|].
      exists hs, as_. split; [exact Hh|]. split; [exact Ha|]. left. repeat split.
    + exists []. rewrite app_nil_r. split; [reflexivity|].
      destruct (Z.eqb_spec (Game.home_team_id game) t); [contradiction|].
      destruct (Z.eqb_spec (Game.away_team_id game) t); [contradiction|].
      constructor.
Qed.

Lemma history_entries (games : list Game.t) (t : Z) :
  (forall g, In g games -> Game.home_team_id g <> Game.away_team_id g) ->
  Forall2 (entry_from t)
    (List.filter (fun g => scored g && involves t g) games)
    (history_of (team_history (replay_games games)) t).
Proof.
  induction games as [|game games IH] using rev_ind; intros Hne.
  - constructor.
  - rewrite replay_games_snoc, List.filter_app.
    destruct (replay_game_history (replay_games games) game t) as (new & -> & Hnew).
    { apply Hne, in_app_iff. right. left. reflexivity. }
    apply Forall2_app.
    + apply IH. intros g Hg. apply Hne, in_app_iff. left. exact Hg.
    + cbn [List.filter]. destruct (scored game && involves t game); exact Hnew.
Qed.

(** X12.  When no game pits a team against itself, the history a team has
    after the replay consists of exactly one entry per scored game the team
    played, in replay order, each carrying that game's id, date, venue role,
    scores, win flag and margin. *)
Theorem team_history_is_complete (games : list Game.t) (t : Z) :
  (forall g, In g games -> Game.home_team_id g <> Game.away_team_id g) ->
  Forall2 (entry_from t)
    (List.filter (fun g => scored g && involves t g) games)
    (history_of (team_history (replay_games games)) t).
Proof. apply history_entries. Qed.

(** X27.  The two rows written at a scored game G, after the games [pre]
    in which no team plays itself: they are keyed (home team, G) and (away
    team, G) and dated as G; [games_played] is the number of scored games the
    team played earlier in the replay; and the [elo] entry of the stats is
    the rating recorded before G for that team in the Elo history, or 1500
    when there is none, stored as it is (not rounded). *)
Theorem rows_written_at_game (pre : list Game.t) (G : Game.t) :
  (forall g, In g pre -> Game.home_team_id g <> Game.away_team_id g) ->
  scored G = true ->
  exists home_row away_row,
    written (replay_games (pre ++ [G])) = written (replay_games pre) ++ [home_row; away_row] /\
    row_key home_row = (Game.home_team_id G, Game.id G) /\
    row_key away_row = (Game.away_team_id G, Game.id G) /\
    TeamRollingStats.as_of_date home_row = Game.game_date G /\
    TeamRollingStats.as_of_date away_row = Game.game_date G /\
    TeamRollingStats.games_played home_row
    = Z.of_nat (length (List.filter
                          (fun g => scored g && involves (Game.home_team_id G) g) pre)) /\
    TeamRollingStats.games_played away_row
    = Z.of_nat (length (List.filter
                          (fun g => scored g && involves (Game.away_team_id G) g) pre)) /\
    TeamRollingStats.stats home_row !! "elo"%string
    = Some (Float (default 1500%Q (elo_map !! (Game.home_team_id G, Game.id G)))) /\
    TeamRollingStats.stats away_row !! "elo"%string
    = Some (Float (default 1500%Q (elo_map !! (Game.away_team_id G, Game.id G)))).
Proof.
  intros Hne Hsc. unfold scored in Hsc.
  destruct (Game.home_score G) as [hs|] eqn:Hh; [|discriminate].
  destruct (Game.away_score G) as [as_|] eqn:Ha; [|discriminate].
  rewrite replay_games_snoc.
  destruct (rolling_replay_game_scored sport boxscores elo_map (replay_games pre) G hs as_ Hh Ha)
    as [Hw _].
  rewrite Hw. eexists. eexists. split; [reflexivity|].
  unfold snapshot_row, row_key.
  cbn [TeamRollingStats.team_id TeamRollingStats.game_id TeamRollingStats.as_of_date
       TeamRollingStats.games_played TeamRollingStats.stats].
  rewrite !lookup_insert_eq.
  rewrite <- (Forall2_length _ _ _ (history_entries pre (Game.home_team_id G) Hne)).
  rewrite <- (Forall2_length _ _ _ (history_entries pre (Game.away_team_id G) Hne)).
  repeat split.
Qed.

Lemma replay_game_written st game :
  map row_key (written (replay_game st game))
  = map row_key (written st)
    ++ (if scored game
        then [ (Game.home_team_id game, Game.id game);
               (Game.away_team_id game, Game.id game) ]
        else []) /\
  (records_created (replay_game st game) - Z.of_nat (length (written (replay_game st game)))
   = records_created st - Z.of_nat (length (written st)))%Z.
Proof.
  unfold rolling_stats_computer.replay_game, scored.
  destruct (Game.home_score game) as [hs|]; [destruct (Game.away_score game) as [as_|]|];
    try (rewrite app_nil_r; split; reflexivity).
  cbn [written records_created]. rewrite map_app, length_app. cbn [length]. split; [reflexivity|lia].
Qed.

(** X13.  The replay writes exactly two rows per scored game, keyed (home
    team, game) and (away team, game), in replay order, and none for a game
    without scores; the count [compute_all] returns is the number of rows
    written. *)
Theorem two_rows_per_scored_game (games : list Game.t) :
  map row_key (written (replay_games games))
  = flat_map (fun g => [ (Game.home_team_id g, Game.id g);
                         (Game.away_team_id g, Game.id g) ])
      (List.filter scored games) /\
  snd (compute_all games) = Z.of_nat (length (written (replay_games games))).
Proof.
  unfold rolling_stats_computer.compute_all. cbn [snd].
  induction games as [|game games [IH1 IH2]] using rev_ind.
  - split; reflexivity.
  - rewrite replay_games_snoc.
    destruct (replay_game_written (replay_games games) game) as [Hk Hc].
    split.
    + rewrite Hk, IH1, List.filter_app, flat_map_app. f_equal.
      cbn [List.filter]. destruct (scored game); reflexivity.
    + lia.
Qed.

Lemma row_at_cons key r table :
  row_at key (r :: table)
  = if (TeamRollingStats.team_id r =? fst key)%Z && (TeamRollingStats.game_id r =? snd key)%Z
    then Some r else row_at key table.
Proof. reflexivity. Qed.

Lemma same_key_spec (r row : TeamRollingStats.t) :
  (TeamRollingStats.team_id r =? TeamRollingStats.team_id row)%Z
  && (TeamRollingStats.game_id r =? TeamRollingStats.game_id row)%Z = true
  <-> row_key r = row_key row.
Proof.
  unfold row_key. rewrite andb_true_iff, !Z.eqb_eq. split.
  - intros [-> ->]. reflexivity.
  - intros [= -> ->]. split; reflexivity.
Qed.

Lemma upsert_keys row table :
  map row_key (upsert row table)
  = if bool_decide (row_key row ∈ map row_key table)
    then map row_key table
    else map row_key table ++ [row_key row].
Proof.
  induction table as [|r table IH]; [reflexivity|].
  cbn [upsert map].
  destruct ((TeamRollingStats.team_id r =? TeamRollingStats.team_id row)%Z
            && (TeamRollingStats.game_id r =? TeamRollingStats.game_id row)%Z) eqn:E.
  - apply same_key_spec in E.
    rewrite bool_decide_eq_true_2 by (rewrite E; apply list_elem_of_here).
    cbn [map]. reflexivity.
  - assert (Hne : row_key r <> row_key row).
    { intros H. apply same_key_spec in H. congruence. }
    cbn [map]. rewrite IH.
    destruct (bool_decide (row_key row ∈ map row_key table)) eqn:B.
    + apply bool_decide_eq_true_1 in B.
      rewrite bool_decide_eq_true_2 by (apply list_elem_of_further, B). reflexivity.
    + apply bool_decide_eq_false_1 in B.
      rewrite bool_decide_eq_false_2; [reflexivity|].
      intros H. apply elem_of_cons in H. destruct H as [H|H]; [congruence|contradiction].
Qed.

(** X14.  [INSERT ... ON CONFLICT (team_id, game_id) DO UPDATE] as a round
    trip: after the upsert of a row, the row stored under its key carries its
    date, games played and stats; the rows under every other key are
    untouched; and a table with unique keys keeps unique keys. *)
Theorem upsert_round_trip (row : TeamRollingStats.t) (table : list TeamRollingStats.t) :
  (exists r, row_at (row_key row) (upsert row table) = Some r /\
             row_key r = row_key row /\
             TeamRollingStats.as_of_date r = TeamRollingStats.as_of_date row /\
             TeamRollingStats.games_played r = TeamRollingStats.games_played row /\
             TeamRollingStats.stats r = TeamRollingStats.stats row) /\
  (forall key, key <> row_key row -> row_at key (upsert row table) = row_at key table) /\
  (NoDup (map row_key table) -> NoDup (map row_key (upsert row table))).
Proof.
  split; [|split].
  - induction table as [|r table IH]; cbn [upsert].
    + exists row. rewrite row_at_cons. cbn [row_key fst snd]. rewrite !Z.eqb_refl.
      repeat split.
    + destruct ((TeamRollingStats.team_id r =? TeamRollingStats.team_id row)%Z
                && (TeamRollingStats.game_id r =? TeamRollingStats.game_id row)%Z) eqn:E.
      * eexists. rewrite row_at_cons. cbn [row_key fst snd TeamRollingStats.team_id
                                             TeamRollingStats.game_id].
        rewrite E. split; [reflexivity|]. apply same_key_spec in E.
        repeat split. exact E.
      * rewrite row_at_cons. cbn [row_key fst snd]. rewrite E. exact IH.
  - intros key Hkey. induction table as [|r table IH]; cbn [upsert].
    + rewrite row_at_cons.
      destruct ((TeamRollingStats.team_id row =? fst key)%Z
                && (TeamRollingStats.game_id row =? snd key)%Z) eqn:E; [|reflexivity].
      apply andb_true_iff in E. rewrite !Z.eqb_eq in E. destruct E as [E1 E2].
      exfalso. apply Hkey. unfold row_key. rewrite E1, E2. destruct key; reflexivity.
    + destruct ((TeamRollingStats.team_id r =? TeamRollingStats.team_id row)%Z
                && (TeamRollingStats.game_id r =? TeamRollingStats.game_id row)%Z) eqn:E.
      * rewrite !row_at_cons.
        cbn [TeamRollingStats.team_id TeamRollingStats.game_id].
        destruct ((TeamRollingStats.team_id r =? fst key)%Z
                  && (TeamRollingStats.game_id r =? snd key)%Z) eqn:E'; [|reflexivity].
        apply same_key_spec in E. apply andb_true_iff in E'. rewrite !Z.eqb_eq in E'.
        destruct E' as [E1 E2]. exfalso. apply Hkey. rewrite <- E. unfold row_key.
        rewrite E1, E2. destruct key; reflexivity.
      * rewrite !row_at_cons, IH. reflexivity.
  - intros Hnd. rewrite upsert_keys.
    destruct (bool_decide (row_key row ∈ map row_key table)) eqn:B; [exact Hnd|].
    apply bool_decide_eq_false_1 in B. apply NoDup_app. split; [exact Hnd|].
    split; [|apply NoDup_singleton].
    intros k Hk Hk'. apply list_elem_of_singleton in Hk'. subst k. contradiction.
Qed.

Lemma upsert_fresh row table :
  row_key row ∉ map row_key table -> upsert row table = table ++ [row].
Proof.
  induction table as [|r table IH]; intros Hfresh; [reflexivity|].
  cbn [upsert].
  destruct ((TeamRollingStats.team_id r =? TeamRollingStats.team_id row)%Z
            && (TeamRollingStats.game_id r =? TeamRollingStats.game_id row)%Z) eqn:E.
  - apply same_key_spec in E. exfalso. apply Hfresh. cbn [map]. rewrite E.
    apply list_elem_of_here.
  - rewrite IH; [reflexivity|]. intros H. apply Hfresh. cbn [map].
    apply list_elem_of_further, H.
Qed.

Lemma upserts_fresh rows table :
  NoDup (map row_key (table ++ rows)) ->
  fold_left (fun table row => upsert row table) rows table = table ++ rows.
Proof.
  revert table. induction rows as [|row rows IH]; intros table Hnd.
  - cbn. rewrite app_nil_r. reflexivity.
  - cbn [fold_left]. rewrite upsert_fresh.
    + rewrite IH; rewrite <- app_assoc; [reflexivity|exact Hnd].
    + rewrite map_app in Hnd. apply NoDup_app in Hnd. destruct Hnd as (_ & Hd & _).
      intros Hin. apply (Hd _ Hin). cbn [map]. apply list_elem_of_here.
Qed.

Lemma scored_keys_nodup (games : list Game.t) :
  NoDup (map Game.id games) ->
  (forall g, In g games -> Game.home_team_id g <> Game.away_team_id g) ->
  NoDup (flat_map (fun g => [ (Game.home_team_id g, Game.id g);
                              (Game.away_team_id g, Game.id g) ])
           (List.filter scored games)).
Proof.
  induction games as [|g games IH]; intros Hnd Hne; [constructor|].
  cbn [map] in Hnd. apply NoDup_cons in Hnd. destruct Hnd as [Hid Hnd].
  assert (IH' := IH Hnd (fun g' Hg' => Hne g' (or_intror Hg'))).
  cbn [List.filter]. destruct (scored g); [|exact IH'].
  assert (Hfresh : forall t,
            (t, Game.id g) ∉ flat_map (fun g => [ (Game.home_team_id g, Game.id g);
                                                  (Game.away_team_id g, Game.id g) ])
                               (List.filter scored games)).
  { intros t Hin. apply list_elem_of_In, in_flat_map in Hin.
    destruct Hin as (g' & Hg' & Hk). apply filter_In in Hg'. destruct Hg' as [Hg' _].
    apply Hid, list_elem_of_In, in_map_iff. exists g'. split; [|exact Hg'].
    destruct Hk as [[= _ E]|[[= _ E]|[]]]; exact E. }
  cbn [flat_map app]. apply NoDup_cons. split.
  - intros Hin. apply elem_of_cons in Hin. destruct Hin as [[= E]|Hin].
    + exact (Hne g (or_introl eq_refl) E).
    + exact (Hfresh _ Hin).
  - apply NoDup_cons. split; [apply Hfresh | exact IH'].
Qed.

(** X15.  With distinct game ids and no team playing itself, no upsert of
    [compute_all] meets a conflict: the table it builds is the list of the
    rows written, one per key, and the count it returns is the number of rows
    of the table. *)
Theorem compute_all_table (games : list Game.t) :
  NoDup (map Game.id games) ->
  (forall g, In g games -> Game.home_team_id g <> Game.away_team_id g) ->
  fst (compute_all games) = written (replay_games games) /\
  NoDup (map row_key (fst (compute_all games))) /\
  snd (compute_all games) = Z.of_nat (length (fst (compute_all games))).
Proof.
  intros Hnd Hne.
  assert (Hkeys : NoDup (map row_key (written (replay_games games)))).
  { induction games as [|game games IH] using rev_ind; [constructor|].
    clear IH.
    assert (Hall : forall gs,
              map row_key (written (replay_games gs))
              = flat_map (fun g => [ (Game.home_team_id g, Game.id g);
                                     (Game.away_team_id g, Game.id g) ])
                  (List.filter scored gs)).
    { induction gs as [|g gs IHgs] using rev_ind; [reflexivity|].
      rewrite replay_games_snoc.
      destruct (replay_game_written (replay_games gs) g) as [Hk _].
      rewrite Hk, IHgs, List.filter_app, flat_map_app. f_equal.
      cbn [List.filter]. destruct (scored g); reflexivity. }
    rewrite Hall. apply scored_keys_nodup; assumption. }
  assert (Htable : fst (compute_all games) = written (replay_games games)).
  { unfold rolling_stats_computer.compute_all. cbn [fst].
    rewrite upserts_fresh; [reflexivity|exact Hkeys]. }
  rewrite Htable. split; [reflexivity|]. split; [exact Hkeys|].
  unfold rolling_stats_computer.compute_all. cbn [snd].
  induction games as [|game games IH] using rev_ind; [reflexivity|].
  clear IH.
  assert (Hall : forall gs,
            records_created (replay_games gs)
            = Z.of_nat (length (written (replay_games gs)))).
  { induction gs as [|g gs IHgs] using rev_ind; [reflexivity|].
    rewrite replay_games_snoc.
    destruct (replay_game_written (replay_games gs) g) as [_ Hc]. lia. }
  apply Hall.
Qed.

End compute_all_more.

Lemma team_history_is_complete_witness :
  Forall2 (rolling_stats_computer.entry_from 1)
    (List.filter (fun g => rolling_stats_computer.scored g
                           && rolling_stats_computer.involves 1 g) samples.series)
    (rolling_stats_computer.history_of
       (rolling_stats_computer.team_history
          (rolling_stats_computer.replay_games "NBA" ∅ ∅ samples.series)) 1).
Proof.
  apply team_history_is_complete.
  intros g [<-|[<-|[<-|[<-|[]]]]]; discriminate.
Defined.

Lemma compute_all_table_witness :
  fst (rolling_stats_computer.compute_all "NBA" ∅ ∅ samples.series)
  = rolling_stats_computer.written
      (rolling_stats_computer.replay_games "NBA" ∅ ∅ samples.series) /\
  NoDup (map rolling_stats_computer.row_key
           (fst (rolling_stats_computer.compute_all "NBA" ∅ ∅ samples.series))) /\
  snd (rolling_stats_computer.compute_all "NBA" ∅ ∅ samples.series)
  = Z.of_nat (length (fst (rolling_stats_computer.compute_all "NBA" ∅ ∅ samples.series))).
Proof.
  apply compute_all_table.
  - cbn. repeat constructor; rewrite ?elem_of_cons, ?elem_of_nil; intuition discriminate.
  - intros g [<-|[<-|[<-|[<-|[]]]]]; discriminate.
Defined.

Lemma rows_written_at_game_witness :
  exists home_row away_row,
    rolling_stats_computer.written
      (rolling_stats_computer.replay_games "NBA" ∅ ∅ (samples.doubleheader ++ [samples.fourth_game]))
    = rolling_stats_computer.written
        (rolling_stats_computer.replay_games "NBA" ∅ ∅ samples.doubleheader)
      ++ [home_row; away_row] /\
    TeamRollingStats.games_played home_row = 2%Z /\
    TeamRollingStats.games_played away_row = 1%Z.
Proof.
  destruct (rows_written_at_game "NBA" ∅ ∅ samples.doubleheader samples.fourth_game)
    as (home_row & away_row & Hw & _ & _ & _ & _ & Hh & Ha & _).
  - intros g [<-|[<-|[]]]; discriminate.
  - reflexivity.
  - exists home_row, away_row. split; [exact Hw|]. split; [exact Hh | exact Ha].
Defined.

(** ** More on the feature queries *)

Section features_more.
Import feature_engineer.
Local Open Scope Q_scope.

Lemma insert_desc_descending {A} (key : A -> Q) x l :
  StronglySorted (fun a b => key b <= key a) l ->
  StronglySorted (fun a b => key b <= key a) (insert_desc key x l).
Proof.
  induction 1 as [|y l Hs IH Hy]; cbn [insert_desc].
  - repeat constructor.
  - destruct (Qle_bool (key y) (key x)) eqn:E.
    + apply Qle_bool_iff in E. constructor; [constructor; assumption|].
      constructor; [exact E|].
      rewrite List.Forall_forall in *. intros z Hz. specialize (Hy z Hz). lra.
    + assert (Hlt : key x < key y).
      { apply Qnot_le_lt. intros H. apply Qle_bool_iff in H. congruence. }
      constructor; [exact IH|].
      rewrite List.Forall_forall in *. intros z Hz.
      apply (Permutation_in _ (insert_desc_perm key x l)) in Hz.
      destruct Hz as [<-|Hz]; [lra | exact (Hy z Hz)].
Qed.

Lemma sorted_reverse_descending {A} (key : A -> Q) l :
  StronglySorted (fun a b => key b <= key a) (sorted_reverse key l).
Proof.
  induction l as [|x l IH]; cbn [sorted_reverse fold_right]; [constructor|].
  apply insert_desc_descending, IH.
Qed.

Lemma order_by_desc_descending {A} (key : A -> Z) l :
  StronglySorted (fun a b => (key b <= key a)%Z) (order_by_desc key l).
Proof.
  pose proof (sorted_reverse_descending (fun r => inject_Z (key r)) l) as H.
  unfold order_by_desc. induction H as [|a s Hs IH Ha]; constructor; [exact IH|].
  rewrite List.Forall_forall in *. intros b Hb. rewrite Zle_Qle. exact (Ha b Hb).
Qed.

Lemma strongly_sorted_app_inv {A} (R : A -> A -> Prop) l1 l2 :
  StronglySorted R (l1 ++ l2) ->
  StronglySorted R l1 /\ forall a b, In a l1 -> In b l2 -> R a b.
Proof.
  induction l1 as [|x l1 IH]; cbn [app]; intros Hs.
  - split; [constructor | intros a b []].
  - inversion Hs as [|? ? Hs' Hx]; subst. destruct (IH Hs') as [IH1 IH2]. split.
    + constructor; [exact IH1|]. rewrite List.Forall_forall in *.
      intros y Hy. apply Hx, in_app_iff. left. exact Hy.
    + intros a b [<-|Ha] Hb; [|exact (IH2 a b Ha Hb)].
      rewrite List.Forall_forall in Hx. apply Hx, in_app_iff. right. exact Hb.
Qed.

(** X16.  [_get_team_last_n_games] returns the [n] most recent final games
    of the team before the date (all of them when there are fewer), newest
    first: every game returned is a final game of the team dated strictly
    before [before_date], and every such game left out is no more recent
    than any game returned. *)
Theorem last_n_games_are_most_recent (self : FeatureEngineer) (team_id : Z) (n : nat)
    (before_date : Z) :
  let result := _get_team_last_n_games self team_id n before_date in
  length result = Nat.min n (length (prior_games self team_id before_date)) /\
  List.Forall (fun g => In g (games (db self)) /\
                        plays team_id g = true /\ is_final g = true /\
                        (Game.game_date g < before_date)%Z) result /\
  StronglySorted (fun a b => (Game.game_date b <= Game.game_date a)%Z) result /\
  exists rest,
    Permutation (result ++ rest) (prior_games self team_id before_date) /\
    forall r g, In r result -> In g rest -> (Game.game_date g <= Game.game_date r)%Z.
Proof.
  intros result. unfold result, _get_team_last_n_games.
  set (prior := prior_games self team_id before_date).
  pose proof (order_by_desc_descending Game.game_date prior) as Hs.
  assert (Hp : Permutation (order_by_desc Game.game_date prior) prior)
    by apply sorted_reverse_perm.
  rewrite <- (firstn_skipn n (order_by_desc Game.game_date prior)) in Hs, Hp.
  destruct (strongly_sorted_app_inv _ _ _ Hs) as [Hs1 Hcross].
  split; [rewrite length_firstn, order_by_desc_length; reflexivity|].
  split; [|split; [exact Hs1|]].
  - apply List.Forall_forall. intros g Hg.
    assert (Hin : In g prior).
    { apply (Permutation_in _ Hp), in_app_iff. left. exact Hg. }
    apply List.filter_In in Hin. destruct Hin as [Hin Hb].
    apply andb_true_iff in Hb. destruct Hb as [Hb Hd].
    apply andb_true_iff in Hb. destruct Hb as [Hpl Hf].
    apply Z.ltb_lt in Hd. auto.
  - exists (skipn n (order_by_desc Game.game_date prior)). split; [exact Hp|].
    intros r g Hr Hg. exact (Hcross r g Hr Hg).
Qed.

Lemma min_7_range x : 0 <= x -> 0 <= min x 7 <= 7.
Proof.
  intros Hx. unfold min. destruct (Qle_bool x 7) eqn:E.
  - apply Qle_bool_iff in E. lra.
  - lra.
Qed.

Lemma min_7_le x : min x 7 <= 7.
Proof.
  unfold min. destruct (Qle_bool x 7) eqn:E; [apply Qle_bool_iff in E; lra | lra].
Qed.

Lemma days_between_nonneg a b : (b <= a)%Z -> (0 <= inject_Z (days_between a b)).
Proof.
  intros H. change 0 with (inject_Z 0). rewrite <- Zle_Qle. unfold days_between.
  apply Z.div_pos; lia.
Qed.

(** X17.  Rest days are whole days capped at 7: never more than 7, not
    negative when the last game is not after the game, and 3 when there is no
    last game; on the legacy path, where the last game comes from
    [_get_team_last_n_games], the value always lies between 0 and 7. *)
Theorem rest_days_range (self : FeatureEngineer) (team_id : Z) (n : nat) (game_date : Z) :
  (forall last, _calc_rest_days_from_dates game_date last <= 7) /\
  (forall d, (d <= game_date)%Z ->
             0 <= _calc_rest_days_from_dates game_date (Some d)) /\
  _calc_rest_days_from_dates game_date None == 3 /\
  0 <= _calc_rest_days game_date (_get_team_last_n_games self team_id n game_date) <= 7.
Proof.
  split; [|split; [|split]].
  - intros [d|]; cbn [_calc_rest_days_from_dates]; [apply min_7_le | lra].
  - intros d Hd. cbn [_calc_rest_days_from_dates].
    apply min_7_range, days_between_nonneg, Hd.
  - reflexivity.
  - unfold _calc_rest_days.
    destruct (_get_team_last_n_games self team_id n game_date) as [|g l] eqn:E; [lra|].
    apply min_7_range, days_between_nonneg.
    assert (Hin : In g (prior_games self team_id game_date)).
    { unfold _get_team_last_n_games in E.
      apply (Permutation_in _ (sorted_reverse_perm (fun r => inject_Z (Game.game_date r)) _)).
      rewrite <- (firstn_skipn n (sorted_reverse _ _)). apply in_app_iff. left.
      unfold order_by_desc in E. rewrite E. left. reflexivity. }
    apply List.filter_In in Hin. destruct Hin as [_ Hb].
    apply andb_true_iff in Hb. destruct Hb as [_ Hd]. apply Z.ltb_lt in Hd. lia.
Qed.

Lemma count_fraction {A} (f : A -> bool) (l : list A) :
  l <> [] ->
  0 <= inject_Z (Z.of_nat (length (List.filter f l))) / inject_Z (Z.of_nat (length l)) <= 1.
Proof.
  intros Hne.
  assert (Hlen : (0 < length l)%nat) by (destruct l; [congruence|cbn; lia]).
  pose proof (List.filter_length_le f l) as Hle.
  assert (H0 : 0 < inject_Z (Z.of_nat (length l))).
  { change 0 with (inject_Z 0). rewrite <- Zlt_Qlt. lia. }
  assert (H1 : 0 <= inject_Z (Z.of_nat (length (List.filter f l)))).
  { change 0 with (inject_Z 0). rewrite <- Zle_Qle. lia. }
  assert (H2 : inject_Z (Z.of_nat (length (List.filter f l)))
               <= inject_Z (Z.of_nat (length l))).
  { rewrite <- Zle_Qle. lia. }
  split.
  - apply Qle_shift_div_l; [exact H0|]. lra.
  - apply Qle_shift_div_r; [exact H0|]. lra.
Qed.

(** X18.  The legacy win rates are fractions: [_calc_win_pct] and the
    head-to-head rate lie between 0 and 1 for every list of games, and both
    are 0.5 when the list is empty. *)
Theorem legacy_win_rates_are_fractions (team_id : Z) (game : Game.t) (games : list Game.t) :
  0 <= _calc_win_pct team_id games <= 1 /\
  0 <= h2h_home_wins_last5 game games <= 1 /\
  _calc_win_pct team_id [] == 1 # 2 /\
  h2h_home_wins_last5 game [] == 1 # 2.
Proof.
  split; [|split; [|split; reflexivity]].
  - unfold _calc_win_pct. destruct games as [|g l]; [lra|].
    apply count_fraction. discriminate.
  - unfold h2h_home_wins_last5. destruct games as [|g l]; [lra|].
    set (gs := g :: l).
    assert (Hmax : max (inject_Z (Z.of_nat (length gs))) 1
                   == inject_Z (Z.of_nat (length gs))).
    { unfold max.
      destruct (Qle_bool (inject_Z (Z.of_nat (length gs))) 1) eqn:E; [|reflexivity].
      apply Qle_bool_iff in E. change 1 with (inject_Z 1) in E. rewrite <- Zle_Qle in E.
      assert (length gs = 1%nat) as -> by (cbn [gs length] in *; lia). reflexivity. }
    rewrite Hmax. apply count_fraction. discriminate.
Qed.

Lemma list_to_map_key {A} (l : list (string * A)) (name : string) :
  In name (map fst l) -> is_Some ((list_to_map l : gmap string A) !! name).
Proof.
  intros Hin. destruct ((list_to_map l : gmap string A) !! name) eqn:E; [eauto|].
  apply not_elem_of_list_to_map_2 in E. exfalso. apply E, list_elem_of_In, Hin.
Qed.

Lemma registry_prefixed s l :
  SPORT_FEATURE_REGISTRY !! s = Some l ->
  List.Forall (fun feat => String.prefix "home_" feat = true \/
                           String.prefix "away_" feat = true) l.
Proof.
  intros E. apply elem_of_list_to_map_2 in E.
  repeat (apply elem_of_cons in E; destruct E as [E|E];
          [injection E as _ ->;
           repeat constructor; first [left; reflexivity | right; reflexivity]|]).
  apply elem_of_nil in E. destruct E.
Qed.

Lemma sport_features_keys hs as_ (feats : list string) (features : gmap string Q) name :
  List.Forall (fun feat => String.prefix "home_" feat = true \/
                           String.prefix "away_" feat = true) feats ->
  In name feats \/ is_Some (features !! name) ->
  is_Some (fold_left (sport_feature hs as_) feats features !! name).
Proof.
  intros Hall. revert features.
  induction Hall as [|feat feats Hfeat _ IH]; intros features; cbn [fold_left].
  - intros [[]|H]. exact H.
  - intros H. apply IH.
    destruct H as [[<-|H]|H]; [right|left; exact H|right].
    + unfold sport_feature. destruct Hfeat as [-> | Hf].
      * rewrite lookup_insert_eq. eauto.
      * destruct (String.prefix "home_" feat); [rewrite lookup_insert_eq; eauto|].
        rewrite Hf, lookup_insert_eq. eauto.
    + unfold sport_feature.
      destruct (String.prefix "home_" feat);
        [|destruct (String.prefix "away_" feat)]; try exact H;
        (destruct (decide (feat = name)) as [->|Hne];
         [rewrite lookup_insert_eq; eauto | rewrite lookup_insert_ne by exact Hne; exact H]).
Qed.

Lemma zero_features_keys (feats : list string) (features : gmap string Q) name :
  In name feats \/ is_Some (features !! name) ->
  is_Some (fold_left (fun d feat => <[feat := 0]> d) feats features !! name).
Proof.
  revert features. induction feats as [|feat feats IH]; intros features; cbn [fold_left].
  - intros [[]|H]. exact H.
  - intros H. apply IH.
    destruct (decide (feat = name)) as [->|Hne].
    + right. rewrite lookup_insert_eq. eauto.
    + destruct H as [[E|H]|H]; [contradiction|left; exact H|right].
      rewrite lookup_insert_ne by exact Hne. exact H.
Qed.

Lemma to_array_total (self : FeatureEngineer) (features : gmap string Q) :
  (forall name, In name (FEATURE_NAMES self) -> is_Some (features !! name)) ->
  exists arr, to_array self features = Some arr /\
              length arr = length (FEATURE_NAMES self).
Proof.
  intros Hall. unfold to_array.
  destruct (mapM_is_Some_2 (fun name => features !! name) (FEATURE_NAMES self)) as [arr E].
  { apply List.Forall_forall. intros name Hin. exact (Hall name Hin). }
  exists arr. split; [exact E|]. apply mapM_Some_1, Forall2_length in E.
  symmetry. exact E.
Qed.

(** X19.  [to_array] never fails on a dict that [compute_features] of the
    same engineer returned, whichever path produced it and whatever the sport
    setting: every name of [FEATURE_NAMES] is a key of the dict, and the
    array has one entry per name. *)
Theorem to_array_of_computed_features (db_ : database) (sport_ : option string)
    (game : Game.t) :
  let self := __init__ db_ sport_ in
  match compute_features self game with
  | Returned (Some features) =>
      exists arr, to_array self features = Some arr /\
                  length arr = length (FEATURE_NAMES self)
  | _ => True
  end.
Proof.
  intros self.
  assert (Hlegacy : match _compute_features_legacy self game with
                    | Returned (Some features) =>
                        forall name, In name (FEATURE_NAMES self) ->
                                     is_Some (features !! name)
                    | _ => True
                    end).
  { unfold _compute_features_legacy.
    destruct (get_team self (Game.home_team_id game)) as [home_team|]; [|exact I].
    destruct (get_team self (Game.away_team_id game)) as [away_team|]; [|exact I].
    destruct (_ || _); [exact I|].
    destruct (sport_config.get_sport_config (Game.sport game)) as [config|]; [|exact I].
    unfold self. cbn [__init__ sport FEATURE_NAMES].
    destruct (sport_set sport_) as [s|].
    - intros name Hin. apply zero_features_keys. apply in_app_iff in Hin.
      destruct Hin as [Hin|Hin]; [right|left; exact Hin].
      apply list_to_map_key. exact Hin.
    - intros name Hin. apply list_to_map_key. exact Hin. }
  unfold compute_features.
  assert (Hdone : match _compute_features_legacy self game with
                  | Returned (Some features) =>
                      exists arr, to_array self features = Some arr /\
                                  length arr = length (FEATURE_NAMES self)
                  | _ => True
                  end).
  { destruct (_compute_features_legacy self game) as [[features|]|]; try exact I.
    apply to_array_total, Hlegacy. }
  destruct (sport_set (sport self)) as [s|] eqn:Hs; [|exact Hdone].
  destruct (_compute_features_from_rolling_stats self game) as [result|] eqn:Hr;
    [|exact Hdone].
  apply to_array_total. intros name Hin.
  unfold _compute_features_from_rolling_stats in Hr.
  destruct (_get_rolling_stats self (Game.home_team_id game) _ _) as [home_stats|];
    [|discriminate].
  destruct (_get_rolling_stats self (Game.away_team_id game) _ _) as [away_stats|];
    [|discriminate].
  destruct (_ || _); [discriminate|].
  pose proof (f_equal (fun o => match o with Some m => m | None => ∅ end) Hr) as E.
  cbv beta iota zeta in E. rewrite <- E, Hs. cbn [from_option]. unfold Datatypes.id.
  unfold self in Hin, Hs. cbn [__init__ sport FEATURE_NAMES] in Hin, Hs. rewrite Hs in Hin.
  apply in_app_iff in Hin.
  apply sport_features_keys.
  - destruct (SPORT_FEATURE_REGISTRY !! s) as [l|] eqn:El; cbn [from_option];
      [|constructor].
    exact (registry_prefixed s l El).
  - destruct Hin as [Hin|Hin]; [right|left; exact Hin].
    apply list_to_map_key. exact Hin.
Qed.

End features_more.

(** ** More on the period allocation and the prediction *)

Section prediction_more.
Import prediction_engine.
Local Open Scope Q_scope.

Lemma sum_insert_add (l : list Q) i s :
  (i < length l)%nat -> sum (<[i := nth i l 0 + s]> l) == sum l + s.
Proof.
  revert i. induction l as [|a l IH]; intros [|i] Hi; cbn [length] in Hi; try lia.
  - cbn. ring.
  - cbn [nth]. change (<[S i := nth i l 0 + s]> (a :: l))
      with (a :: <[i := nth i l 0 + s]> l).
    cbn [sum fold_right]. fold (sum (<[i := nth i l 0 + s]> l)). fold (sum l).
    rewrite IH by lia. ring.
Qed.

Lemma add_periods_invariant scores (idxs : list nat) (totals : list Q) r :
  List.Forall (fun i => (i < length totals)%nat) idxs ->
  let out := fold_left (add_period scores) idxs (totals, r) in
  length (fst out) = length totals /\ sum (fst out) - snd out == sum totals - r.
Proof.
  revert totals r. induction idxs as [|i idxs IH]; intros totals r Hall; cbn zeta.
  - cbn [fold_left fst snd]. split; reflexivity.
  - inversion Hall as [|? ? Hi Hrest]; subst. cbn [fold_left].
    unfold add_period at 2. cbn [fst snd].
    destruct (IH (<[i := nth i totals 0 + nth i scores 0]> totals) (r + nth i scores 0))
      as [Hlen Hsum].
    { rewrite length_insert. exact Hrest. }
    cbn zeta in Hlen, Hsum. rewrite length_insert in Hlen. split; [exact Hlen|].
    rewrite Hsum, sum_insert_add by exact Hi. ring.
Qed.

Lemma tally_game_invariant team_id num_periods acc g :
  length (period_totals acc) = num_periods ->
  sum (period_totals acc) == total_regulation_points acc ->
  length (period_totals (tally_game team_id num_periods acc g)) = num_periods /\
  sum (period_totals (tally_game team_id num_periods acc g))
  == total_regulation_points (tally_game team_id num_periods acc g).
Proof.
  intros Hlen Hsum. unfold tally_game.
  destruct (if (Game.home_team_id g =? team_id)%Z
            then Game.home_period_scores g else Game.away_period_scores g)
    as [[|s0 scores]|]; try (split; assumption).
  destruct (num_periods <=? length (s0 :: scores))%nat; [|split; assumption].
  destruct (add_periods_invariant (s0 :: scores) (seq 0 num_periods) (period_totals acc) 0)
    as [Hl Hs].
  { apply List.Forall_forall. intros i Hi. apply in_seq in Hi. lia. }
  cbn zeta in Hl, Hs.
  destruct (fold_left (add_period (s0 :: scores)) (seq 0 num_periods) (period_totals acc, 0))
    as [totals regulation_sum].
  cbn [fst snd period_totals total_regulation_points] in *.
  split; [congruence|]. lra.
Qed.

Lemma tally_invariant team_id num_periods games acc :
  length (period_totals acc) = num_periods ->
  sum (period_totals acc) == total_regulation_points acc ->
  length (period_totals (fold_left (tally_game team_id num_periods) games acc)) = num_periods /\
  sum (period_totals (fold_left (tally_game team_id num_periods) games acc))
  == total_regulation_points (fold_left (tally_game team_id num_periods) games acc).
Proof.
  revert acc. induction games as [|g games IH]; intros acc Hlen Hsum; cbn [fold_left].
  - split; assumption.
  - destruct (tally_game_invariant team_id num_periods acc g Hlen Hsum) as [H1 H2].
    apply IH; assumption.
Qed.

Lemma sum_map_div (l : list Q) d : sum (map (fun x => x / d) l) == sum l / d.
Proof.
  induction l as [|a l IH]; cbn [map sum fold_right].
  - unfold Qdiv. ring.
  - fold (sum (map (fun x => x / d) l)). fold (sum l). rewrite IH. unfold Qdiv. ring.
Qed.

Lemma add_periods_length scores (idxs : list nat) (totals : list Q) r :
  length (fst (fold_left (add_period scores) idxs (totals, r))) = length totals.
Proof.
  revert totals r. induction idxs as [|i idxs IH]; intros totals r; [reflexivity|].
  cbn [fold_left]. unfold add_period at 2. cbn [fst snd].
  rewrite IH. apply length_insert.
Qed.

Lemma add_periods_values scores n (totals : list Q) r :
  (n <= length totals)%nat ->
  (forall i, nth i (fst (fold_left (add_period scores) (seq 0 n) (totals, r))) 0
             == nth i totals 0 + (if (i <? n)%nat then nth i scores 0 else 0)) /\
  snd (fold_left (add_period scores) (seq 0 n) (totals, r))
  == r + sum (map (fun i => nth i scores 0) (seq 0 n)).
Proof.
  induction n as [|n IH]; intros Hn.
  - cbn [seq fold_left fst snd map]. split; [intros i|]; cbn; ring.
  - destruct IH as [IH1 IH2]; [lia|].
    pose proof (add_periods_length scores (seq 0 n) totals r) as Hlen.
    rewrite seq_S, fold_left_app, map_app, sum_app. cbn [fold_left Nat.add map].
    set (out := fold_left (add_period scores) (seq 0 n) (totals, r)) in *.
    unfold add_period. cbn [fst snd]. split.
    + intros i. rewrite nth_lookup. destruct (decide (i = n)) as [->|Hne].
      * rewrite list_lookup_insert_eq by lia. cbn [default from_option].
        unfold Datatypes.id. rewrite (IH1 n).
        rewrite Nat.ltb_irrefl, (proj2 (Nat.ltb_lt n (S n))) by lia. ring.
      * rewrite list_lookup_insert_ne by congruence. rewrite <- nth_lookup, (IH1 i).
        destruct (Nat.ltb_spec i n), (Nat.ltb_spec i (S n)); try lia; reflexivity.
    + rewrite IH2. cbn [sum fold_right]. ring.
Qed.

Lemma sum_nth_firstn (s : list Q) n :
  (n <= length s)%nat -> sum (map (fun i => nth i s 0) (seq 0 n)) == sum (firstn n s).
Proof.
  induction n as [|n IH]; intros Hn; [reflexivity|].
  destruct (lookup_lt_is_Some_2 s n) as [x Hx]; [lia|].
  rewrite seq_S, map_app, sum_app, (take_S_r _ _ _ Hx), sum_app, IH by lia.
  cbn [Nat.add map]. rewrite (nth_lookup_Some _ _ _ _ Hx). reflexivity.
Qed.

(** One iteration of the loop, by the period scores it uses. *)
Lemma tally_game_usable team_id num_periods acc g :
  (num_periods <= length (period_totals acc))%nat ->
  length (period_totals (tally_game team_id num_periods acc g)) = length (period_totals acc) /\
  match usable_period_scores team_id num_periods g with
  | Some scores =>
      (forall i, (i < num_periods)%nat ->
         nth i (period_totals (tally_game team_id num_periods acc g)) 0
         == nth i (period_totals acc) 0 + nth i scores 0) /\
      total_regulation_points (tally_game team_id num_periods acc g)
      == total_regulation_points acc + sum (firstn num_periods scores) /\
      valid_count (tally_game team_id num_periods acc g) = S (valid_count acc)
  | None => tally_game team_id num_periods acc g = acc
  end.
Proof.
  intros Hlen. unfold tally_game, usable_period_scores.
  destruct (if (Game.home_team_id g =? team_id)%Z
            then Game.home_period_scores g else Game.away_period_scores g)
    as [[|s0 scores]|]; try (split; reflexivity).
  destruct (Nat.leb_spec num_periods (length (s0 :: scores))) as [Hn|Hn];
    [|split; reflexivity].
  pose proof (add_periods_length (s0 :: scores) (seq 0 num_periods) (period_totals acc) 0)
    as Hl.
  destruct (add_periods_values (s0 :: scores) num_periods (period_totals acc) 0 Hlen)
    as [Hv Hr].
  destruct (fold_left (add_period (s0 :: scores)) (seq 0 num_periods) (period_totals acc, 0))
    as [totals regulation_sum].
  cbn [fst snd period_totals total_regulation_points valid_count] in *.
  split; [exact Hl|]. split; [|split; [|reflexivity]].
  - intros i Hi. rewrite (Hv i), (proj2 (Nat.ltb_lt i num_periods) Hi). reflexivity.
  - rewrite Hr, sum_nth_firstn by exact Hn. ring.
Qed.

(** The loop, by the period scores it uses. *)
Lemma tally_values team_id num_periods games acc :
  (num_periods <= length (period_totals acc))%nat ->
  (forall i, (i < num_periods)%nat ->
     nth i (period_totals (fold_left (tally_game team_id num_periods) games acc)) 0
     == nth i (period_totals acc) 0
        + period_points (omap (usable_period_scores team_id num_periods) games) i) /\
  total_regulation_points (fold_left (tally_game team_id num_periods) games acc)
  == total_regulation_points acc
     + regulation_points num_periods (omap (usable_period_scores team_id num_periods) games) /\
  valid_count (fold_left (tally_game team_id num_periods) games acc)
  = (valid_count acc
     + length (omap (usable_period_scores team_id num_periods) games))%nat.
Proof.
  revert acc. induction games as [|g games IH]; intros acc Hlen.
  - cbn [fold_left omap]. unfold period_points, regulation_points. cbn.
    split; [intros; ring|]. split; [ring|lia].
  - cbn [fold_left].
    destruct (tally_game_usable team_id num_periods acc g Hlen) as [Hl Hg].
    destruct (IH (tally_game team_id num_periods acc g)) as (H1 & H2 & H3); [lia|].
    change (omap (usable_period_scores team_id num_periods) (g :: games))
      with (match usable_period_scores team_id num_periods g with
            | Some y => y :: omap (usable_period_scores team_id num_periods) games
            | None => omap (usable_period_scores team_id num_periods) games
            end).
    destruct (usable_period_scores team_id num_periods g) as [scores|].
    + destruct Hg as (G1 & G2 & G3). split; [|split].
      * intros i Hi. rewrite (H1 i Hi), (G1 i Hi).
        unfold period_points. cbn [map]. rewrite sum_cons. ring.
      * rewrite H2, G2. unfold regulation_points. cbn [map]. rewrite sum_cons. ring.
      * rewrite H3, G3. cbn [length]. lia.
    + rewrite Hg in *. split; [exact H1|]. split; [exact H2 | exact H3].
Qed.

(** The shares: one per period, summing to 1; with usable stored scores
    worth more than zero points they are the points of each period over the
    regulation points, otherwise they are equal. *)
Lemma period_shares (games : list Game.t) (team_id : Z) (num_periods : nat) :
  match num_periods with
  | O => _get_period_percentages games team_id num_periods = None
  | S _ =>
      exists pcts,
        _get_period_percentages games team_id num_periods = Some pcts /\
        length pcts = num_periods /\ sum pcts == 1 /\
        (let stored := stored_period_scores games team_id num_periods in
         (stored <> [] /\ 0 < regulation_points num_periods stored ->
          forall i, (i < num_periods)%nat ->
            nth i pcts 0
            == period_points stored i / regulation_points num_periods stored) /\
         (stored = [] \/ regulation_points num_periods stored <= 0 ->
          pcts = repeat (1 / inject_Z (Z.of_nat num_periods)) num_periods))
  end.
Proof.
  unfold _get_period_percentages, stored_period_scores.
  change (firstn 20 _) with (recent_final_games games team_id).
  set (recent := recent_final_games games team_id).
  set (start := {| period_totals := repeat 0 num_periods;
                   total_regulation_points := 0; valid_count := 0 |}).
  assert (Hlen0 : length (period_totals start) = num_periods) by apply repeat_length.
  destruct (tally_invariant team_id num_periods recent start Hlen0) as [Hlen Hsum].
  { cbn [period_totals total_regulation_points start]. rewrite sum_repeat. ring. }
  destruct (tally_values team_id num_periods recent start) as (Hv & Hr & Hc); [lia|].
  set (stored := omap (usable_period_scores team_id num_periods) recent) in *.
  set (t := fold_left _ recent start) in *.
  cbn [start total_regulation_points valid_count] in Hr, Hc.
  assert (HT : total_regulation_points t == regulation_points num_periods stored)
    by (rewrite Hr; ring).
  destruct ((0 <? valid_count t)%nat && negb (Qle_bool (total_regulation_points t) 0)) eqn:E.
  - apply andb_true_iff in E. destruct E as [Hcount Hpos].
    apply Nat.ltb_lt in Hcount. apply negb_true_iff in Hpos.
    assert (Hp : 0 < total_regulation_points t).
    { apply Qnot_le_lt. intros H. apply Qle_bool_iff in H. congruence. }
    destruct num_periods as [|n].
    + exfalso. destruct (period_totals t); [|discriminate]. cbn in Hsum. lra.
    + eexists. split; [reflexivity|]. split; [rewrite length_map; exact Hlen|].
      split; [rewrite sum_map_div, Hsum; field; lra|].
      cbv zeta. split.
      * intros _ i Hi.
        rewrite (nth_indep _ 0 (0 / total_regulation_points t))
          by (rewrite length_map; lia).
        rewrite (map_nth (fun pt => pt / total_regulation_points t)).
        rewrite (Hv i Hi), HT.
        cbn [start period_totals]. rewrite nth_repeat. unfold Qdiv. ring.
      * intros [Hnil|Hle]; exfalso.
        -- rewrite Hnil in Hc. cbn in Hc. lia.
        -- lra.
  - assert (Hnone : stored = [] \/ regulation_points num_periods stored <= 0).
    { apply andb_false_iff in E. destruct E as [E|E].
      - left. apply Nat.ltb_ge in E. destruct stored; [reflexivity|].
        cbn [length] in Hc. lia.
      - right. apply negb_false_iff, Qle_bool_iff in E. lra. }
    destruct num_periods as [|n]; [reflexivity|].
    eexists. split; [reflexivity|]. split; [apply repeat_length|]. split.
    + rewrite sum_repeat.
      assert (0 < inject_Z (Z.of_nat (S n))).
      { change 0 with (inject_Z 0). rewrite <- Zlt_Qlt. lia. }
      field. lra.
    + cbv zeta. split; [|reflexivity].
      intros [Hne Hpos]. exfalso. destruct Hnone as [Hnil|Hle]; [contradiction | lra].
Qed.


Lemma configured_periods sport config :
  sport_config.get_sport_config sport = Some config ->
  (0 < sport_config.num_periods config < 10)%nat.
Proof.
  unfold sport_config.get_sport_config. intros E.
  apply elem_of_list_to_map_2 in E.
  repeat (apply elem_of_cons in E; destruct E as [E|E];
          [injection E as _ ->; cbn; lia|]).
  apply elem_of_nil in E. destruct E.
Qed.

Lemma round_ndigits_Z (z : Z) n : round_ndigits (inject_Z z) n == inject_Z z.
Proof.
  unfold round_ndigits. rewrite <- inject_Z_mult, round_half_even_Z, inject_Z_mult.
  pose proof (pow10_pos n). field. lra.
Qed.

(** X21.  For a game of a configured sport [_compute_period_predictions]
    never fails: it returns one value per period of the sport for each team,
    each value [round(v / 10, 1)] of a whole number [v] of tenths, and each
    team's tenths sum exactly to the tenths of its predicted score rounded to
    one decimal, hence to ten times the score when it is a whole number, as
    the scores [predict_game] passes are.  (The statement is about the
    integer tenths; the floats returned need not add up to the score in the
    last bit.)  For a sport that is not configured it raises. *)
Theorem period_predictions_sum_to_scores (games : list Game.t) (game : Game.t)
    (predicted_home_score predicted_away_score : Q) :
  match sport_config.get_sport_config (Game.sport game) with
  | None =>
      _compute_period_predictions games game predicted_home_score predicted_away_score
      = None
  | Some config =>
      exists home_tenths away_tenths : list Z,
        _compute_period_predictions games game predicted_home_score predicted_away_score
        = Some (map period_value home_tenths, map period_value away_tenths) /\
        length home_tenths = sport_config.num_periods config /\
        length away_tenths = sport_config.num_periods config /\
        sumZ home_tenths = round_half_even (round_ndigits predicted_home_score 1 * 10) /\
        sumZ away_tenths = round_half_even (round_ndigits predicted_away_score 1 * 10) /\
        (forall h : Z, predicted_home_score = inject_Z h -> sumZ home_tenths = (10 * h)%Z) /\
        (forall a : Z, predicted_away_score = inject_Z a -> sumZ away_tenths = (10 * a)%Z)
  end.
Proof.
  unfold _compute_period_predictions.
  destruct (sport_config.get_sport_config (Game.sport game)) as [config|] eqn:Ec;
    [|reflexivity].
  pose proof (configured_periods _ _ Ec) as Hn.
  pose proof (period_shares games (Game.home_team_id game)
                (sport_config.num_periods config)) as Hh.
  pose proof (period_shares games (Game.away_team_id game)
                (sport_config.num_periods config)) as Ha.
  destruct (sport_config.num_periods config) as [|n] eqn:En; [lia|].
  destruct Hh as (home_pcts & -> & Hhl & Hhs & _).
  destruct Ha as (away_pcts & -> & Hal & Has & _).
  destruct (distribute_score_tenths predicted_home_score home_pcts Hhs)
    as (home_tenths & -> & Hl1 & Hs1 & _); [lia|].
  destruct (distribute_score_tenths predicted_away_score away_pcts Has)
    as (away_tenths & -> & Hl2 & Hs2 & _); [lia|].
  exists home_tenths, away_tenths.
  split; [reflexivity|]. split; [congruence|]. split; [congruence|].
  split; [exact Hs1|]. split; [exact Hs2|].
  assert (Hwhole : forall z : Z, round_half_even (round_ndigits (inject_Z z) 1 * 10) = (10 * z)%Z).
  { intros z.
    assert (E : (round_ndigits (inject_Z z) 1 * 10 == inject_Z (10 * z))%Q).
    { rewrite round_ndigits_Z, inject_Z_mult. ring. }
    rewrite (round_half_even_comp _ _ E). apply round_half_even_Z. }
  split.
  - intros h ->. rewrite Hs1. apply Hwhole.
  - intros a ->. rewrite Hs2. apply Hwhole.
Qed.


Lemma bump_fold_none order (idxs : list nat) :
  fold_left (bump_at order) idxs None = None.
Proof. induction idxs as [|i idxs IH]; [reflexivity|exact IH]. Qed.

(** X22.  [_distribute_score] raises IndexError exactly when more tenths
    are missing than there are periods (the shortfall exceeds the number of
    shares, as with no shares and a positive total); otherwise it returns one
    value per share, and the values sum to the floored tenths plus the
    shortfall when it is positive: nothing is taken back when the floors
    already exceed the target.  The values are [round(v / 10, 1)] of integer
    tenths [v], and the count holds of these integers. *)
Theorem distribute_score_failure (total : Q) (pcts : list Q) :
  (_distribute_score total pcts = None <->
   (Z.of_nat (length pcts) < shortfall total pcts)%Z) /\
  (forall out,
     _distribute_score total pcts = Some out ->
     length out = length pcts /\
     sum out == inject_Z (sumZ (map (floor_tenth total) pcts)
                          + Z.max 0 (shortfall total pcts)) / 10 /\
     exists tenths,
       out = map period_value tenths /\
       sumZ tenths = (sumZ (map (floor_tenth total) pcts)
                      + Z.max 0 (shortfall total pcts))%Z).
Proof.
  unfold _distribute_score. rewrite !map_map.
  change (map (fun x => Qfloor (round_ndigits (total * x * 10) 6)) pcts)
    with (map (floor_tenth total) pcts).
  change (round_half_even (round_ndigits total 1 * 10)
          - sumZ (map (floor_tenth total) pcts))%Z
    with (shortfall total pcts).
  set (s := shortfall total pcts).
  set (fl := map (floor_tenth total) pcts).
  assert (Hfl : length fl = length pcts) by apply length_map.
  rewrite length_map.
  set (order := sorted_reverse _ (seq 0 (length pcts))).
  assert (Hperm : Permutation order (seq 0 (length pcts))) by apply sorted_reverse_perm.
  assert (Hord : length order = length pcts).
  { rewrite (Permutation_length Hperm). apply length_seq. }
  assert (Hok : forall k, (k <= length pcts)%nat ->
            exists t', fold_left (bump_at order) (seq 0 k) (Some fl) = Some t' /\
                       length t' = length fl /\
                       sumZ t' = (sumZ fl + Z.of_nat k)%Z).
  { intros k Hk.
    destruct (bump_fold order (seq 0 k) fl) as (t' & Hfold & Hlen' & Hsum' & _).
    { intros i Hi. apply in_seq in Hi.
      assert (Hi' : (i < length order)%nat) by lia.
      destruct (lookup_lt_is_Some_2 order i Hi') as [idx Hidx].
      exists idx. split; [exact Hidx|].
      apply list_elem_of_lookup_2, list_elem_of_In in Hidx.
      apply (Permutation_in _ Hperm), in_seq in Hidx. lia. }
    exists t'. rewrite length_seq in Hsum'. auto. }
  destruct (Z.ltb_spec 0 s) as [Hpos|Hneg].
  - destruct (Z_lt_le_dec (Z.of_nat (length pcts)) s) as [Hmany|Hfew].
    + assert (Hnone : fold_left (bump_at order) (seq 0 (Z.to_nat s)) (Some fl) = None).
      { replace (Z.to_nat s)
          with (length pcts + S (Z.to_nat s - length pcts - 1))%nat by lia.
        rewrite seq_app, fold_left_app.
        destruct (Hok (length pcts) (le_n _)) as (t' & -> & _).
        cbn [seq fold_left bump_at Nat.add].
        rewrite (lookup_ge_None_2 order (length pcts)) by lia.
        apply bump_fold_none. }
      rewrite Hnone. split; [split; [intros _; exact Hmany | reflexivity]|].
      intros out H. discriminate H.
    + destruct (Hok (Z.to_nat s)) as (t' & -> & Hlen' & Hsum'); [lia|].
      split; [split; [discriminate | lia]|].
      intros out [= <-]. rewrite length_map. split; [lia|]. split.
      * rewrite sum_tenths, Hsum', Z2Nat.id, Z.max_r by lia. reflexivity.
      * exists t'. split; [reflexivity|]. rewrite Hsum', Z2Nat.id, Z.max_r by lia.
        reflexivity.
  - split; [split; [discriminate | lia]|].
    intros out [= <-]. rewrite length_map. split; [exact Hfl|]. split.
    + rewrite sum_tenths, Z.max_l, Z.add_0_r by lia. reflexivity.
    + exists fl. split; [reflexivity|]. rewrite Z.max_l by lia. lia.
Qed.

Lemma round_half_even_monotone x y :
  x <= y -> (round_half_even x <= round_half_even y)%Z.
Proof.
  intros Hxy. destruct (Z_le_gt_dec (round_half_even x) (round_half_even y)) as [H|H];
    [exact H|].
  pose proof (round_half_even_bounds x) as [_ Hx].
  pose proof (round_half_even_bounds y) as [Hy _].
  assert (H1 : inject_Z (round_half_even y) + 1 <= inject_Z (round_half_even x)).
  { change 1 with (inject_Z 1). rewrite <- inject_Z_plus, <- Zle_Qle. lia. }
  assert (E : x == y) by lra.
  rewrite (round_half_even_comp _ _ E) in H. lia.
Qed.

Lemma round_ndigits_monotone x y n : x <= y -> round_ndigits x n <= round_ndigits y n.
Proof.
  intros Hxy. pose proof (pow10_pos n) as Hp. unfold round_ndigits.
  apply Qmult_le_compat_r; [|apply Qlt_le_weak, Qinv_lt_0_compat, Hp].
  rewrite <- Zle_Qle. apply round_half_even_monotone.
  apply Qmult_le_compat_r; [exact Hxy | lra].
Qed.

(** X23.  For a probability between 0 and 1 the confidence lies between 0
    and 0.9, and is at most 0.828 for a postseason game; it never decreases
    when the probability increases; and a postseason game never gets a
    higher confidence than a regular-season game on the same probability. *)
Theorem confidence_is_discounted (raw_prob : Q) (game : Game.t) :
  0 <= raw_prob <= 1 ->
  0 <= _apply_confidence raw_prob game <= 9 # 10 /\
  (Game.is_postseason game = true -> _apply_confidence raw_prob game <= 828 # 1000) /\
  (forall p, raw_prob <= p -> _apply_confidence raw_prob game <= _apply_confidence p game) /\
  (forall regular, Game.is_postseason game = true ->
                   Game.is_postseason regular = false ->
                   _apply_confidence raw_prob game <= _apply_confidence raw_prob regular).
Proof.
  intros [H0 H1]. unfold _apply_confidence.
  assert (G0 : round_ndigits 0 4 == 0) by reflexivity.
  assert (G9 : round_ndigits (9 # 10) 4 == 9 # 10) by reflexivity.
  assert (G8 : round_ndigits (828 # 1000) 4 == 828 # 1000) by reflexivity.
  split; [|split; [|split]].
  - destruct (Game.is_postseason game).
    + split; [rewrite <- G0 | rewrite <- G9]; apply round_ndigits_monotone; nra.
    + split; [rewrite <- G0 | rewrite <- G9]; apply round_ndigits_monotone; nra.
  - intros ->. rewrite <- G8. apply round_ndigits_monotone. nra.
  - intros p Hp. apply round_ndigits_monotone.
    destruct (Game.is_postseason game); nra.
  - intros regular -> ->. apply round_ndigits_monotone. nra.
Qed.

End prediction_more.


Lemma confidence_is_discounted_witness :
  (0 <= prediction_engine._apply_confidence (3 # 4) samples.opener <= 9 # 10)%Q.
Proof.
  refine (proj1 (confidence_is_discounted (3 # 4) samples.opener _)).
  split; discriminate.
Defined.

Section predict_more.
Import prediction_engine.
Local Open Scope R_scope.

Lemma round_real_nonneg x : 0 <= x -> (0 <= round_real x)%Z.
Proof.
  intros Hx. pose proof (round_real_nearest x) as [Hlo _].
  assert (H : -1 < IZR (round_real x)) by lra.
  apply lt_IZR in H. lia.
Qed.

(** X24.  [predict_game] never predicts a negative score or a tie: both
    integer scores are non-negative, they differ, the predicted total is at
    least 1, and the predicted spread is positive exactly when the home
    probability is at least 0.5 (and negative otherwise). *)
Theorem predicted_scores_are_valid (models : Models) (config : sport_config.SportConfig)
    (game : Game.t) (feature_array : list Q) :
  let r := predict_game models config game feature_array in
  let p := snd (win_predict_proba models feature_array) in
  (0 <= predicted_home_score r)%Z /\
  (0 <= predicted_away_score r)%Z /\
  predicted_home_score r <> predicted_away_score r /\
  1 <= predicted_total r /\
  (1 / 2 <= p -> 1 <= predicted_spread r) /\
  (p < 1 / 2 -> predicted_spread r <= -1).
Proof.
  intros r p. unfold r, predict_game. fold p.
  set (home0 := round_real (Rmax _ 0)). set (away0 := round_real (Rmax _ 0)).
  assert (Hh : (0 <= home0)%Z) by apply round_real_nonneg, Rmax_r.
  assert (Ha : (0 <= away0)%Z) by apply round_real_nonneg, Rmax_r.
  destruct (final_scores_favorite p home0 away0) as [Hfav Hdog].
  assert (Hfst : (0 <= fst (final_scores p home0 away0))%Z).
  { unfold final_scores. destruct (Rle_dec (1 / 2) p);
      [destruct (home0 <=? away0)%Z | destruct (away0 <=? home0)%Z]; cbn [fst]; lia. }
  assert (Hsnd : (0 <= snd (final_scores p home0 away0))%Z).
  { unfold final_scores. destruct (Rle_dec (1 / 2) p);
      [destruct (home0 <=? away0)%Z | destruct (away0 <=? home0)%Z]; cbn [snd]; lia. }
  destruct (final_scores p home0 away0) as [h a] eqn:E.
  cbn [fst snd predicted_home_score predicted_away_score predicted_total
       predicted_spread] in *.
  assert (Hne : h <> a /\ (1 / 2 <= p -> (a < h)%Z) /\ (p < 1 / 2 -> (h < a)%Z)).
  { destruct (Rle_dec (1 / 2) p) as [Hp|Hp].
    - destruct (Hfav Hp) as (_ & _ & H). split; [lia|]. split; [intros _; exact H | lra].
    - assert (Hp' : p < 1 / 2) by lra.
      destruct (Hdog Hp') as (_ & _ & H). split; [lia|]. split; [lra | intros _; exact H]. }
  destruct Hne as (Hne & Hpos & Hneg).
  split; [exact Hfst|]. split; [exact Hsnd|]. split; [exact Hne|].
  split; [|split].
  - apply IZR_le. lia.
  - intros Hp. specialize (Hpos Hp). apply IZR_le. lia.
  - intros Hp. specialize (Hneg Hp). apply IZR_le. lia.
Qed.

End predict_more.

(** ** The replay keeps the ratings centred *)

Section elo_conservation.
Import elo_calculator.
Local Open Scope R_scope.
Variable self : EloCalculator.







End elo_conservation.


(** ** The sport configuration *)

Section config_more.
Import sport_config.

Lemma upper_ascii_idempotent c : upper_ascii (upper_ascii c) = upper_ascii c.
Proof. destruct c as [[] [] [] [] [] [] [] []]; reflexivity. Qed.

(** A byte of a multi-byte character: 128 or more. *)
Local Abbreviation high c := ((128 <=? Ascii.nat_of_ascii c)%nat = true).

Lemma upper_ascii_high c : high (upper_ascii c) -> upper_ascii c = c.
Proof.
  destruct c as [[] [] [] [] [] [] [] []]; vm_compute; intros H;
    first [reflexivity | discriminate H].
Qed.

Lemma eqb_high c (k : Ascii.ascii) : Ascii.eqb c k = true -> high k -> c = k /\ high c.
Proof. intros E Hk. apply Ascii.eqb_eq in E. subst c. auto. Qed.

(** One step of [upper]. *)
Lemma upper_cons c s1 :
  upper (String c s1)
  = match s1 with
    | EmptyString => String (upper_ascii c) (upper s1)
    | String d s2 =>
        if Ascii.eqb c "195"%char && Ascii.eqb d "159"%char
        then String.append "SS" (upper s2)
        else if Ascii.eqb c "196"%char && Ascii.eqb d "177"%char
        then String.append "I" (upper s2)
        else if Ascii.eqb c "197"%char && Ascii.eqb d "191"%char
        then String.append "S" (upper s2)
        else if Ascii.eqb c "239"%char && Ascii.eqb d "172"%char
        then
          match s2 with
          | EmptyString => String (upper_ascii c) (upper s1)
          | String b s3 =>
              match ligature b with
              | Some l => String.append l (upper s3)
              | None => String (upper_ascii c) (upper s1)
              end
          end
        else String (upper_ascii c) (upper s1)
    end.
Proof. destruct s1 as [|d [|b s3]]; reflexivity. Qed.

(** A byte below 128 starts no special character. *)
Lemma upper_cons_low c s1 :
  (128 <=? Ascii.nat_of_ascii c)%nat = false ->
  upper (String c s1) = String (upper_ascii c) (upper s1).
Proof.
  intros Hc. rewrite upper_cons. destruct s1 as [|d s2]; [reflexivity|].
  assert (Hne : forall k : Ascii.ascii, high k -> Ascii.eqb c k = false).
  { intros k Hk. destruct (Ascii.eqb c k) eqn:E; [|reflexivity].
    apply Ascii.eqb_eq in E. subst c. congruence. }
  rewrite !Hne by reflexivity. reflexivity.
Qed.

Lemma ligature_some b l :
  ligature b = Some l ->
  high b /\
  In l ["FF"; "FI"; "FL"; "FFI"; "FFL"; "ST"]%string.
Proof.
  unfold ligature.
  repeat match goal with
         | |- context [Ascii.eqb b ?k] =>
             let E := fresh "E" in
             destruct (Ascii.eqb b k) eqn:E;
               [apply Ascii.eqb_eq in E; subst b; intros [= <-];
                split; [reflexivity | cbn; tauto]|]
         end.
  discriminate.
Qed.

(** The uppercase form starts with a high byte only where the string does:
    the special characters turn into ASCII letters. *)
Lemma upper_head_high s d u :
  upper s = String d u -> high d -> exists s', s = String d s' /\ upper s' = u.
Proof.
  destruct s as [|c s1]; [discriminate|]. rewrite upper_cons.
  assert (Hplain : String (upper_ascii c) (upper s1) = String d u -> high d ->
                   exists s', String c s1 = String d s' /\ upper s' = u).
  { intros [= Hc Hu] Hd. rewrite <- Hc in Hd. apply upper_ascii_high in Hd.
    exists s1. split; [congruence | exact Hu]. }
  assert (Hletter : forall (l : string) t,
            In l ["SS"; "I"; "S"; "FF"; "FI"; "FL"; "FFI"; "FFL"; "ST"]%string ->
            String.append l t = String d u -> high d ->
            exists s', String c s1 = String d s' /\ upper s' = u).
  { intros l t Hl E Hd. cbn in Hl.
    repeat (destruct Hl as [<-|Hl]; [cbn in E; injection E as <- _; discriminate Hd|]).
    destruct Hl. }
  destruct s1 as [|d1 s2]; [exact Hplain|].
  destruct (_ && _); [apply Hletter; cbn; tauto|].
  destruct (_ && _); [apply Hletter; cbn; tauto|].
  destruct (_ && _); [apply Hletter; cbn; tauto|].
  destruct (_ && _); [|exact Hplain].
  destruct s2 as [|b s3]; [exact Hplain|].
  destruct (ligature b) as [l|] eqn:L; [|exact Hplain].
  apply Hletter. apply ligature_some in L. destruct L as [_ L]. cbn in *. tauto.
Qed.

Lemma append_cons c (l t : string) :
  String.append (String c l) t = String c (String.append l t).
Proof. reflexivity. Qed.

Lemma append_empty (t : string) : String.append EmptyString t = t.
Proof. reflexivity. Qed.

(** A string that starts with ASCII capitals stays as it is in front of an
    uppercase form. *)
Lemma upper_letters (l t : string) :
  In l ["SS"; "I"; "S"; "FF"; "FI"; "FL"; "FFI"; "FFL"; "ST"]%string ->
  upper t = t -> upper (String.append l t) = String.append l t.
Proof.
  intros Hl Ht. cbn in Hl.
  repeat (destruct Hl as [<-|Hl];
          [rewrite !append_cons, append_empty, !upper_cons_low by reflexivity;
           rewrite Ht; reflexivity|]).
  destruct Hl.
Qed.

Lemma upper_plain_stable c s1 :
  upper (upper s1) = upper s1 ->
  (forall d s2, s1 = String d s2 ->
     Ascii.eqb c "195"%char && Ascii.eqb d "159"%char = false /\
     Ascii.eqb c "196"%char && Ascii.eqb d "177"%char = false /\
     Ascii.eqb c "197"%char && Ascii.eqb d "191"%char = false /\
     (Ascii.eqb c "239"%char && Ascii.eqb d "172"%char = true ->
      forall b s3, s2 = String b s3 -> ligature b = None)) ->
  upper (String (upper_ascii c) (upper s1)) = String (upper_ascii c) (upper s1).
Proof.
  intros Hidem Hplain. rewrite upper_cons.
  destruct (upper s1) as [|d' u2] eqn:E.
  { rewrite upper_ascii_idempotent. reflexivity. }
  assert (Hpair : forall k1 k2 : Ascii.ascii,
            high k1 -> high k2 ->
            Ascii.eqb (upper_ascii c) k1 && Ascii.eqb d' k2 = true ->
            c = k1 /\ exists s2, s1 = String k2 s2 /\ upper s2 = u2).
  { intros k1 k2 H1 H2 T. apply andb_true_iff in T. destruct T as [T1 T2].
    apply Ascii.eqb_eq in T1, T2. subst d'.
    split; [rewrite <- T1; symmetry; apply upper_ascii_high; rewrite T1; exact H1|].
    exact (upper_head_high s1 k2 u2 E H2). }
  destruct (Ascii.eqb (upper_ascii c) "195"%char && Ascii.eqb d' "159"%char) eqn:T1.
  { exfalso. destruct (Hpair "195"%char "159"%char eq_refl eq_refl T1) as (-> & s2 & -> & _).
    destruct (Hplain _ _ eq_refl) as (H & _). discriminate H. }
  destruct (Ascii.eqb (upper_ascii c) "196"%char && Ascii.eqb d' "177"%char) eqn:T2.
  { exfalso. destruct (Hpair "196"%char "177"%char eq_refl eq_refl T2) as (-> & s2 & -> & _).
    destruct (Hplain _ _ eq_refl) as (_ & H & _). discriminate H. }
  destruct (Ascii.eqb (upper_ascii c) "197"%char && Ascii.eqb d' "191"%char) eqn:T3.
  { exfalso. destruct (Hpair "197"%char "191"%char eq_refl eq_refl T3) as (-> & s2 & -> & _).
    destruct (Hplain _ _ eq_refl) as (_ & _ & H & _). discriminate H. }
  assert (Hdone : String (upper_ascii (upper_ascii c)) (upper (String d' u2))
                  = String (upper_ascii c) (String d' u2)).
  { rewrite upper_ascii_idempotent, Hidem. reflexivity. }
  destruct (Ascii.eqb (upper_ascii c) "239"%char && Ascii.eqb d' "172"%char) eqn:T4;
    [|exact Hdone].
  destruct u2 as [|b' u3]; [exact Hdone|].
  destruct (ligature b') as [l|] eqn:L; [|exact Hdone].
  exfalso. destruct (Hpair "239"%char "172"%char eq_refl eq_refl T4) as (-> & s2 & -> & Hs2).
  destruct (ligature_some _ _ L) as [Hb _].
  destruct (upper_head_high s2 b' u3 Hs2 Hb) as (s3 & -> & _).
  destruct (Hplain _ _ eq_refl) as (_ & _ & _ & H).
  rewrite (H eq_refl b' s3 eq_refl) in L. discriminate L.
Qed.

Lemma upper_idempotent_below n s :
  (String.length s < n)%nat -> upper (upper s) = upper s.
Proof.
  revert s. induction n as [|n IH]; intros s Hlen; [lia|].
  destruct s as [|c s1]; [reflexivity|]. cbn [String.length] in Hlen.
  assert (Hplain : (forall d s2, s1 = String d s2 ->
              Ascii.eqb c "195"%char && Ascii.eqb d "159"%char = false /\
              Ascii.eqb c "196"%char && Ascii.eqb d "177"%char = false /\
              Ascii.eqb c "197"%char && Ascii.eqb d "191"%char = false /\
              (Ascii.eqb c "239"%char && Ascii.eqb d "172"%char = true ->
               forall b s3, s2 = String b s3 -> ligature b = None)) ->
            upper (String (upper_ascii c) (upper s1)) = String (upper_ascii c) (upper s1)).
  { apply upper_plain_stable, IH. lia. }
  rewrite (upper_cons c s1).
  destruct s1 as [|d s2]; [apply Hplain; intros d s2 H; discriminate H|].
  cbn [String.length] in Hlen.
  assert (IH2 : upper (upper s2) = upper s2) by (apply IH; lia).
  destruct (Ascii.eqb c "195"%char && Ascii.eqb d "159"%char) eqn:T1;
    [apply upper_letters; [cbn; tauto | exact IH2]|].
  destruct (Ascii.eqb c "196"%char && Ascii.eqb d "177"%char) eqn:T2;
    [apply upper_letters; [cbn; tauto | exact IH2]|].
  destruct (Ascii.eqb c "197"%char && Ascii.eqb d "191"%char) eqn:T3;
    [apply upper_letters; [cbn; tauto | exact IH2]|].
  destruct (Ascii.eqb c "239"%char && Ascii.eqb d "172"%char) eqn:T4.
  - destruct s2 as [|b s3].
    + apply Hplain. intros d0 s0 [= <- <-]. repeat split; try assumption.
      intros _ b s3 H. discriminate H.
    + cbn [String.length] in Hlen.
      destruct (ligature b) as [l|] eqn:L.
      * apply upper_letters; [|apply IH; lia].
        apply ligature_some in L. destruct L as [_ L]. cbn in *. tauto.
      * apply Hplain. intros d0 s0 [= <- <-]. repeat split; try assumption.
        intros _ b0 s4 [= <- <-]. exact L.
  - apply Hplain. intros d0 s0 [= <- <-]. repeat split; try assumption.
    intros H. congruence.
Qed.

Lemma upper_idempotent s : upper (upper s) = upper s.
Proof. apply (upper_idempotent_below (S (String.length s))). lia. Qed.

Lemma configured_values sport config :
  get_sport_config sport = Some config ->
  name config = upper sport /\
  (0 < elo_k_base config)%Q /\ (0 < elo_home_advantage config)%Q /\
  (0 <= elo_season_regression config <= 1)%Q /\
  (0 < default_ppg config)%Q /\ (0 < spread_calibration config)%Q /\
  (0 < num_periods config)%nat.
Proof.
  unfold get_sport_config. intros E. apply elem_of_list_to_map_2 in E.
  repeat (apply elem_of_cons in E; destruct E as [E|E];
          [injection E as -> ->; cbn;
           repeat split; first [reflexivity | lra | lia]|]).
  apply elem_of_nil in E. destruct E.
Qed.

(** X26.  [get_sport_config] looks the sport up by its uppercase form, so
    it ignores the case of the name ([upper] is idempotent, the characters
    beyond ASCII whose uppercase form is ASCII included); the configuration
    it returns is the one named by the upper-cased sport, with a positive Elo
    K base, home advantage, default points and spread calibration, a season
    regression between 0 and 1 and at least one period; so a calculator
    constructed for such a sport has a positive [K_BASE] and a regression
    weight between 0 and 1; and constructing one for a sport whose uppercase
    form is not a key of [SPORT_CONFIGS] raises KeyError. *)
Theorem configured_sport (sport : string) :
  get_sport_config (upper sport) = get_sport_config sport /\
  match get_sport_config sport with
  | Some config =>
      name config = upper sport /\
      (0 < elo_k_base config)%Q /\ (0 < elo_home_advantage config)%Q /\
      (0 <= elo_season_regression config <= 1)%Q /\
      (0 < default_ppg config)%Q /\ (0 < spread_calibration config)%Q /\
      (0 < num_periods config)%nat /\
      exists self,
        elo_calculator.__init__ sport = Some self /\
        (0 < elo_calculator.K_BASE self)%R /\
        (0 <= elo_calculator._season_regression self <= 1)%R
  | None => elo_calculator.__init__ sport = None
  end.
Proof.
  split.
  - unfold get_sport_config. rewrite upper_idempotent. reflexivity.
  - unfold elo_calculator.__init__.
    destruct (get_sport_config sport) as [config|] eqn:E; [|reflexivity].
    destruct (configured_values sport config E) as (Hn & Hk & Hh & Hr & Hd & Hs & Hp).
    repeat (split; [assumption|]). destruct Hr as [Hr0 Hr1].
    eexists. split; [reflexivity|]. cbn [elo_calculator.K_BASE elo_calculator._season_regression].
    split; [|split].
    + replace 0%R with (Q2R 0) by (unfold Q2R; cbn; lra). apply Qreals.Qlt_Rlt, Hk.
    + replace 0%R with (Q2R 0) by (unfold Q2R; cbn; lra). apply Qreals.Qle_Rle, Hr0.
    + replace 1%R with (Q2R 1) by (unfold Q2R; cbn; lra). apply Qreals.Qle_Rle, Hr1.
Qed.

(** The name "N" followed by the ligature U+FB02 (bytes EF AC 82), whose
    uppercase form is "NFL", is configured as the NFL; so is "nfl"; "NFL "
    with a trailing blank is not configured. *)
Example sport_names_by_uppercase :
  name <$> get_sport_config (String "N" (String "239" (String "172" (String "130" ""))))
  = Some "NFL"%string /\
  name <$> get_sport_config "nfl" = Some "NFL"%string /\
  name <$> get_sport_config "NFL " = None.
Proof. repeat split; vm_compute; reflexivity. Qed.

End config_more.
